(** * ProtoWeb: byte stuffing, Hamming SEC-DED frame check and CSMA/CD

    Shallow embedding of the protocol engines of the lab variants
    (3_LAB/main_app.py, 4_LAB/main_app.py, 4_LAB/hamming_functions.py,
    and the receive loop of 2_LAB/main_app.py) and the properties stated
    about them.

    Conventions.  Python integers are [Z]; a bit is an integer 0 or 1; a
    [bytes]/[bytearray] value is a [list Z] of values in 0..255; a Python
    list is a [list]; [l[i]] is [getitem l i] and [l[i] = v] is
    [setitem l i v] (the code guards every index it uses, so the
    IndexError and the negative indexing of Python do not arise; outside
    the range [getitem] has no meaning and [setitem] changes nothing);
    a [for x in range(a, b)] loop is a left fold over [range a b]; a
    [while] loop is a fuel-bounded recursion together with a lemma that
    the fuel given is enough. *)

From Stdlib Require Import QArith.
From stdpp Require Import base numbers list gmap.

Open Scope Z_scope.

(** ** Python primitives *)

Definition range (a b : Z) : list Z := seqZ a (b - a).

Definition getitem (l : list Z) (i : Z) : Z := l !!! Z.to_nat i.

Definition setitem (l : list Z) (i : Z) (v : Z) : list Z := <[Z.to_nat i := v]> l.

Definition len {A} (l : list A) : Z := Z.of_nat (length l).

(** [l[a:b]] for [0 <= a], [0 <= b]. *)
Definition slice {A} (l : list A) (a b : Z) : list A :=
  take (Z.to_nat b - Z.to_nat a) (drop (Z.to_nat a) l).

(** [2**r < m + r + 1] loop shared by the parameter computations:
    [r] is incremented while the test holds. *)
Fixpoint parity_loop (fuel : nat) (m r : Z) : Z :=
  match fuel with
  | O => r
  | S fuel' => if 2 ^ r <? m + r + 1 then parity_loop fuel' m (r + 1) else r
  end.

Definition standard_parity_bits_of (m : Z) : Z := parity_loop (Z.to_nat m + 2) m 0.

(** ** 3_LAB/main_app.py: Hamming SEC-DED *)

Module Lab3.

(** get_sec_ded_hamming_params *)
Definition get_sec_ded_hamming_params (data_bits_count : Z) : Z * Z :=
  let standard_parity_bits := standard_parity_bits_of data_bits_count in
  let overall_parity_bit := 1 in
  let total_parity_bits := standard_parity_bits + overall_parity_bit in
  let total_code_length := data_bits_count + total_parity_bits in
  (total_parity_bits, total_code_length).

(** First loop of calculate_hamming_parity_bits: data bits go to the
    positions that are not powers of two, while data bits remain. *)
Definition place_data_bits (data : list Z) (n : Z) (hamming_code : list Z) : list Z :=
  fst (foldl (fun '(code, data_idx) pos_1idx =>
          if negb (Z.land pos_1idx (pos_1idx - 1) =? 0) then
            if data_idx <? len data
            then (setitem code (pos_1idx - 1) (getitem data data_idx), data_idx + 1)
            else (code, data_idx)
          else (code, data_idx))
        (hamming_code, 0) (range 1 (n + 1))).

(** Inner loop: XOR of the bits whose position has bit [i] set, the
    parity position itself left out. *)
Definition parity_of (hamming_code : list Z) (n i parity_pos_1idx : Z) : Z :=
  foldl (fun parity bit_pos_1idx =>
           if negb (Z.land (Z.shiftr bit_pos_1idx i) 1 =? 0) then
             if negb (bit_pos_1idx =? parity_pos_1idx)
             then Z.lxor parity (getitem hamming_code (bit_pos_1idx - 1))
             else parity
           else parity)
        0 (range 1 (n + 1)).

(** Second loop: the standard parity bits at positions 1, 2, 4, ... *)
Definition place_parity_bits (standard_parity_bits n : Z) (hamming_code : list Z) : list Z :=
  foldl (fun code i =>
           let parity_pos_1idx := Z.shiftl 1 i in
           if parity_pos_1idx <=? n
           then setitem code (parity_pos_1idx - 1) (parity_of code n i parity_pos_1idx)
           else code)
        hamming_code (range 0 standard_parity_bits).

(** Third loop: XOR of all bits but the last. *)
Definition overall_parity_of (hamming_code : list Z) (n : Z) : Z :=
  foldl (fun overall_parity i => Z.lxor overall_parity (getitem hamming_code i))
        0 (range 0 (n - 1)).

Definition calculate_hamming_parity_bits (data_bits : list Z) : list Z :=
  let data := data_bits in
  let m := len data in
  let standard_parity_bits := standard_parity_bits_of m in
  let overall_parity_bit := 1 in
  let total_parity_bits := standard_parity_bits + overall_parity_bit in
  let n := m + total_parity_bits in
  let hamming_code := replicate (Z.to_nat n) 0 in
  let hamming_code := place_data_bits data n hamming_code in
  let hamming_code := place_parity_bits standard_parity_bits n hamming_code in
  let overall_parity := overall_parity_of hamming_code n in
  setitem hamming_code (n - 1) overall_parity.

Definition hamming_encode (data_bits : list Z) : list Z :=
  calculate_hamming_parity_bits data_bits.

(** Syndrome: XOR of the 1-indexed positions of the non-zero bits. *)
Definition syndrome_of (encoded_bits : list Z) : Z :=
  foldl (fun syndrome i =>
           if negb (getitem encoded_bits i =? 0) then Z.lxor syndrome (i + 1) else syndrome)
        0 (range 0 (len encoded_bits)).

Definition total_parity_of (encoded_bits : list Z) : Z :=
  foldl (fun total_parity bit => Z.lxor total_parity bit) 0 encoded_bits.

(** The four-way classification; returns the bits the data is read from
    and the two flags. *)
Definition classify (encoded_bits : list Z) : list Z * bool * bool :=
  let n := len encoded_bits in
  let syndrome := syndrome_of encoded_bits in
  let total_parity := total_parity_of encoded_bits in
  if (syndrome =? 0) && (total_parity =? 0) then
    (encoded_bits, false, false)
  else if negb (syndrome =? 0) && (total_parity =? 1) then
    let corrected_bits :=
      if syndrome <=? n
      then setitem encoded_bits (syndrome - 1) (Z.lxor (getitem encoded_bits (syndrome - 1)) 1)
      else encoded_bits in
    (corrected_bits, true, false)
  else if negb (syndrome =? 0) && (total_parity =? 0) then
    (encoded_bits, false, true)
  else
    (encoded_bits, false, true).

(** Extraction loop of 3_LAB: neither a power of two nor the last position. *)
Definition extract_data_bits (encoded_bits : list Z) (n : Z) : list Z :=
  foldl (fun data_bits i =>
           let pos := i + 1 in
           if negb (Z.land pos (pos - 1) =? 0) && negb (pos =? n)
           then data_bits ++ [getitem encoded_bits i]
           else data_bits)
        [] (range 0 n).

Definition hamming_decode (encoded_bits : list Z) : list Z * bool * bool :=
  let n := len encoded_bits in
  let '(encoded_bits, error_corrected, double_error) := classify encoded_bits in
  (extract_data_bits encoded_bits n, error_corrected, double_error).

End Lab3.

(** ** 4_LAB/hamming_functions.py *)

Module Lab4H.

(** The encoder of hamming_functions.py is, line for line, the encoder of
    3_LAB/main_app.py. *)
Definition calculate_hamming_parity_bits (data_bits : list Z) : list Z :=
  let data := data_bits in
  let m := len data in
  let standard_parity_bits := standard_parity_bits_of m in
  let overall_parity_bit := 1 in
  let total_parity_bits := standard_parity_bits + overall_parity_bit in
  let n := m + total_parity_bits in
  let hamming_code := replicate (Z.to_nat n) 0 in
  let hamming_code := Lab3.place_data_bits data n hamming_code in
  let hamming_code := Lab3.place_parity_bits standard_parity_bits n hamming_code in
  let overall_parity := Lab3.overall_parity_of hamming_code n in
  setitem hamming_code (n - 1) overall_parity.

Definition hamming_encode (data_bits : list Z) : list Z :=
  calculate_hamming_parity_bits data_bits.

(** Extraction loop of hamming_functions.py: the test is only
    [(pos & (pos - 1)) != 0]. *)
Definition extract_data_bits (encoded_bits : list Z) (n : Z) : list Z :=
  foldl (fun data_bits i =>
           let pos := i + 1 in
           if negb (Z.land pos (pos - 1) =? 0)
           then data_bits ++ [getitem encoded_bits i]
           else data_bits)
        [] (range 0 n).

(** The classification of hamming_functions.py is, line for line, that of
    3_LAB/main_app.py. *)
Definition hamming_decode (encoded_bits : list Z) : list Z * bool * bool :=
  let n := len encoded_bits in
  let '(encoded_bits, error_corrected, double_error) := Lab3.classify encoded_bits in
  (extract_data_bits encoded_bits n, error_corrected, double_error).

End Lab4H.

(** ** Framing constants

    The constants of CommunicatorApp.__init__; 3_LAB and 4_LAB set the
    same values. *)

Definition N : Z := 9.
Definition DATA_LENGTH : Z := N + 1.
Definition FLAG_START : list Z := [64].
Definition FLAG_END : list Z := [97 + N - 1].
Definition FLAG : list Z := FLAG_START ++ FLAG_END.
Definition DEST_ADDR : list Z := [0].
Definition ESC : list Z := [27].

(** The dictionaries are keyed by [bytes] values. *)
Definition STUFF_MAP : gmap (list Z) (list Z) :=
  <[ESC := ESC ++ ESC]> (<[FLAG_END := ESC ++ FLAG_END]> (<[FLAG_START := ESC ++ FLAG_START]> ∅)).

(** [for k, v in STUFF_MAP.items(): UNSTUFF_MAP[v] = k] *)
Definition UNSTUFF_MAP : gmap (list Z) (list Z) :=
  map_fold (fun k v unstuff_map => <[v := k]> unstuff_map) ∅ STUFF_MAP.

(** The stuffing loop of prepare_data (the same loop in both labs, over
    the chunk in 4_LAB and over chunk + FCS in 3_LAB; the set of stuffed
    indices that 3_LAB also fills is never read and is left out). *)
Definition stuff (data : list Z) : list Z :=
  foldl (fun stuffed byte =>
           let byte_val := [byte] in
           match STUFF_MAP !! byte_val with
           | Some escaped => stuffed ++ escaped
           | None => stuffed ++ byte_val
           end)
        [] data.

(** The unstuffing loop of on_data_received_1/2 (the same loop in both
    labs): index [i] walks [raw]; each round advances it by one or two. *)
Fixpoint unstuff_loop (fuel : nat) (raw : list Z) (i : Z) (unstuffed : list Z) : list Z :=
  match fuel with
  | O => unstuffed
  | S fuel' =>
      if i <? len raw then
        if i + 1 <? len raw then
          let sequence := slice raw i (i + 2) in
          match UNSTUFF_MAP !! sequence with
          | Some original => unstuff_loop fuel' raw (i + 2) (unstuffed ++ original)
          | None => unstuff_loop fuel' raw (i + 1) (unstuffed ++ [getitem raw i])
          end
        else unstuff_loop fuel' raw (i + 1) (unstuffed ++ [getitem raw i])
      else unstuffed
  end.

Definition unstuff (raw : list Z) : list Z := unstuff_loop (length raw) raw 0 [].

(** [buf.find(sub)]: lowest index at which [sub] occurs, or -1. *)
Fixpoint bytes_find_from (buf sub : list Z) (i : Z) : Z :=
  if decide (sub `prefix_of` buf) then i
  else match buf with
       | [] => -1
       | _ :: buf' => bytes_find_from buf' sub (i + 1)
       end.

Definition bytes_find (buf sub : list Z) : Z := bytes_find_from buf sub 0.

(** MSB-first bits of a byte sequence:
    [for byte in bs: for i in range(7, -1, -1): bits.append((byte >> i) & 1)] *)
Definition bytes_to_bits (bs : list Z) : list Z :=
  foldl (fun bits byte =>
           foldl (fun bits i => bits ++ [Z.land (Z.shiftr byte i) 1]) bits [7; 6; 5; 4; 3; 2; 1; 0])
        [] bs.

(** [range(0, stop, 8)] *)
Definition range_step (stop step : Z) : list Z :=
  (fun k => k * step) <$> seqZ 0 ((stop + step - 1) `div` step).

(** Packing bits into bytes, MSB first, the last byte zero-filled on the right. *)
Definition bits_to_bytes (bits : list Z) : list Z :=
  foldl (fun out i =>
           let byte_val :=
             foldl (fun byte_val j =>
                      if i + j <? len bits
                      then Z.lor byte_val (Z.shiftl (getitem bits (i + j)) (7 - j))
                      else byte_val)
                   0 (range 0 (Z.min 8 (len bits - i))) in
           out ++ [byte_val])
        [] (range_step (len bits) 8).

(** ** 3_LAB/main_app.py: frame check sequence, frames, receive path *)

Module Lab3F.

(** [fcs_bits_count] and [FCS_LENGTH] as __init__ computes them. *)
Definition fcs_bits_count : Z := standard_parity_bits_of (DATA_LENGTH * 8) + 1.
Definition FCS_LENGTH : Z := (fcs_bits_count + 7) `div` 8.

Definition calculate_fcs (data_bytes : list Z) : list Z :=
  let data_bits := bytes_to_bits data_bytes in
  let encoded_bits := Lab3.hamming_encode data_bits in
  let fcs_bytes := bits_to_bytes encoded_bits in
  (* while len(fcs_bytes) < FCS_LENGTH: fcs_bytes.append(0) *)
  let fcs_bytes := fcs_bytes ++ replicate (Z.to_nat (FCS_LENGTH - len fcs_bytes)) 0 in
  slice fcs_bytes 0 FCS_LENGTH.

(** The two filling loops of verify_fcs. *)
Definition fill_data_positions (data_bits : list Z) (total_length : Z) (received_codeword : list Z) : list Z :=
  fst (foldl (fun '(cw, data_idx) pos =>
          if negb (Z.land pos (pos - 1) =? 0) then
            if data_idx <? len data_bits
            then (setitem cw (pos - 1) (getitem data_bits data_idx), data_idx + 1)
            else (cw, data_idx)
          else (cw, data_idx))
        (received_codeword, 0) (range 1 (total_length + 1))).

Definition fill_parity_positions (fcs_bits : list Z) (total_length : Z) (received_codeword : list Z) : list Z :=
  fst (foldl (fun '(cw, fcs_idx) pos =>
          if Z.land pos (pos - 1) =? 0 then
            if fcs_idx <? len fcs_bits
            then (setitem cw (pos - 1) (getitem fcs_bits fcs_idx), fcs_idx + 1)
            else (cw, fcs_idx)
          else (cw, fcs_idx))
        (received_codeword, 0) (range 1 (total_length + 1))).

Definition verify_fcs (received_data received_fcs : list Z) : list Z * bool * bool :=
  let data_bits := bytes_to_bits received_data in
  let fcs_bits := bytes_to_bits received_fcs in
  let '(r, total_length) := Lab3.get_sec_ded_hamming_params (len data_bits) in
  let received_codeword := replicate (Z.to_nat total_length) 0 in
  let received_codeword := fill_data_positions data_bits total_length received_codeword in
  let received_codeword := fill_parity_positions fcs_bits total_length received_codeword in
  let '(corrected_data_bits, corrected, double_error) := Lab3.hamming_decode received_codeword in
  (bits_to_bytes corrected_data_bits, corrected, double_error).

(** The random source of apply_bit_corruption: the value of
    [random.random()] as a rational, and the successive
    [(randint(0, len - 1), randint(0, 7))] pairs it goes on to draw. *)
Record corruption_source := {
  rand_val : Q;
  index_draws : list (Z * Z)
}.

(** [data[byte_idx] ^= (1 << bit_idx)] *)
Definition flip_bit (data : list Z) (byte_idx bit_idx : Z) : list Z :=
  setitem data byte_idx (Z.lxor (getitem data byte_idx) (Z.shiftl 1 bit_idx)).

(** The [while True] redraw loop for the second bit: the first pair that
    differs from the first one; [None] while no such pair has been drawn. *)
Fixpoint second_bit (data : list Z) (byte_idx1 bit_idx1 : Z) (draws : list (Z * Z)) : option (list Z) :=
  match draws with
  | [] => None
  | (byte_idx2, bit_idx2) :: draws' =>
      if negb (byte_idx1 =? byte_idx2) || negb (bit_idx1 =? bit_idx2)
      then Some (flip_bit data byte_idx2 bit_idx2)
      else second_bit data byte_idx1 bit_idx1 draws'
  end.

Definition apply_bit_corruption (src : corruption_source) (data_bytes : list Z) : option (list Z) :=
  let data := data_bytes in
  if negb (Qle_bool (40 # 100)%Q (rand_val src)) then
    match index_draws src with
    | (byte_idx, bit_idx) :: _ => Some (flip_bit data byte_idx bit_idx)
    | [] => None
    end
  else if negb (Qle_bool (65 # 100)%Q (rand_val src)) then
    match index_draws src with
    | (byte_idx1, bit_idx1) :: draws' =>
        second_bit (flip_bit data byte_idx1 bit_idx1) byte_idx1 bit_idx1 draws'
    | [] => None
    end
  else Some data.

(** [bytes([source_port_num])], with the ValueError fallback. *)
Definition source_addr_of (source_port_num : Z) : list Z :=
  if (0 <=? source_port_num) && (source_port_num <? 256) then [source_port_num] else [0].

(** Steps 2 to 6 of the loop body of prepare_data for one chunk. *)
Definition prepare_frame (src : corruption_source) (source_addr chunk : list Z) : option (list Z) :=
  let chunk := if len chunk <? DATA_LENGTH
               then chunk ++ replicate (Z.to_nat (DATA_LENGTH - len chunk)) 0
               else chunk in
  let fcs := calculate_fcs chunk in
  match apply_bit_corruption src chunk with
  | Some corrupted_chunk =>
      let data_with_fcs := corrupted_chunk ++ fcs in
      let stuffed_data_with_fcs := stuff data_with_fcs in
      Some (FLAG ++ source_addr ++ DEST_ADDR ++ stuffed_data_with_fcs)
  | None => None
  end.

(** prepare_data on the UTF-8 bytes of the text; one random source per
    chunk.  The HTML preview is not modelled. *)
Fixpoint prepare_frames (srcs : list corruption_source) (source_addr : list Z) (chunks : list (list Z))
  : option (list (list Z)) :=
  match chunks, srcs with
  | [], _ => Some []
  | chunk :: chunks', src :: srcs' =>
      match prepare_frame src source_addr chunk, prepare_frames srcs' source_addr chunks' with
      | Some frame, Some frames => Some (frame :: frames)
      | _, _ => None
      end
  | _ :: _, [] => None
  end.

Definition prepare_data (srcs : list corruption_source) (data_bytes : list Z) (source_port_num : Z)
  : option (list (list Z)) :=
  let source_addr := source_addr_of source_port_num in
  let chunks := (fun i => slice data_bytes i (i + DATA_LENGTH)) <$> range_step (len data_bytes) DATA_LENGTH in
  prepare_frames srcs source_addr chunks.

(** What on_data_received_1 hands to the display for one parsed frame. *)
Record delivery := {
  source_addr : list Z;
  corrected_data : list Z;
  corrected : bool;
  double_error : bool
}.

(** The [while True] loop of on_data_received_1/2: the state is the
    receive buffer and the frames delivered so far; [None] when the fuel
    runs out before the loop returns. *)
Fixpoint receive_loop (fuel : nat) (rx_buffer : list Z) (delivered : list delivery)
  : option (list Z * list delivery) :=
  match fuel with
  | O => None
  | S fuel' =>
      let start_index := bytes_find rx_buffer FLAG in
      if start_index =? -1 then
        if 100 <? len rx_buffer
        then Some (drop (length rx_buffer - 50) rx_buffer, delivered)
        else Some (rx_buffer, delivered)
      else
        let min_frame_size := 4 + DATA_LENGTH + FCS_LENGTH in
        if len rx_buffer - start_index <? min_frame_size then Some (rx_buffer, delivered)
        else
          let potential_frame := drop (Z.to_nat start_index) rx_buffer in
          let source_addr := slice potential_frame 2 3 in
          let raw_data_with_fcs := drop 4 potential_frame in
          let unstuffed_data_with_fcs := unstuff raw_data_with_fcs in
          if len unstuffed_data_with_fcs <? DATA_LENGTH + FCS_LENGTH then Some (rx_buffer, delivered)
          else
            let received_data := slice unstuffed_data_with_fcs 0 DATA_LENGTH in
            let received_fcs := slice unstuffed_data_with_fcs DATA_LENGTH (DATA_LENGTH + FCS_LENGTH) in
            let '(corrected_data, corrected, double_error) := verify_fcs received_data received_fcs in
            let actual_frame_size := 4 + len raw_data_with_fcs in
            let next_frame_start := start_index + actual_frame_size in
            let rx_buffer :=
              if next_frame_start <=? len rx_buffer
              then drop (Z.to_nat next_frame_start) rx_buffer
              else [] in
            receive_loop fuel' rx_buffer
              (delivered ++ [{| source_addr := source_addr; corrected_data := corrected_data;
                                corrected := corrected; double_error := double_error |}])
  end.

(** [rx_buffer_1.extend(data_bytes)], then the loop. *)
Definition on_data_received_1 (rx_buffer data_bytes : list Z) : option (list Z * list delivery) :=
  let rx_buffer := rx_buffer ++ data_bytes in
  receive_loop (length rx_buffer + 1) rx_buffer [].

(** SerialWorker.run wired to on_data_received_1: every byte read from
    the port is emitted on its own, and the handler runs once per byte
    on the buffer the previous call left. *)
Definition serial_worker_run (port_bytes : list Z) : option (list Z * list delivery) :=
  foldl (fun st byte =>
           match st with
           | Some (rx_buffer, delivered) =>
               match on_data_received_1 rx_buffer [byte] with
               | Some (rx_buffer, delivered') => Some (rx_buffer, delivered ++ delivered')
               | None => None
               end
           | None => None
           end)
        (Some ([], [])) port_bytes.

End Lab3F.

(** ** 4_LAB/main_app.py: frames and receive path without FCS *)

Module Lab4F.

Definition source_addr_of (source_port_num : Z) : list Z :=
  if (0 <=? source_port_num) && (source_port_num <? 256) then [source_port_num] else [0].

(** The loop body of prepare_data for one chunk: pad, stuff, add the header. *)
Definition prepare_frame (source_addr chunk : list Z) : list Z :=
  let chunk := if len chunk <? DATA_LENGTH
               then chunk ++ replicate (Z.to_nat (DATA_LENGTH - len chunk)) 0
               else chunk in
  let stuffed_data := stuff chunk in
  FLAG ++ source_addr ++ DEST_ADDR ++ stuffed_data.

Definition prepare_data (data_bytes : list Z) (source_port_num : Z) : list (list Z) :=
  let source_addr := source_addr_of source_port_num in
  let chunks := (fun i => slice data_bytes i (i + DATA_LENGTH)) <$> range_step (len data_bytes) DATA_LENGTH in
  prepare_frame source_addr <$> chunks.

Record delivery := {
  source_addr : list Z;
  received_data : list Z
}.

Fixpoint receive_loop (fuel : nat) (rx_buffer : list Z) (delivered : list delivery)
  : option (list Z * list delivery) :=
  match fuel with
  | O => None
  | S fuel' =>
      let start_index := bytes_find rx_buffer FLAG in
      if start_index =? -1 then
        if 100 <? len rx_buffer
        then Some (drop (length rx_buffer - 50) rx_buffer, delivered)
        else Some (rx_buffer, delivered)
      else
        let min_frame_size := 4 + DATA_LENGTH in
        if len rx_buffer - start_index <? min_frame_size then Some (rx_buffer, delivered)
        else
          let potential_frame := drop (Z.to_nat start_index) rx_buffer in
          let source_addr := slice potential_frame 2 3 in
          let raw_data := drop 4 potential_frame in
          let unstuffed_data := unstuff raw_data in
          let expected_data_len := DATA_LENGTH in
          if len unstuffed_data <? expected_data_len then Some (rx_buffer, delivered)
          else
            let received_data := slice unstuffed_data 0 expected_data_len in
            let actual_frame_size := 4 + len raw_data in
            let next_frame_start := start_index + actual_frame_size in
            let rx_buffer :=
              if next_frame_start <=? len rx_buffer
              then drop (Z.to_nat next_frame_start) rx_buffer
              else [] in
            receive_loop fuel' rx_buffer
              (delivered ++ [{| source_addr := source_addr; received_data := received_data |}])
  end.

Definition on_data_received_1 (rx_buffer data_bytes : list Z) : option (list Z * list delivery) :=
  let rx_buffer := rx_buffer ++ data_bytes in
  receive_loop (length rx_buffer + 1) rx_buffer [].

(** SerialWorker.run wired to on_data_received_1: every byte read from
    the port is handled on its own; a byte 0xFF is taken for a jam signal
    and not passed on. *)
Definition serial_worker_run (port_bytes : list Z) : option (list Z * list delivery) :=
  foldl (fun st byte =>
           match st with
           | Some (rx_buffer, delivered) =>
               if byte =? 255 then Some (rx_buffer, delivered)
               else
                 match on_data_received_1 rx_buffer [byte] with
                 | Some (rx_buffer, delivered') => Some (rx_buffer, delivered ++ delivered')
                 | None => None
                 end
           | None => None
           end)
        (Some ([], [])) port_bytes.

End Lab4F.

(** ** 2_LAB/main_app.py: the receive path with frames of fixed length *)

Module Lab2F.

(** The constant FCS byte of 2_LAB. *)
Definition FCS : list Z := [0].

Definition prepare_frame (source_addr chunk : list Z) : list Z :=
  let chunk := if len chunk <? DATA_LENGTH
               then chunk ++ replicate (Z.to_nat (DATA_LENGTH - len chunk)) 0
               else chunk in
  let stuffed_chunk := stuff chunk in
  FLAG ++ source_addr ++ DEST_ADDR ++ stuffed_chunk ++ FCS.

Record delivery := {
  source_addr : list Z;
  unstuffed_data : list Z
}.

(** The [while True] loop of on_data_received_1 of 2_LAB: the frame is
    the 15 bytes from the flag on, and the buffer is cut after them. *)
Fixpoint receive_loop (fuel : nat) (rx_buffer : list Z) (delivered : list delivery)
  : option (list Z * list delivery) :=
  match fuel with
  | O => None
  | S fuel' =>
      let start_index := bytes_find rx_buffer FLAG in
      if start_index =? -1 then
        if 100 <? len rx_buffer
        then Some (drop (length rx_buffer - 50) rx_buffer, delivered)
        else Some (rx_buffer, delivered)
      else
        if len rx_buffer - start_index <? 15 then Some (rx_buffer, delivered)
        else
          let potential_frame := slice rx_buffer start_index (start_index + 15) in
          let source_addr := slice potential_frame 2 3 in
          let raw_data := slice potential_frame 4 14 in
          let unstuffed_data := unstuff raw_data in
          let next_frame_start := start_index + 15 in
          let rx_buffer :=
            if next_frame_start <=? len rx_buffer
            then drop (Z.to_nat next_frame_start) rx_buffer
            else [] in
          receive_loop fuel' rx_buffer
            (delivered ++ [{| source_addr := source_addr; unstuffed_data := unstuffed_data |}])
  end.

Definition on_data_received_1 (rx_buffer data_bytes : list Z) : option (list Z * list delivery) :=
  let rx_buffer := rx_buffer ++ data_bytes in
  receive_loop (length rx_buffer + 1) rx_buffer [].

End Lab2F.

(** ** 4_LAB/main_app.py: CSMACDTransmitter *)

Module CSMACD.

Definition max_retries : Z := 16.
Definition max_backoff_exp : Z := 10.
Definition cw_min : Z := 7.
Definition cw_max : Z := 1023.

(** generate_backoff_time, given the function that answers
    [random.randint(0, cw)]. *)
Definition generate_backoff_time (randint : Z -> Z -> Z) (collision_count : Z) : Z :=
  let k := Z.min collision_count max_backoff_exp in
  let cw := Z.min (2 ^ k - 1) cw_max in
  let cw := Z.max cw_min cw in
  let random_slots := randint 0 cw in
  random_slots * 5.

(** The simulated medium and the transport, as the outcomes of the
    successive calls: the [k]-th call of listen_channel ([true] = busy),
    of detect_collision, of [random.randint], whether the [k]-th
    [port.write] of a data byte raises, and how many of its four bytes
    the [k]-th call of send_jam_signal gets onto the port (none when the
    port is closed, fewer than four when its [port.write] raises). *)
Record medium := {
  listen_channel : nat -> bool;
  detect_collision : nat -> bool;
  randint : nat -> Z -> Z -> Z;
  write_raises : nat -> bool;
  jam_written : nat -> nat
}.

Inductive attempt_outcome := Completed | Collided | Raised.

#[global] Instance attempt_outcome_eq_dec : EqDecision attempt_outcome.
Proof. solve_decision. Defined.

(** The local variables of transmit_with_csma_cd, the number of calls made
    so far to each part of the medium, what went out on the port (frame
    bytes and jam bytes), the sleeps in milliseconds, and the outcome of
    each transmission attempt so far. *)
Record tx_state := {
  collision_count : Z;
  retry_count : Z;
  listens : nat;
  detects : nat;
  draws : nat;
  writes : nat;
  jams : nat;
  port_out : list Z;
  sleeps : list Z;
  attempts : list attempt_outcome
}.

Definition initial : tx_state :=
  {| collision_count := 0; retry_count := 0; listens := 0; detects := 0; draws := 0;
     writes := 0; jams := 0; port_out := []; sleeps := []; attempts := [] |}.

(** send_jam_signal, called for the [k]-th time: [port.write(b'\xFF' * 4)]
    behind the guard [if self.port and self.port.is_open], inside a [try]
    whose [except] only prints.  The call always returns; what reaches
    the port is the part of the four bytes the medium lets through. *)
Definition send_jam_signal (md : medium) (k : nat) : list Z :=
  replicate (Nat.min 4 (jam_written md k)) 255.

(** The [for i, byte in enumerate(data)] loop with its [else] clause. *)
Fixpoint send_bytes (md : medium) (data : list Z) (st : tx_state) : tx_state * attempt_outcome :=
  match data with
  | [] => (st, Completed)
  | byte :: data' =>
      if detect_collision md (detects st) then
        (* send_jam_signal; both counters; backoff sleep; break *)
        let collision_count' := collision_count st + 1 in
        let backoff_time := generate_backoff_time (randint md (draws st)) collision_count' in
        ({| collision_count := collision_count'; retry_count := retry_count st + 1;
            listens := listens st; detects := S (detects st); draws := S (draws st);
            writes := writes st; jams := S (jams st);
            port_out := port_out st ++ send_jam_signal md (jams st);
            sleeps := sleeps st ++ [backoff_time]; attempts := attempts st |}, Collided)
      else if write_raises md (writes st) then
        (* except Exception: retry_count += 1; sleep 0.1 s *)
        ({| collision_count := collision_count st; retry_count := retry_count st + 1;
            listens := listens st; detects := S (detects st); draws := draws st;
            writes := S (writes st); jams := jams st; port_out := port_out st;
            sleeps := sleeps st ++ [100]; attempts := attempts st |}, Raised)
      else
        send_bytes md data'
          {| collision_count := collision_count st; retry_count := retry_count st;
             listens := listens st; detects := S (detects st); draws := draws st;
             writes := S (writes st); jams := jams st; port_out := port_out st ++ [byte];
             sleeps := sleeps st ++ [1]; attempts := attempts st |}
  end.

Definition record_attempt (o : attempt_outcome) (st : tx_state) : tx_state :=
  {| collision_count := collision_count st; retry_count := retry_count st;
     listens := listens st; detects := detects st; draws := draws st;
     writes := writes st; jams := jams st; port_out := port_out st; sleeps := sleeps st;
     attempts := attempts st ++ [o] |}.

Definition after_listen (busy : bool) (st : tx_state) : tx_state :=
  {| collision_count := collision_count st; retry_count := retry_count st;
     listens := S (listens st); detects := detects st; draws := draws st;
     writes := writes st; jams := jams st; port_out := port_out st;
     sleeps := if busy then sleeps st ++ [10] else sleeps st;
     attempts := attempts st |}.

(** The [while retry_count < self.max_retries] loop; [None] when the fuel
    runs out before the loop returns. *)
Fixpoint transmit_loop (fuel : nat) (md : medium) (data : list Z) (st : tx_state)
  : option (bool * tx_state) :=
  match fuel with
  | O => None
  | S fuel' =>
      if retry_count st <? max_retries then
        let busy := listen_channel md (listens st) in
        let st := after_listen busy st in
        if busy then transmit_loop fuel' md data st
        else
          let '(st, outcome) := send_bytes md data st in
          let st := record_attempt outcome st in
          match outcome with
          | Completed => Some (true, st)
          | Collided | Raised => transmit_loop fuel' md data st
          end
      else Some (false, st)
  end.

Definition transmit_with_csma_cd (fuel : nat) (md : medium) (data : list Z) : option (bool * tx_state) :=
  transmit_loop fuel md data initial.

End CSMACD.

(** ** 4_LAB/main_app.py: send_data_1 *)

Module Lab4S.
Import CSMACD.

(** The preview loop of send_data_1: one call of detect_collision for
    every byte of the frame; the count of collisions is all it keeps. *)
Fixpoint preview_collisions (md : medium) (frame : list Z) (detects : nat)
    (collision_occurrences : Z) : nat * Z :=
  match frame with
  | [] => (detects, collision_occurrences)
  | _ :: frame' =>
      preview_collisions md frame' (S detects)
        (if detect_collision md detects
         then collision_occurrences + 1 else collision_occurrences)
  end.

(** A call of transmit_with_csma_cd after earlier calls: its local
    variables start afresh; the calls made to the medium so far, the
    output of the port and the sleeps carry on. *)
Definition transmit_next (fuel : nat) (md : medium) (data : list Z) (world : tx_state)
  : option (bool * tx_state) :=
  transmit_loop fuel md data
    {| collision_count := 0; retry_count := 0;
       listens := listens world; detects := detects world; draws := draws world;
       writes := writes world; jams := jams world;
       port_out := port_out world; sleeps := sleeps world;
       attempts := [] |}.

Record send_state := {
  world : tx_state;
  total_bytes_sent : Z;
  collision_occurrences : Z
}.

(** The loop of send_data_1 over the frames. *)
Fixpoint send_frames (fuel : nat) (md : medium) (frames : list (list Z)) (st : send_state)
  : option send_state :=
  match frames with
  | [] => Some st
  | frame :: frames' =>
      let '(detects', occurrences) :=
        preview_collisions md frame (detects (world st)) (collision_occurrences st) in
      let w := {| collision_count := collision_count (world st);
                  retry_count := retry_count (world st);
                  listens := listens (world st); detects := detects';
                  draws := draws (world st); writes := writes (world st);
                  jams := jams (world st);
                  port_out := port_out (world st); sleeps := sleeps (world st);
                  attempts := attempts (world st) |} in
      match transmit_next fuel md frame w with
      | Some (success, w') =>
          send_frames fuel md frames'
            {| world := w';
               total_bytes_sent :=
                 if success then total_bytes_sent st + len frame else total_bytes_sent st;
               collision_occurrences := occurrences |}
      | None => None
      end
  end.

(** send_data_1 from the UTF-8 bytes of the stripped text on. *)
Definition send_data_1 (fuel : nat) (md : medium) (data_bytes : list Z) (port_num : Z)
  : option send_state :=
  send_frames fuel md (Lab4F.prepare_data data_bytes port_num)
    {| world := initial; total_bytes_sent := 0; collision_occurrences := 0 |}.

End Lab4S.

(** ** Specification-side definitions used in the statements *)

(** The reserved bytes. *)
Definition reserved (b : Z) : Prop := b = 64 \/ b = 105 \/ b = 27.

(** Destuffing as a recursion on the remaining input. *)
Fixpoint destuff (raw : list Z) : list Z :=
  match raw with
  | [] => []
  | a :: rest =>
      match rest with
      | [] => [a]
      | b :: rest' =>
          match UNSTUFF_MAP !! [a; b] with
          | Some original => original ++ destuff rest'
          | None => a :: destuff rest
          end
      end
  end.

(** A bit is the integer 0 or 1. *)
Definition is_bit (b : Z) : Prop := b = 0 \/ b = 1.

(** XOR of all elements of a list. *)
Definition xor_sum (l : list Z) : Z := foldr Z.lxor 0 l.

(** The test the code uses for "position [pos] holds a parity bit". *)
Definition parity_position (pos : Z) : Prop := Z.land pos (pos - 1) = 0.

#[global] Instance parity_position_dec pos : Decision (parity_position pos).
Proof. unfold parity_position. apply _. Defined.

(** Index [i] holds a data bit: position [i + 1] fails the parity test. *)
Definition data_index (i : Z) : Prop := ~ parity_position (i + 1).

#[global] Instance data_index_dec i : Decision (data_index i).
Proof. unfold data_index. apply _. Defined.

(** The body of the placing loop at a data index. *)
Definition place_step (data : list Z) (st : list Z * Z) (i : Z) : list Z * Z :=
  if st.2 <? len data
  then (setitem st.1 i (getitem data st.2), st.2 + 1)
  else st.

(** The parity equation of bit [k]: XOR of the bits whose position has
    bit [k] set. *)
Definition parity_check (k : Z) (code : list Z) (n : Z) : Z :=
  xor_sum ((fun i => if Z.testbit (i + 1) k then getitem code i else 0) <$> seqZ 0 n).

(** Length of the codeword of [d], and the bit the encoder writes last. *)
Definition code_length (d : list Z) : Z := len d + standard_parity_bits_of (len d) + 1.

Definition overall_parity_bit (d : list Z) : Z :=
  getitem (Lab3.hamming_encode d) (code_length d - 1).

(** A list with the bit at index [i] inverted. *)
Definition flip_at (i : nat) (bits : list Z) : list Z :=
  <[i := Z.lxor (bits !!! i) 1]> bits.

(** What holds between rounds of the loop of transmit_with_csma_cd:
    every attempt so far failed and raised [retry_count] by one; the
    collisions are the attempts that collided. *)
Definition between_rounds (st : CSMACD.tx_state) : Prop :=
  CSMACD.retry_count st = len (CSMACD.attempts st) /\
  (CSMACD.Completed ∉ CSMACD.attempts st) /\
  CSMACD.collision_count st = len (filter (eq CSMACD.Collided) (CSMACD.attempts st)).

(** What holds when it returns [res] for the frame [data]. *)
Definition on_return (data : list Z) (res : bool) (st : CSMACD.tx_state) : Prop :=
  (length (CSMACD.attempts st) <= 16)%nat /\
  (res = true <-> CSMACD.Completed ∈ CSMACD.attempts st) /\
  (res = false -> length (CSMACD.attempts st) = 16%nat /\ CSMACD.retry_count st = 16) /\
  (res = true -> exists out, CSMACD.port_out st = out ++ data) /\
  CSMACD.collision_count st = len (filter (eq CSMACD.Collided) (CSMACD.attempts st)).

(** A medium on which carrier sense always answers busy. *)
Definition always_busy : CSMACD.medium :=
  {| CSMACD.listen_channel := fun _ => true;
     CSMACD.detect_collision := fun _ => false;
     CSMACD.randint := fun _ a _ => a;
     CSMACD.write_raises := fun _ => false;
     CSMACD.jam_written := fun _ => 4%nat |}.

(** A clear medium on which every byte collides. *)
Definition always_colliding : CSMACD.medium :=
  {| CSMACD.listen_channel := fun _ => false;
     CSMACD.detect_collision := fun _ => true;
     CSMACD.randint := fun _ _ b => b;
     CSMACD.write_raises := fun _ => false;
     CSMACD.jam_written := fun _ => 4%nat |}.

(** A draw of [random.random()] that selects no corruption (0.70). *)
Definition no_corruption : Lab3F.corruption_source :=
  {| Lab3F.rand_val := (70 # 100)%Q; Lab3F.index_draws := [] |}.

(** The UTF-8 bytes of the text HelloWorld, a payload of exactly
    [DATA_LENGTH] bytes. *)
Definition hello_world : list Z := [72; 101; 108; 108; 111; 87; 111; 114; 108; 100].

(** ** Definitions used in the further properties *)

#[global] Instance reserved_dec b : Decision (reserved b).
Proof. unfold reserved. apply _. Defined.

(** A chunk as prepare_data pads it. *)
Definition zero_padded (chunk : list Z) : list Z :=
  if len chunk <? DATA_LENGTH
  then chunk ++ replicate (Z.to_nat (DATA_LENGTH - len chunk)) 0
  else chunk.

(** The chunks prepare_data cuts the data into. *)
Definition chunks_of (data : list Z) : list (list Z) :=
  (fun i => slice data i (i + DATA_LENGTH)) <$> range_step (len data) DATA_LENGTH.

(** One round of SerialWorker.run of 4_LAB wired to on_data_received_1. *)
Definition worker_step_lab4 (st : option (list Z * list Lab4F.delivery)) (byte : Z)
  : option (list Z * list Lab4F.delivery) :=
  match st with
  | Some (rx_buffer, delivered) =>
      if byte =? 255 then Some (rx_buffer, delivered)
      else
        match Lab4F.on_data_received_1 rx_buffer [byte] with
        | Some (rx_buffer, delivered') => Some (rx_buffer, delivered ++ delivered')
        | None => None
        end
  | None => None
  end.

(** One round of SerialWorker.run of 3_LAB wired to on_data_received_1. *)
Definition worker_step_lab3 (st : option (list Z * list Lab3F.delivery)) (byte : Z)
  : option (list Z * list Lab3F.delivery) :=
  match st with
  | Some (rx_buffer, delivered) =>
      match Lab3F.on_data_received_1 rx_buffer [byte] with
      | Some (rx_buffer, delivered') => Some (rx_buffer, delivered ++ delivered')
      | None => None
      end
  | None => None
  end.

(** A payload that crosses the line intact when read byte by byte: ten
    bytes, no jam byte among them, the last one not reserved. *)
Definition crosses_bytewise (p : list Z) : Prop :=
  len p = DATA_LENGTH /\ (255 ∉ p) /\ exists z, last p = Some z /\ ~ reserved z.

(** What holds of the receive buffer between two calls of the handler
    when the bytes come in one at a time. *)
Definition buffer_in_bounds (buf : list Z) : Prop :=
  (bytes_find buf FLAG = -1 /\ len buf <= 100) \/
  (0 <= bytes_find buf FLAG <= 99 /\ len buf - bytes_find buf FLAG <= 4 + 2 * (DATA_LENGTH - 1)).

(** A byte value. *)
Definition is_byte (b : Z) : Prop := 0 <= b < 256.

(** The eight bits of a byte, most significant first. *)
Definition byte_bits (byte : Z) : list Z :=
  (fun i => Z.land (Z.shiftr byte i) 1) <$> [7; 6; 5; 4; 3; 2; 1; 0].

(** The byte bits_to_bytes packs from the bits at [i .. i + 7]. *)
Definition pack_byte (bits : list Z) (i : Z) : Z :=
  foldl (fun byte_val j =>
           if i + j <? len bits
           then Z.lor byte_val (Z.shiftl (getitem bits (i + j)) (7 - j))
           else byte_val)
        0 (range 0 (Z.min 8 (len bits - i))).

(** A pair [(randint(0, len(data) - 1), randint(0, 7))]. *)
Definition draw_in_range (data : list Z) (d : Z * Z) : Prop :=
  0 <= d.1 < len data /\ 0 <= d.2 <= 7.

(** The draws hold a first pair and, later, a pair that differs from it. *)
Definition enough_draws (draws : list (Z * Z)) : Prop :=
  match draws with
  | [] => False
  | d :: rest => exists d', d' ∈ rest /\ d' <> d
  end.

(** A draw of [random.random()] that selects the double corruption
    (0.50), with a repeated first pair of indices. *)
Definition double_corruption : Lab3F.corruption_source :=
  {| Lab3F.rand_val := (50 # 100)%Q; Lab3F.index_draws := [(0, 3); (0, 3); (2, 7)] |}.

(** The jam bytes an attempt with outcome [o] puts on the port after
    the bytes it sent, when [k] calls of send_jam_signal came before it,
    and the number of such calls after it. *)
Definition jam_at (md : CSMACD.medium) (k : nat) (o : CSMACD.attempt_outcome) : list Z :=
  match o with
  | CSMACD.Collided => CSMACD.send_jam_signal md k
  | _ => []
  end.

Definition jams_after (k : nat) (o : CSMACD.attempt_outcome) : nat :=
  match o with
  | CSMACD.Collided => S k
  | _ => k
  end.

(** The jam bytes of a run of attempts, one list for each attempt. *)
Fixpoint jams_of (md : CSMACD.medium) (k : nat) (os : list CSMACD.attempt_outcome) : list (list Z) :=
  match os with
  | [] => []
  | o :: os' => jam_at md k o :: jams_of md (jams_after k o) os'
  end.

(** What an attempt with outcome [o] that sent the bytes [p] of the
    frame [data] looks like: all of the frame when it completed, a
    shorter prefix otherwise. *)
Definition attempt_sent (data : list Z) (p : list Z) (o : CSMACD.attempt_outcome) : Prop :=
  p `prefix_of` data /\
  (o = CSMACD.Completed -> p = data) /\
  (o <> CSMACD.Completed -> (length p < length data)%nat).

(** The bytes on the port after the attempts [os] that sent [ps], the
    first of them after [k] calls of send_jam_signal: what each attempt
    sent, followed by its jam bytes. *)
Definition wire_from (md : CSMACD.medium) (k : nat) (ps : list (list Z))
    (os : list CSMACD.attempt_outcome) : list Z :=
  concat (zip_with app ps (jams_of md k os)).

Definition wire (md : CSMACD.medium) (ps : list (list Z)) (os : list CSMACD.attempt_outcome)
  : list Z :=
  wire_from md 0 ps os.

(** The invariant of the loop of transmit_with_csma_cd. *)
Definition wire_invariant (md : CSMACD.medium) (data : list Z) (st : CSMACD.tx_state) : Prop :=
  exists ps, Forall2 (attempt_sent data) ps (CSMACD.attempts st) /\
             CSMACD.port_out st = wire md ps (CSMACD.attempts st) /\
             CSMACD.jams st = foldl jams_after 0%nat (CSMACD.attempts st).

(** A medium that is always clear and never collides. *)
Definition always_clear : CSMACD.medium :=
  {| CSMACD.listen_channel := fun _ => false;
     CSMACD.detect_collision := fun _ => false;
     CSMACD.randint := fun _ a _ => a;
     CSMACD.write_raises := fun _ => false;
     CSMACD.jam_written := fun _ => 4%nat |}.

(** A medium that is sensed clear and never collides or fails. *)
Definition clear_medium (md : CSMACD.medium) : Prop :=
  forall k, CSMACD.listen_channel md k = false /\
            CSMACD.detect_collision md k = false /\
            CSMACD.write_raises md k = false.



(** A list of literal bits. *)
Ltac all_bits := repeat (apply Forall_cons_2; [unfold is_bit; lia|]); apply Forall_nil_2.

(** * Properties *)

(** ** The parameter loop *)

Lemma pow2_ge_double r : 1 <= r -> 2 * r <= 2 ^ r.
Proof.
  intros Hr. replace r with (r - 1 + 1) at 2 by lia.
  rewrite Z.pow_add_r by lia. change (2 ^ 1) with 2.
  assert (r - 1 < 2 ^ (r - 1)) by (apply Z.pow_gt_lin_r; lia). lia.
Qed.

(** The loop leaves by its test, not by running out of fuel: on return
    the test is false, and it was true one step earlier. *)
Lemma parity_loop_exit fuel m r :
  0 <= r -> 0 <= m -> (Z.to_nat (m + 2 - r) <= fuel)%nat ->
  let r' := parity_loop fuel m r in
  r <= r' /\ m + r' + 1 <= 2 ^ r' /\ (r < r' -> 2 ^ (r' - 1) < m + r').
Proof.
  revert r. induction fuel as [|fuel IH]; intros r Hr Hm Hfuel; simpl.
  - pose proof (pow2_ge_double r). lia.
  - destruct (2 ^ r <? m + r + 1) eqn:Hlt.
    + apply Z.ltb_lt in Hlt.
      assert (r < m + 2).
      { destruct (decide (r = 0)) as [->|]; [lia|]. pose proof (pow2_ge_double r). lia. }
      destruct (IH (r + 1)) as (H1 & H2 & H3); [lia | lia | lia |].
      split; [lia|]. split; [done|]. intros _.
      destruct (decide (r + 1 < parity_loop fuel m (r + 1))) as [Hlt'|Hge].
      * by apply H3.
      * assert (parity_loop fuel m (r + 1) = r + 1) as -> by lia.
        replace (r + 1 - 1) with r by lia. lia.
    + apply Z.ltb_ge in Hlt. lia.
Qed.

Lemma standard_parity_bits_spec m :
  0 <= m ->
  let r := standard_parity_bits_of m in
  0 <= r /\ m + r + 1 <= 2 ^ r /\ (0 < r -> 2 ^ (r - 1) < m + r).
Proof.
  intros Hm. apply (parity_loop_exit (Z.to_nat m + 2) m 0); lia.
Qed.

(** More fuel does not change the result. *)
Lemma parity_loop_fuel fuel k m r :
  0 <= r -> 0 <= m -> (Z.to_nat (m + 2 - r) <= fuel)%nat ->
  parity_loop (fuel + k) m r = parity_loop fuel m r.
Proof.
  revert r. induction fuel as [|fuel IH]; intros r Hr Hm Hfuel; simpl.
  - destruct k as [|k]; simpl; [done|].
    destruct (2 ^ r <? m + r + 1) eqn:Hlt; [|done].
    apply Z.ltb_lt in Hlt. pose proof (pow2_ge_double r). lia.
  - destruct (2 ^ r <? m + r + 1) eqn:Hlt; [|done].
    apply Z.ltb_lt in Hlt. apply IH; [lia | lia |].
    destruct (decide (r = 0)) as [->|]; [lia|]. pose proof (pow2_ge_double r). lia.
Qed.

(** ** Byte stuffing *)

Lemma STUFF_MAP_lookup b :
  STUFF_MAP !! [b] = if decide (reserved b) then Some [27; b] else None.
Proof.
  unfold STUFF_MAP, ESC, FLAG_START, reserved. change FLAG_END with [105].
  rewrite !lookup_insert, lookup_empty.
  repeat case_decide; simplify_eq; simpl in *; try done; exfalso; intuition congruence.
Qed.

Lemma UNSTUFF_MAP_unfold :
  UNSTUFF_MAP = <[[27; 27] := [27]]> (<[[27; 105] := [105]]> (<[[27; 64] := [64]]> ∅)).
Proof. vm_compute. reflexivity. Qed.

Lemma UNSTUFF_MAP_lookup a b :
  UNSTUFF_MAP !! [a; b] = if decide (a = 27 /\ reserved b) then Some [b] else None.
Proof.
  rewrite UNSTUFF_MAP_unfold. unfold reserved.
  rewrite !lookup_insert, lookup_empty.
  repeat case_decide; simplify_eq; simpl in *; try done; exfalso; intuition congruence.
Qed.

Lemma foldl_app_acc {A} (g : A -> list Z) (l : list A) (acc : list Z) :
  foldl (fun out x => out ++ g x) acc l = acc ++ foldl (fun out x => out ++ g x) [] l.
Proof.
  revert acc. induction l as [|x l IH]; intros acc; simpl.
  - by rewrite app_nil_r.
  - rewrite IH, (IH (g x)). by rewrite app_assoc.
Qed.

(** What one byte becomes in the stuffed output. *)
Lemma stuff_cons b data :
  stuff (b :: data) = (if decide (reserved b) then [27; b] else [b]) ++ stuff data.
Proof.
  unfold stuff.
  set (g := fun byte : Z => match STUFF_MAP !! [byte] with Some e => e | None => [byte] end).
  assert (Hg : forall l acc,
    foldl (fun stuffed byte =>
             let byte_val := [byte] in
             match STUFF_MAP !! byte_val with
             | Some escaped => stuffed ++ escaped
             | None => stuffed ++ byte_val
             end) acc l = foldl (fun out x => out ++ g x) acc l).
  { induction l as [|x l IH]; intros acc; simpl; [done|].
    rewrite IH. unfold g. by destruct (STUFF_MAP !! [x]). }
  rewrite !Hg. simpl. rewrite foldl_app_acc. f_equal.
  unfold g. rewrite STUFF_MAP_lookup. by case_decide.
Qed.

Lemma stuff_nil : stuff [] = [].
Proof. reflexivity. Qed.

Lemma stuff_app x y : stuff (x ++ y) = stuff x ++ stuff y.
Proof.
  induction x as [|b x IH]; simpl; [done|].
  by rewrite !stuff_cons, IH, app_assoc.
Qed.

Lemma slice_at {A} (pre : list A) (a b : A) (rest : list A) :
  slice (pre ++ a :: b :: rest) (len pre) (len pre + 2) = [a; b].
Proof.
  unfold slice, len.
  replace (Z.to_nat (Z.of_nat (length pre) + 2) - Z.to_nat (Z.of_nat (length pre)))%nat
    with 2%nat by lia.
  rewrite Nat2Z.id, drop_app_length. reflexivity.
Qed.

Lemma getitem_at (pre : list Z) (a : Z) (rest : list Z) :
  getitem (pre ++ a :: rest) (len pre) = a.
Proof.
  unfold getitem, len. rewrite Nat2Z.id.
  rewrite list_lookup_total_middle; done.
Qed.

(** The index loop computes [destuff] of what lies at and after the
    index; any fuel of at least the remaining length gives that result. *)
Lemma unstuff_loop_spec fuel pre suf unstuffed :
  (length suf <= fuel)%nat ->
  unstuff_loop fuel (pre ++ suf) (len pre) unstuffed = unstuffed ++ destuff suf.
Proof.
  revert pre suf unstuffed.
  induction fuel as [|fuel IH]; intros pre suf unstuffed Hfuel.
  - destruct suf; simpl in *; [by rewrite app_nil_r | lia].
  - cbn [unstuff_loop].
    destruct suf as [|a [|b rest]].
    + rewrite app_nil_r, Z.ltb_irrefl. by rewrite app_nil_r.
    + assert ((len pre <? len (pre ++ [a])) = true) as ->.
      { apply Z.ltb_lt. unfold len. rewrite length_app. simpl. lia. }
      assert ((len pre + 1 <? len (pre ++ [a])) = false) as ->.
      { apply Z.ltb_ge. unfold len. rewrite length_app. simpl. lia. }
      rewrite getitem_at.
      replace (len pre + 1) with (len (pre ++ [a])) by (unfold len; rewrite length_app; simpl; lia).
      rewrite <- (app_nil_r (pre ++ [a])) at 1.
      rewrite IH by (simpl; lia). simpl. by rewrite app_nil_r.
    + assert ((len pre <? len (pre ++ a :: b :: rest)) = true) as ->.
      { apply Z.ltb_lt. unfold len. rewrite length_app. simpl. lia. }
      assert ((len pre + 1 <? len (pre ++ a :: b :: rest)) = true) as ->.
      { apply Z.ltb_lt. unfold len. rewrite length_app. simpl. lia. }
      rewrite slice_at, getitem_at. cbn [destuff].
      destruct (UNSTUFF_MAP !! [a; b]) as [original|].
      * replace (len pre + 2) with (len (pre ++ [a; b])) by (unfold len; rewrite length_app; simpl; lia).
        replace (pre ++ a :: b :: rest) with ((pre ++ [a; b]) ++ rest) by (by rewrite <- app_assoc).
        rewrite IH by (simpl in *; lia). by rewrite app_assoc.
      * replace (len pre + 1) with (len (pre ++ [a])) by (unfold len; rewrite length_app; simpl; lia).
        replace (pre ++ a :: b :: rest) with ((pre ++ [a]) ++ b :: rest) by (by rewrite <- app_assoc).
        rewrite IH by (simpl in *; lia). by rewrite <- app_assoc.
Qed.

Lemma unstuff_destuff raw : unstuff raw = destuff raw.
Proof. unfold unstuff. apply (unstuff_loop_spec (length raw) [] raw []). done. Qed.

(** The loop has left by its test when the fuel of [unstuff] is used up. *)
Lemma unstuff_fuel k raw : unstuff_loop (length raw + k) raw 0 [] = unstuff raw.
Proof.
  rewrite unstuff_destuff. apply (unstuff_loop_spec (length raw + k) [] raw []). lia.
Qed.

Lemma destuff_cons_plain a rest : a <> 27 -> destuff (a :: rest) = a :: destuff rest.
Proof.
  intros Ha. destruct rest as [|b rest]; [done|].
  cbn [destuff]. rewrite UNSTUFF_MAP_lookup.
  rewrite decide_False; [done|]. by intros [? _].
Qed.

Lemma destuff_cons_escaped b rest : reserved b -> destuff (27 :: b :: rest) = b :: destuff rest.
Proof.
  intros Hb. cbn [destuff]. rewrite UNSTUFF_MAP_lookup.
  by rewrite decide_True.
Qed.

Lemma destuff_stuff x : destuff (stuff x) = x.
Proof.
  induction x as [|b x IH]; [done|].
  rewrite stuff_cons. case_decide as Hres; cbn [app].
  - by rewrite destuff_cons_escaped, IH.
  - rewrite destuff_cons_plain, IH; [done|].
    intros ->. apply Hres. unfold reserved. auto.
Qed.

(** C5. For every byte sequence [x], unstuffing (the loop of
    on_data_received_1) the result of stuffing [x] (the loop of
    prepare_data) returns [x] unchanged. *)
Theorem unstuff_stuff (x : list Z) : unstuff (stuff x) = x.
Proof. rewrite unstuff_destuff. apply destuff_stuff. Qed.

(** ** Length of the stuffed region *)

Lemma stuff_reserved_byte b : reserved b -> stuff [b] = [27; b].
Proof. intros Hb. rewrite stuff_cons, stuff_nil. by rewrite decide_True. Qed.

Lemma stuff_plain_byte b : ~ reserved b -> stuff [b] = [b].
Proof. intros Hb. rewrite stuff_cons, stuff_nil. by rewrite decide_False. Qed.

(** C9, as stated, fails: the payload ['@'; 0; ...; 0] and the payload
    ['A'; 0; ...; 0] differ only in the first byte, and the stuffed
    regions prepare_data builds for them have 11 and 10 bytes in 4_LAB,
    and 12 and 11 bytes (with the FCS byte) in 3_LAB: one byte more, not
    two. *)
Lemma stuffed_flag_start_not_two_longer :
  let with_flag := 64 :: replicate 9 0 in
  let without := 65 :: replicate 9 0 in
  len (stuff with_flag) = 11 /\ len (stuff without) = 10 /\
  len (stuff with_flag) <> len (stuff without) + 2 /\
  len (stuff (with_flag ++ Lab3F.calculate_fcs with_flag)) = 12 /\
  len (stuff (without ++ Lab3F.calculate_fcs without)) = 11.
Proof. vm_compute. repeat split; discriminate. Qed.

(** C9, amended.  Two payloads that are identical except that one holds
    the flag-start byte where the other holds a byte that is not
    reserved: the stuffed payload of the first is exactly one byte
    longer.  In 3_LAB the stuffed region also covers the FCS field, and
    the same holds for the region once the stuffed lengths of the two FCS
    fields are set aside. *)
Theorem stuffed_flag_start_one_longer (pre post : list Z) (b : Z) (fcs1 fcs2 : list Z) :
  STUFF_MAP !! [b] = None ->
  len (stuff (pre ++ FLAG_START ++ post)) = len (stuff (pre ++ [b] ++ post)) + 1 /\
  len (stuff ((pre ++ FLAG_START ++ post) ++ fcs1)) - len (stuff fcs1)
    = len (stuff ((pre ++ [b] ++ post) ++ fcs2)) - len (stuff fcs2) + 1.
Proof.
  intros Hb. rewrite STUFF_MAP_lookup in Hb.
  assert (Hplain : ~ reserved b) by (by case_decide).
  assert (Hflag : reserved 64) by (unfold reserved; auto).
  unfold FLAG_START. rewrite !stuff_app.
  rewrite (stuff_reserved_byte 64 Hflag), (stuff_plain_byte b Hplain).
  unfold len. rewrite !length_app. simpl. lia.
Qed.

Lemma stuffed_flag_start_one_longer_witness :
  len (stuff ([72] ++ FLAG_START ++ [105; 0]))
    = len (stuff ([72] ++ [65] ++ [105; 0])) + 1 /\
  len (stuff (([72] ++ FLAG_START ++ [105; 0]) ++ [27])) - len (stuff [27])
    = len (stuff (([72] ++ [65] ++ [105; 0]) ++ [3])) - len (stuff [3]) + 1.
Proof. apply (stuffed_flag_start_one_longer [72] [105; 0] 65 [27] [3]). reflexivity. Defined.

(** ** Backoff *)

Lemma contention_window_range k :
  7 <= Z.max CSMACD.cw_min (Z.min (2 ^ k - 1) CSMACD.cw_max) <= 1023.
Proof. unfold CSMACD.cw_min, CSMACD.cw_max. lia. Qed.

(** C8. For every collision count [>= 0] and every value the draw can
    return, generate_backoff_time is [random_slots * 5] with
    [random_slots] in [0, cw], where
    [cw = max(7, min(2^min(collision_count, 10) - 1, 1023))]; the delay
    lies in [0, 1023 * 5], and [cw] does not decrease when the collision
    count grows. *)
Theorem generate_backoff_time_spec (randint : Z -> Z -> Z) (collision_count : Z) :
  (forall a b, a <= b -> a <= randint a b <= b) ->
  0 <= collision_count ->
  let cw := fun c => Z.max 7 (Z.min (2 ^ Z.min c 10 - 1) 1023) in
  (exists random_slots,
      0 <= random_slots <= cw collision_count /\
      random_slots = randint 0 (cw collision_count) /\
      CSMACD.generate_backoff_time randint collision_count = random_slots * 5) /\
  0 <= CSMACD.generate_backoff_time randint collision_count <= 1023 * 5 /\
  (forall c', collision_count <= c' -> cw collision_count <= cw c').
Proof.
  intros Hrand Hc cw.
  assert (Hcw : forall c, 7 <= cw c <= 1023) by (intros c; unfold cw; lia).
  assert (Hdraw : 0 <= randint 0 (cw collision_count) <= cw collision_count).
  { apply Hrand. specialize (Hcw collision_count). lia. }
  split; [|split].
  - exists (randint 0 (cw collision_count)). done.
  - unfold CSMACD.generate_backoff_time, CSMACD.max_backoff_exp, CSMACD.cw_min, CSMACD.cw_max.
    fold (cw collision_count). specialize (Hcw collision_count). lia.
  - intros c' Hle. unfold cw.
    assert (2 ^ Z.min collision_count 10 <= 2 ^ Z.min c' 10) by (apply Z.pow_le_mono_r; lia).
    lia.
Qed.

Lemma generate_backoff_time_spec_witness :
  let cw := fun c => Z.max 7 (Z.min (2 ^ Z.min c 10 - 1) 1023) in
  (exists random_slots,
      0 <= random_slots <= cw 5 /\
      random_slots = Z.max 0 (cw 5) /\
      CSMACD.generate_backoff_time Z.max 5 = random_slots * 5) /\
  0 <= CSMACD.generate_backoff_time Z.max 5 <= 1023 * 5 /\
  (forall c', 5 <= c' -> cw 5 <= cw c').
Proof. apply (generate_backoff_time_spec Z.max 5); [intros a b Hab; lia | lia]. Defined.

(** ** CSMA/CD transmission *)

(** One attempt: what the byte loop changes, by the way it ends. *)
Lemma send_bytes_spec (md : CSMACD.medium) (data : list Z) (st : CSMACD.tx_state) :
  let st' := (CSMACD.send_bytes md data st).1 in
  CSMACD.listens st' = CSMACD.listens st /\
  CSMACD.attempts st' = CSMACD.attempts st /\
  match (CSMACD.send_bytes md data st).2 with
  | CSMACD.Completed =>
      CSMACD.retry_count st' = CSMACD.retry_count st /\
      CSMACD.collision_count st' = CSMACD.collision_count st /\
      CSMACD.port_out st' = CSMACD.port_out st ++ data
  | CSMACD.Collided =>
      CSMACD.retry_count st' = CSMACD.retry_count st + 1 /\
      CSMACD.collision_count st' = CSMACD.collision_count st + 1
  | CSMACD.Raised =>
      CSMACD.retry_count st' = CSMACD.retry_count st + 1 /\
      CSMACD.collision_count st' = CSMACD.collision_count st
  end.
Proof.
  revert st. induction data as [|byte data' IH]; intros st.
  - simpl. by rewrite app_nil_r.
  - cbn [CSMACD.send_bytes].
    destruct (CSMACD.detect_collision md (CSMACD.detects st)); [done|].
    destruct (CSMACD.write_raises md (CSMACD.writes st)); [done|].
    match goal with |- context [CSMACD.send_bytes md data' ?s] => specialize (IH s) end.
    destruct IH as (IH1 & IH2 & IH3). cbn [CSMACD.listens CSMACD.attempts] in IH1, IH2.
    cbv zeta. split; [done|]. split; [done|].
    destruct (CSMACD.send_bytes md data' _).2; cbn in IH3; [|done..].
    destruct IH3 as (? & ? & ->). by rewrite <- app_assoc.
Qed.

Section Transmit.
Import CSMACD.

Variable md : medium.
Variable data : list Z.

Lemma transmit_loop_more fuel k st r :
  transmit_loop fuel md data st = Some r -> transmit_loop (fuel + k) md data st = Some r.
Proof.
  revert st. induction fuel as [|fuel IH]; intros st; [done|].
  cbn [transmit_loop Nat.add].
  destruct (retry_count st <? max_retries); [|done].
  destruct (listen_channel md (listens st)); [apply IH|].
  destruct (send_bytes md data _) as [st' []]; [done | apply IH..].
Qed.

(** Rounds in which the channel is busy leave everything but the sense
    counter and the sleeps as it was. *)
Lemma skip_busy j st :
  listen_channel md (listens st + j) = false ->
  retry_count st < max_retries ->
  exists j' st',
    (j' <= j)%nat /\
    listen_channel md (listens st') = false /\
    retry_count st' = retry_count st /\
    collision_count st' = collision_count st /\
    attempts st' = attempts st /\
    forall fuel, transmit_loop (j' + fuel) md data st = transmit_loop fuel md data st'.
Proof.
  revert st. induction j as [|j IH]; intros st Hclear Hretry.
  - exists 0%nat, st. rewrite Nat.add_0_r in Hclear. done.
  - destruct (listen_channel md (listens st)) eqn:Hbusy.
    + destruct (IH (after_listen true st)) as (j' & st' & Hj & H1 & H2 & H3 & H4 & H5).
      { cbn [listens after_listen]. by replace (S (listens st) + j)%nat with (listens st + S j)%nat by lia. }
      { done. }
      exists (S j'), st'. split; [lia|]. split; [done|]. split; [done|]. split; [done|].
      split; [done|]. intros fuel. cbn [transmit_loop Nat.add].
      apply Z.ltb_lt in Hretry. rewrite Hretry, Hbusy. apply H5.
    + exists 0%nat, st. split; [lia|]. done.
Qed.

Variable B : nat.
Hypothesis busy_runs_bounded :
  forall k, exists j, (j <= B)%nat /\ listen_channel md (k + j) = false.

Lemma transmit_loop_returns a st :
  between_rounds st ->
  retry_count st = max_retries - Z.of_nat a ->
  exists fuel res st',
    (fuel <= a * (B + 1) + 1)%nat /\
    transmit_loop fuel md data st = Some (res, st') /\
    on_return data res st'.
Proof.
  revert st. induction a as [|a IH]; intros st (Hr & Hnc & Hcc) Hretry.
  - exists 1%nat, false, st. split; [lia|]. cbn [transmit_loop].
    assert ((retry_count st <? max_retries) = false) as -> by (apply Z.ltb_ge; lia).
    split; [done|]. unfold on_return, max_retries, len in *.
    split; [lia|]. split; [split; [done | intros ?; by exfalso]|].
    split; [intros _; lia|]. split; [done|]. done.
  - assert (Hlt : retry_count st < max_retries) by lia.
    destruct (busy_runs_bounded (listens st)) as (j & Hj & Hclear).
    destruct (skip_busy j st Hclear Hlt) as (j' & st1 & Hj' & Hclear1 & E1 & E2 & E3 & Hrun).
    set (st2 := after_listen false st1).
    pose proof (send_bytes_spec md data st2) as Hspec. cbv zeta in Hspec.
    destruct (send_bytes md data st2) as [st3 o] eqn:Hsend. cbn [fst snd] in Hspec.
    destruct Hspec as (S1 & S2 & S3).
    assert (Hstep : forall fuel, transmit_loop (S fuel) md data st1 =
      match o with
      | Completed => Some (true, record_attempt o st3)
      | _ => transmit_loop fuel md data (record_attempt o st3)
      end).
    { intros fuel. cbn [transmit_loop].
      assert ((retry_count st1 <? max_retries) = true) as -> by (apply Z.ltb_lt; lia).
      rewrite Hclear1. fold st2. rewrite Hsend. by destruct o. }
    assert (Hatt : attempts (record_attempt o st3) = attempts st ++ [o]).
    { cbn [attempts record_attempt]. rewrite S2. subst st2. cbn [attempts after_listen]. by rewrite E3. }
    assert (Hrc2 : retry_count st2 = retry_count st) by (subst st2; done).
    assert (Hcc2 : collision_count st2 = collision_count st) by (subst st2; done).
    destruct o.
    + exists (j' + 1)%nat, true, (record_attempt Completed st3).
      split; [lia|]. split; [by rewrite Hrun, Hstep|].
      destruct S3 as (R1 & R2 & R3).
      unfold on_return. rewrite Hatt. cbn [port_out collision_count record_attempt].
      unfold max_retries, len in *. rewrite length_app. simpl.
      split; [lia|]. split; [split; [intros _; apply elem_of_app; right; by apply list_elem_of_singleton | done]|].
      split; [done|]. split; [intros _; by eexists|].
      rewrite filter_app, length_app. simpl.
      lia.
    + destruct (IH (record_attempt Collided st3)) as (fuel & res & st' & Hf & Hrun' & Hpost).
      { destruct S3 as (R1 & R2). unfold between_rounds. rewrite Hatt.
        cbn [retry_count collision_count record_attempt]. unfold len in *.
        rewrite filter_app, !length_app. simpl.
        split; [lia|]. split; [|lia].
        intros [?|?%list_elem_of_singleton]%elem_of_app; done. }
      { destruct S3 as (R1 & R2). cbn [retry_count record_attempt]. lia. }
      exists (j' + S fuel)%nat, res, st'. split; [nia|]. split; [|done].
      by rewrite Hrun, Hstep.
    + destruct (IH (record_attempt Raised st3)) as (fuel & res & st' & Hf & Hrun' & Hpost).
      { destruct S3 as (R1 & R2). unfold between_rounds. rewrite Hatt.
        cbn [retry_count collision_count record_attempt]. unfold len in *.
        rewrite filter_app, !length_app. simpl.
        split; [lia|]. split; [|lia].
        intros [?|?%list_elem_of_singleton]%elem_of_app; done. }
      { destruct S3 as (R1 & R2). cbn [retry_count record_attempt]. lia. }
      exists (j' + S fuel)%nat, res, st'. split; [nia|]. split; [|done].
      by rewrite Hrun, Hstep.
Qed.

End Transmit.

(** C7, as stated, fails on termination: on a medium whose carrier sense
    answers busy every time, the loop senses again without counting an
    attempt, and no amount of fuel makes it return. *)
Lemma transmit_never_returns_when_always_busy :
  ~ exists fuel res st,
      CSMACD.transmit_with_csma_cd fuel always_busy [1; 2; 3] = Some (res, st).
Proof.
  intros (fuel & res & st & Hrun). unfold CSMACD.transmit_with_csma_cd in Hrun.
  assert (Hnone : forall st0, CSMACD.retry_count st0 = 0 ->
            CSMACD.transmit_loop fuel always_busy [1; 2; 3] st0 = None).
  { clear. induction fuel as [|fuel IH]; intros st0 H0; [done|].
    cbn [CSMACD.transmit_loop]. rewrite H0. simpl. by apply IH. }
  by rewrite Hnone in Hrun.
Qed.

(** C7, amended.  On every medium on which carrier sense answers busy at
    most [B] times in a row, for every frame, transmit_with_csma_cd
    returns (within [16 * (B + 1) + 1] rounds of its loop), having made
    at most 16 attempts; it returns success exactly when an attempt sent
    all bytes (and then the frame is the last thing written to the
    port), and failure only after exactly 16 attempts; so when every
    attempt is a collision it returns failure after exactly 16 attempts
    and 16 collisions. *)
Theorem transmit_with_csma_cd_returns (md : CSMACD.medium) (data : list Z) (B : nat) :
  (forall k, exists j, (j <= B)%nat /\ CSMACD.listen_channel md (k + j) = false) ->
  exists res st,
    CSMACD.transmit_with_csma_cd (16 * (B + 1) + 1) md data = Some (res, st) /\
    (length (CSMACD.attempts st) <= 16)%nat /\
    (res = true <-> CSMACD.Completed ∈ CSMACD.attempts st) /\
    (res = true -> exists out, CSMACD.port_out st = out ++ data) /\
    (res = false -> length (CSMACD.attempts st) = 16%nat) /\
    (Forall (eq CSMACD.Collided) (CSMACD.attempts st) ->
       res = false /\ length (CSMACD.attempts st) = 16%nat /\ CSMACD.collision_count st = 16).
Proof.
  intros Hbusy.
  destruct (transmit_loop_returns md data B Hbusy 16 CSMACD.initial)
    as (fuel & res & st & Hfuel & Hrun & Hlen & Hres & Hfail & Hout & Hcc).
  { unfold between_rounds. simpl. split; [done|]. split; [|done]. by intros ?%elem_of_nil. }
  { done. }
  exists res, st. split.
  { unfold CSMACD.transmit_with_csma_cd.
    replace (16 * (B + 1) + 1)%nat with (fuel + (16 * (B + 1) + 1 - fuel))%nat by lia.
    by apply transmit_loop_more. }
  split; [done|]. split; [done|]. split; [done|]. split; [intros Hf; by destruct (Hfail Hf)|].
  intros Hall.
  assert (res = false) as ->.
  { destruct res; [|done]. destruct Hres as [Hin _]. specialize (Hin eq_refl).
    rewrite Forall_forall in Hall. by specialize (Hall _ Hin). }
  destruct (Hfail eq_refl) as (H16 & _). split; [done|]. split; [done|].
  rewrite Hcc. unfold len.
  assert (filter (eq CSMACD.Collided) (CSMACD.attempts st) = CSMACD.attempts st) as ->; [|lia].
  clear -Hall. induction Hall as [|o l Ho _ IH]; [done|].
  rewrite filter_cons_True by done. by rewrite IH.
Qed.

Lemma transmit_with_csma_cd_returns_witness :
  exists res st,
    CSMACD.transmit_with_csma_cd (16 * (0 + 1) + 1) always_colliding [64; 105; 1; 0] = Some (res, st) /\
    (length (CSMACD.attempts st) <= 16)%nat /\
    (res = true <-> CSMACD.Completed ∈ CSMACD.attempts st) /\
    (res = true -> exists out, CSMACD.port_out st = out ++ [64; 105; 1; 0]) /\
    (res = false -> length (CSMACD.attempts st) = 16%nat) /\
    (Forall (eq CSMACD.Collided) (CSMACD.attempts st) ->
       res = false /\ length (CSMACD.attempts st) = 16%nat /\ CSMACD.collision_count st = 16).
Proof.
  apply (transmit_with_csma_cd_returns always_colliding [64; 105; 1; 0] 0).
  intros k. exists 0%nat. split; [lia | reflexivity].
Defined.

(** The scenario itself: every byte collides; failure after 16 attempts. *)
Lemma transmit_all_collisions :
  exists st,
    CSMACD.transmit_with_csma_cd 17 always_colliding [64; 105; 1; 0] = Some (false, st) /\
    CSMACD.attempts st = replicate 16 CSMACD.Collided /\
    CSMACD.retry_count st = 16 /\ CSMACD.collision_count st = 16.
Proof. eexists. vm_compute. repeat split. Qed.

(** * Hamming SEC-DED *)

(** ** Bits and XOR sums *)

Lemma land_shiftr_1 a i : 0 <= i -> Z.land (Z.shiftr a i) 1 = Z.b2z (Z.testbit a i).
Proof.
  intros Hi. change 1 with (Z.ones 1). rewrite Z.land_ones by lia.
  rewrite Z.shiftr_div_pow2 by lia. change (2 ^ 1) with 2.
  by rewrite Z.testbit_spec' by lia.
Qed.

Lemma bit_test a i : 0 <= i -> negb (Z.land (Z.shiftr a i) 1 =? 0) = Z.testbit a i.
Proof. intros Hi. rewrite land_shiftr_1 by done. by destruct (Z.testbit a i). Qed.

Lemma pow2_is_parity_position b : 0 <= b -> parity_position (2 ^ b).
Proof.
  intros Hb. unfold parity_position.
  replace (2 ^ b - 1) with (Z.ones b) by (rewrite Z.ones_equiv; lia).
  rewrite Z.land_ones by done. apply Z_mod_same_full.
Qed.

Lemma parity_position_is_pow2 x : 1 <= x -> parity_position x -> exists b, 0 <= b /\ x = 2 ^ b.
Proof.
  intros Hx Hland. unfold parity_position in Hland.
  destruct (Z.log2_spec x) as [Hlo Hhi]; [lia|].
  pose proof (Z.log2_nonneg x) as Hnn.
  exists (Z.log2 x). split; [done|].
  destruct (decide (x = 2 ^ Z.log2 x)) as [|Hne]; [done|]. exfalso.
  assert (Hlog : Z.log2 (x - 1) = Z.log2 x) by (apply Z.log2_unique; lia).
  assert (H1 : Z.testbit x (Z.log2 x) = true) by (apply Z.bit_log2; lia).
  assert (H2 : Z.testbit (x - 1) (Z.log2 x) = true).
  { rewrite <- Hlog. apply Z.bit_log2. lia. }
  assert (H3 : Z.testbit (Z.land x (x - 1)) (Z.log2 x) = true) by (by rewrite Z.land_spec, H1, H2).
  by rewrite Hland, Z.bits_0 in H3.
Qed.

Lemma count_parity_positions (k : nat) :
  Z.of_nat (length (filter parity_position (seqZ 1 (Z.of_nat k))))
  = if decide (k = 0%nat) then 0 else Z.log2 (Z.of_nat k) + 1.
Proof.
  induction k as [|k IH]; [done|].
  rewrite seqZ_S, filter_app, length_app, Nat2Z.inj_add, IH.
  destruct (decide (k = 0%nat)) as [->|Hk]; [done|].
  rewrite decide_False by done.
  replace (Z.of_nat (S k)) with (Z.succ (Z.of_nat k)) by lia.
  replace (1 + Z.of_nat k) with (Z.succ (Z.of_nat k)) by lia.
  destruct (decide (parity_position (Z.succ (Z.of_nat k)))) as [Hp|Hp].
  - rewrite filter_cons_True, filter_nil by done. simpl length.
    destruct (parity_position_is_pow2 (Z.succ (Z.of_nat k))) as (b & Hb & Hpow); [lia | done |].
    assert (Z.log2 (Z.succ (Z.of_nat k)) = Z.succ (Z.log2 (Z.of_nat k))) as ->; [|lia].
    apply Z.log2_eq_succ_iff_pow2; [lia|]. by exists b.
  - rewrite filter_cons_False, filter_nil by done. simpl length.
    destruct (Z.log2_succ_or (Z.of_nat k)) as [Hs|Hs]; [|lia].
    exfalso. apply Hp.
    destruct (Z.log2_eq_succ_is_pow2 (Z.of_nat k) Hs) as (b & Hb).
    rewrite Hb. apply pow2_is_parity_position.
    destruct (decide (0 <= b)); [done|]. rewrite Z.pow_neg_r in Hb by lia. lia.
Qed.

Lemma foldl_ext_in {A B} (f g : A -> B -> A) (a : A) (l : list B) :
  (forall a x, x ∈ l -> f a x = g a x) -> foldl f a l = foldl g a l.
Proof.
  revert a. induction l as [|x l IH]; intros a Hfg; [done|]. simpl.
  rewrite Hfg by (by left). apply IH. intros a' y Hy. apply Hfg. by right.
Qed.

Lemma xor_sum_cons x l : xor_sum (x :: l) = Z.lxor x (xor_sum l).
Proof. reflexivity. Qed.

Lemma xor_sum_nil : xor_sum [] = 0.
Proof. reflexivity. Qed.

Lemma foldl_lxor {A} (h : A -> Z) (a : Z) (l : list A) :
  foldl (fun acc x => Z.lxor acc (h x)) a l = Z.lxor a (xor_sum (h <$> l)).
Proof.
  revert a. induction l as [|x l IH]; intros a.
  - simpl. by rewrite Z.lxor_0_r.
  - rewrite fmap_cons, xor_sum_cons. simpl. by rewrite IH, Z.lxor_assoc.
Qed.

Lemma foldl_cond_lxor {A} (c : A -> bool) (v : A -> Z) (a : Z) (l : list A) :
  foldl (fun acc x => if c x then Z.lxor acc (v x) else acc) a l
  = Z.lxor a (xor_sum ((fun x => if c x then v x else 0) <$> l)).
Proof.
  rewrite <- foldl_lxor. apply foldl_ext_in. intros acc x _.
  destruct (c x); [done|]. by rewrite Z.lxor_0_r.
Qed.

Lemma xor_sum_app l k : xor_sum (l ++ k) = Z.lxor (xor_sum l) (xor_sum k).
Proof.
  induction l as [|x l IH]; [done|].
  rewrite <- app_comm_cons, !xor_sum_cons. by rewrite IH, Z.lxor_assoc.
Qed.

Lemma is_bit_lxor a b : is_bit a -> is_bit b -> is_bit (Z.lxor a b).
Proof. intros [->| ->] [->| ->]; unfold is_bit; simpl; auto. Qed.

Lemma xor_sum_bit l : Forall is_bit l -> is_bit (xor_sum l).
Proof.
  induction 1 as [|x l Hx _ IH]; [by left|]. rewrite xor_sum_cons. by apply is_bit_lxor.
Qed.

(** A sum over distinct keys with the term at [q] taken out. *)
Lemma xor_sum_untouched (h : Z -> Z) (q : Z) (l : list Z) :
  q ∉ l ->
  (fun x => if decide (x = q) then 0 else h x) <$> l = h <$> l.
Proof.
  intros Hq. apply list_fmap_ext. intros i y Hy. rewrite decide_False; [done|].
  intros ->. apply Hq. by eapply list_elem_of_lookup_2.
Qed.

Lemma xor_sum_take_out (h : Z -> Z) (q : Z) (l : list Z) :
  NoDup l -> q ∈ l ->
  xor_sum (h <$> l) = Z.lxor (h q) (xor_sum ((fun x => if decide (x = q) then 0 else h x) <$> l)).
Proof.
  induction 1 as [|x l Hx Hnd IH]; intros Hq; [by apply elem_of_nil in Hq|].
  rewrite !fmap_cons, !xor_sum_cons. apply elem_of_cons in Hq as [<-|Hq].
  - rewrite decide_True by done. rewrite Z.lxor_0_l.
    by rewrite xor_sum_untouched.
  - rewrite decide_False by (intros ->; done).
    rewrite IH by done. rewrite <- !Z.lxor_assoc. f_equal. apply Z.lxor_comm.
Qed.

(** Reading a list through its indices gives the list. *)
Lemma fmap_getitem_range (l : list Z) : (fun i => getitem l i) <$> seqZ 0 (len l) = l.
Proof.
  induction l as [|x l IH] using rev_ind; [done|].
  unfold len. rewrite length_app. simpl length.
  replace (length l + 1)%nat with (S (length l)) by lia.
  rewrite seqZ_S, fmap_app. f_equal.
  - etrans; [|apply IH]. apply list_fmap_ext. intros i y [-> Hi]%lookup_seqZ.
    unfold getitem, len in *. rewrite Z.add_0_l, Nat2Z.id.
    apply lookup_total_app_l. lia.
  - simpl. unfold getitem. rewrite Z.add_0_l, Nat2Z.id.
    by rewrite list_lookup_total_middle.
Qed.

(** ** Index access *)

Lemma len_nonneg {A} (l : list A) : 0 <= len l.
Proof. unfold len. lia. Qed.

Lemma len_setitem l i v : len (setitem l i v) = len l.
Proof. unfold len, setitem. by rewrite length_insert. Qed.

Lemma getitem_setitem_eq l i v : 0 <= i < len l -> getitem (setitem l i v) i = v.
Proof.
  intros Hi. unfold getitem, setitem, len in *.
  apply list_lookup_total_insert_eq. lia.
Qed.

Lemma getitem_setitem_ne l i j v : 0 <= i -> 0 <= j -> i <> j -> getitem (setitem l i v) j = getitem l j.
Proof.
  intros Hi Hj Hij. unfold getitem, setitem.
  apply list_lookup_total_insert_ne. lia.
Qed.

Lemma getitem_bit l i : Forall is_bit l -> 0 <= i < len l -> is_bit (getitem l i).
Proof.
  intros Hl Hi. unfold getitem, len in *.
  eapply Forall_lookup_1; [done|]. apply list_lookup_lookup_total_lt. lia.
Qed.

Lemma setitem_bits l i v : Forall is_bit l -> is_bit v -> Forall is_bit (setitem l i v).
Proof. intros Hl Hv. unfold setitem. by apply Forall_insert. Qed.

Lemma getitem_replicate (k : nat) i : 0 <= i < Z.of_nat k -> getitem (replicate k 0) i = 0.
Proof. intros Hi. unfold getitem. rewrite lookup_total_replicate_2; [done | lia]. Qed.

(** A loop over positions [1..n] is the loop over indices [0..n-1]. *)
Lemma foldl_positions {A} (f : A -> Z -> A) (a : A) (n : Z) :
  foldl f a (range 1 (n + 1)) = foldl (fun a i => f a (i + 1)) a (seqZ 0 n).
Proof.
  unfold range. replace (n + 1 - 1) with n by lia.
  replace (seqZ 1 n) with (Z.add 1 <$> seqZ 0 n) by (by rewrite fmap_add_seqZ).
  rewrite foldl_fmap. apply foldl_ext_in. intros a' i _. f_equal. lia.
Qed.

Lemma foldl_filter {A B} (P : B -> Prop) `{!forall x, Decision (P x)} (f g : A -> B -> A) (a : A) (l : list B) :
  (forall a x, P x -> f a x = g a x) ->
  (forall a x, ~ P x -> f a x = a) ->
  foldl f a l = foldl g a (filter P l).
Proof.
  intros Hyes Hno. revert a. induction l as [|x l IH]; intros a; [done|].
  destruct (decide (P x)) as [HP|HP].
  - rewrite filter_cons_True by done. simpl. rewrite Hyes by done. apply IH.
  - rewrite filter_cons_False by done. simpl. rewrite Hno by done. apply IH.
Qed.

Lemma foldl_snoc_filter {A B} (P : A -> Prop) `{!forall x, Decision (P x)} (c : A -> bool) (h : A -> B) (acc : list B) (l : list A) :
  (forall x, c x = true <-> P x) ->
  foldl (fun acc x => if c x then acc ++ [h x] else acc) acc l = acc ++ (h <$> filter P l).
Proof.
  intros Hc. revert acc. induction l as [|x l IH]; intros acc; simpl.
  - by rewrite app_nil_r.
  - rewrite IH. destruct (c x) eqn:Hcx.
    + rewrite filter_cons_True by (by apply Hc). rewrite fmap_cons. by rewrite <- app_assoc.
    + rewrite filter_cons_False; [done|]. rewrite <- Hc. by rewrite Hcx.
Qed.

(** ** The encoder, loop by loop *)

Lemma place_data_bits_unfold data n code :
  Lab3.place_data_bits data n code
  = (foldl (place_step data) (code, 0) (filter data_index (seqZ 0 n))).1.
Proof.
  unfold Lab3.place_data_bits. f_equal. rewrite foldl_positions.
  apply foldl_filter.
  - intros [c idx] i Hi. unfold data_index, parity_position in Hi.
    replace (i + 1 - 1) with i by lia.
    destruct (Z.land (i + 1) i =? 0) eqn:Hl; [apply Z.eqb_eq in Hl; by replace (i + 1 - 1) with i in Hi by lia|].
    done.
  - intros [c idx] i Hi. unfold data_index, parity_position in Hi.
    apply dec_stable in Hi. replace (i + 1 - 1) with i in * by lia.
    by rewrite Hi.
Qed.

Lemma place_step_spec data (idxs : list Z) code idx :
  NoDup idxs -> (forall i, i ∈ idxs -> 0 <= i < len code) -> 0 <= idx ->
  let res := foldl (place_step data) (code, idx) idxs in
  len res.1 = len code /\
  (forall q, 0 <= q -> q ∉ idxs -> getitem res.1 q = getitem code q) /\
  (forall (j : nat) i, idxs !! j = Some i ->
     getitem res.1 i = if idx + Z.of_nat j <? len data then getitem data (idx + Z.of_nat j) else getitem code i).
Proof.
  intros Hnd. revert code idx. induction Hnd as [|i0 idxs Hi0 Hnd IH]; intros code idx Hrange Hidx.
  - simpl. split; [done|]. split; [done|]. intros j i Hj. by rewrite lookup_nil in Hj.
  - cbn [foldl]. cbv zeta.
    assert (Hi0r : 0 <= i0 < len code) by (apply Hrange; by left).
    destruct (idx <? len data) eqn:Hlt.
    + assert (place_step data (code, idx) i0 = (setitem code i0 (getitem data idx), idx + 1)) as ->
        by (unfold place_step; cbn [fst snd]; by rewrite Hlt).
      destruct (IH (setitem code i0 (getitem data idx)) (idx + 1)) as (H1 & H2 & H3).
      { intros i Hi. rewrite len_setitem. apply Hrange. by right. }
      { lia. }
      split; [by rewrite H1, len_setitem|]. split.
      * intros q Hq Hnin. apply not_elem_of_cons in Hnin as [Hne Hnin].
        rewrite H2 by done. apply getitem_setitem_ne; [lia | done | done].
      * intros [|j] i Hj; simpl in Hj.
        -- injection Hj as <-. rewrite H2 by (done || lia).
           rewrite getitem_setitem_eq by done. by rewrite Z.add_0_r, Hlt.
        -- rewrite (H3 j i Hj).
           replace (idx + 1 + Z.of_nat j) with (idx + Z.of_nat (S j)) by lia.
           case_match; [done|]. apply getitem_setitem_ne; [lia | |].
           ++ apply Hrange. right. by eapply list_elem_of_lookup_2.
           ++ intros ->. apply Hi0. by eapply list_elem_of_lookup_2.
    + assert (place_step data (code, idx) i0 = (code, idx)) as ->
        by (unfold place_step; cbn [fst snd]; by rewrite Hlt).
      destruct (IH code idx) as (H1 & H2 & H3).
      { intros i Hi. apply Hrange. by right. }
      { done. }
      split; [done|]. split.
      * intros q Hq Hnin. apply not_elem_of_cons in Hnin as [Hne Hnin]. by apply H2.
      * intros [|j] i Hj; simpl in Hj.
        -- injection Hj as <-. rewrite H2 by (done || lia). by rewrite Z.add_0_r, Hlt.
        -- rewrite (H3 j i Hj). apply Z.ltb_ge in Hlt.
           rewrite !(proj2 (Z.ltb_ge _ _)) by lia. done.
Qed.

Lemma place_step_bits data (idxs : list Z) code idx :
  Forall is_bit data -> Forall is_bit code -> 0 <= idx ->
  Forall is_bit (foldl (place_step data) (code, idx) idxs).1.
Proof.
  intros Hd. revert code idx. induction idxs as [|i idxs IH]; intros code idx Hc Hidx; [done|].
  cbn [foldl]. destruct (idx <? len data) eqn:Hlt.
  2:{ assert (place_step data (code, idx) i = (code, idx)) as ->
        by (unfold place_step; cbn [fst snd]; by rewrite Hlt).
      by apply IH. }
  assert (place_step data (code, idx) i = (setitem code i (getitem data idx), idx + 1)) as ->
    by (unfold place_step; cbn [fst snd]; by rewrite Hlt).
  apply IH; [|lia]. apply setitem_bits; [done|].
  apply getitem_bit; [done|]. apply Z.ltb_lt in Hlt. lia.
Qed.

(** Data indices and parity positions share out the first [k] indices. *)
Lemma count_data_indices (k : nat) :
  (length (filter data_index (seqZ 0 (Z.of_nat k)))
   + length (filter parity_position (seqZ 1 (Z.of_nat k))) = k)%nat.
Proof.
  induction k as [|k IH]; [done|].
  rewrite !seqZ_S, !filter_app, !length_app.
  replace (1 + Z.of_nat k) with (0 + Z.of_nat k + 1) by lia.
  destruct (decide (parity_position (0 + Z.of_nat k + 1))) as [Hp|Hp].
  - rewrite (filter_cons_True parity_position) by done.
    rewrite (filter_cons_False data_index) by (by intros ?).
    rewrite !filter_nil. simpl. lia.
  - rewrite (filter_cons_False parity_position) by done.
    rewrite (filter_cons_True data_index) by done.
    rewrite !filter_nil. simpl. lia.
Qed.

Lemma seqZ_snoc (k : Z) : 0 <= k -> seqZ 0 (k + 1) = seqZ 0 k ++ [k].
Proof.
  intros Hk. by rewrite seqZ_app by lia.
Qed.

Lemma parity_of_unfold code n k :
  0 <= k ->
  Lab3.parity_of code n k (2 ^ k)
  = xor_sum ((fun i => if Z.testbit (i + 1) k && negb (i + 1 =? 2 ^ k) then getitem code i else 0)
               <$> seqZ 0 n).
Proof.
  intros Hk. unfold Lab3.parity_of. rewrite foldl_positions.
  rewrite <- (Z.lxor_0_l (xor_sum _)), <- foldl_cond_lxor.
  apply foldl_ext_in. intros acc i _.
  rewrite bit_test by done. replace (i + 1 - 1) with i by lia.
  by destruct (Z.testbit (i + 1) k), (i + 1 =? 2 ^ k).
Qed.

(** One round of the parity loop: the equation of bit [k] now holds, the
    other equations and the other positions are as before. *)
Lemma parity_round code n k :
  0 <= k -> 2 ^ k <= n -> len code = n ->
  let code' := setitem code (2 ^ k - 1) (Lab3.parity_of code n k (2 ^ k)) in
  parity_check k code' n = 0 /\
  (forall k', 0 <= k' -> k' <> k -> parity_check k' code' n = parity_check k' code n) /\
  (forall q, 0 <= q -> q <> 2 ^ k - 1 -> getitem code' q = getitem code q) /\
  len code' = n /\
  (Forall is_bit code -> Forall is_bit code').
Proof.
  intros Hk Hle Hlen code'.
  assert (Hpow : 0 < 2 ^ k) by (apply Z.pow_pos_nonneg; lia).
  assert (Hother : forall q, 0 <= q -> q <> 2 ^ k - 1 -> getitem code' q = getitem code q).
  { intros q Hq Hne. apply getitem_setitem_ne; lia. }
  assert (Hat : getitem code' (2 ^ k - 1) = Lab3.parity_of code n k (2 ^ k)).
  { apply getitem_setitem_eq. lia. }
  split; [|split; [|split; [done|split]]].
  - unfold parity_check.
    rewrite (xor_sum_take_out _ (2 ^ k - 1)); [|apply NoDup_seqZ|apply elem_of_seqZ; lia].
    replace (2 ^ k - 1 + 1) with (2 ^ k) by lia.
    rewrite Z.pow2_bits_true by done. rewrite Hat, parity_of_unfold by done.
    match goal with |- Z.lxor ?v (xor_sum ?l) = 0 => assert (l = (fun i => if Z.testbit (i + 1) k && negb (i + 1 =? 2 ^ k)
                                                  then getitem code i else 0) <$> seqZ 0 n) as -> end;
      [|apply Z.lxor_nilpotent].
    apply list_fmap_ext. intros j i [-> Hi]%lookup_seqZ.
    case_decide as Hq.
    + assert ((0 + Z.of_nat j + 1 =? 2 ^ k) = true) as -> by (apply Z.eqb_eq; lia).
      by rewrite andb_false_r.
    + assert ((0 + Z.of_nat j + 1 =? 2 ^ k) = false) as -> by (apply Z.eqb_neq; lia).
      rewrite andb_true_r. rewrite Hother by lia. done.
  - intros k' Hk' Hne. unfold parity_check. f_equal. apply list_fmap_ext.
    intros j i [-> Hi]%lookup_seqZ.
    destruct (decide (0 + Z.of_nat j = 2 ^ k - 1)) as [Heq|Hneq].
    + replace (0 + Z.of_nat j + 1) with (2 ^ k) by lia.
      by rewrite Z.pow2_bits_false by lia.
    + by rewrite Hother by lia.
  - unfold code'. by rewrite len_setitem.
  - intros Hbits. apply setitem_bits; [done|].
    rewrite parity_of_unfold by done. apply xor_sum_bit.
    apply Forall_fmap, Forall_seqZ. intros i Hi. simpl.
    case_match; [|by left]. apply getitem_bit; [done | lia].
Qed.

Lemma filter_ext_in {A} (P1 P2 : A -> Prop)
    `{!forall x, Decision (P1 x), !forall x, Decision (P2 x)} (l : list A) :
  (forall x, x ∈ l -> P1 x <-> P2 x) -> filter P1 l = filter P2 l.
Proof.
  induction l as [|a l IH]; intros Hiff; [done|].
  assert (IH' : filter P1 l = filter P2 l) by (apply IH; intros x Hx; apply Hiff; by right).
  destruct (decide (P1 a)) as [Ha|Ha].
  - rewrite !filter_cons_True; [by rewrite IH' | | done]. apply Hiff; [by left | done].
  - rewrite !filter_cons_False; [done | | done]. intros Ha'. apply Ha, Hiff; [by left | done].
Qed.

Lemma xor_sum_singleton x : xor_sum [x] = x.
Proof. unfold xor_sum. simpl. apply Z.lxor_0_r. Qed.

Lemma xor_sum_zeros (l : list Z) : Forall (eq 0) l -> xor_sum l = 0.
Proof.
  induction 1 as [|x l <- _ IH]; [done|]. by rewrite xor_sum_cons, IH.
Qed.

Lemma testbit_small a k : 0 <= a < 2 ^ k -> Z.testbit a k = false.
Proof.
  intros Ha. destruct (decide (a = 0)) as [->|Hne]; [apply Z.bits_0|].
  destruct (decide (0 <= k)) as [Hk|Hk]; [|rewrite Z.pow_neg_r in Ha; lia].
  apply Z.bits_above_log2; [lia|]. apply Z.log2_lt_pow2; lia.
Qed.

Lemma overall_parity_of_unfold code n :
  Lab3.overall_parity_of code n = xor_sum ((fun i => getitem code i) <$> seqZ 0 (n - 1)).
Proof.
  unfold Lab3.overall_parity_of, range. rewrite Z.sub_0_r.
  by rewrite foldl_lxor, Z.lxor_0_l.
Qed.

Lemma total_parity_of_unfold l : Lab3.total_parity_of l = xor_sum l.
Proof.
  unfold Lab3.total_parity_of. rewrite (foldl_lxor (fun x => x)), Z.lxor_0_l.
  f_equal. apply list_fmap_id.
Qed.

Lemma syndrome_of_unfold code :
  Lab3.syndrome_of code
  = xor_sum ((fun i => if negb (getitem code i =? 0) then i + 1 else 0) <$> seqZ 0 (len code)).
Proof.
  unfold Lab3.syndrome_of, range. rewrite Z.sub_0_r.
  by rewrite foldl_cond_lxor, Z.lxor_0_l.
Qed.

(** Bit [k] of the syndrome is the parity equation of bit [k]. *)
Lemma syndrome_testbit code (idxs : list Z) k :
  Forall (fun i => is_bit (getitem code i)) idxs ->
  Z.testbit (xor_sum ((fun i => if negb (getitem code i =? 0) then i + 1 else 0) <$> idxs)) k
  = Z.odd (xor_sum ((fun i => if Z.testbit (i + 1) k then getitem code i else 0) <$> idxs)).
Proof.
  induction 1 as [|i idxs Hi _ IH]; [by rewrite Z.bits_0|].
  rewrite !fmap_cons, !xor_sum_cons, Z.lxor_spec, IH.
  rewrite <- !Z.bit0_odd, (Z.lxor_spec _ _ 0). f_equal.
  destruct Hi as [-> | ->]; simpl.
  - rewrite Z.bits_0. by destruct (Z.testbit (i + 1) k).
  - by destruct (Z.testbit (i + 1) k).
Qed.

Lemma extract_data_bits_unfold code n :
  Lab3.extract_data_bits code n
  = (fun i => getitem code i) <$> filter (fun i => data_index i /\ i + 1 <> n) (seqZ 0 n).
Proof.
  unfold Lab3.extract_data_bits, range. rewrite Z.sub_0_r.
  rewrite (foldl_snoc_filter (fun i => data_index i /\ i + 1 <> n)); [done|].
  intros i. unfold data_index, parity_position. replace (i + 1 - 1) with i by lia.
  rewrite andb_true_iff, !negb_true_iff, !Z.eqb_neq. done.
Qed.

Lemma seqZ_last (n : Z) : 1 <= n -> seqZ 0 n = seqZ 0 (n - 1) ++ [n - 1].
Proof. intros Hn. rewrite <- seqZ_snoc by lia. f_equal. lia. Qed.

Lemma data_indices_but_last (n : Z) :
  1 <= n ->
  filter (fun i => data_index i /\ i + 1 <> n) (seqZ 0 n) = filter data_index (seqZ 0 (n - 1)).
Proof.
  intros Hn. rewrite (seqZ_last n), filter_app by lia.
  rewrite (filter_cons_False _ (n - 1)) by (intros [_ ?]; lia).
  rewrite filter_nil, app_nil_r. apply filter_ext_in.
  intros i Hi%elem_of_seqZ. split; [by intros [? _] | intros ?; split; [done | lia]].
Qed.

Section Encoder.

Variable d : list Z.
Hypothesis d_bits : Forall is_bit d.

Variables m r n : Z.
Hypothesis m_def : m = len d.
Hypothesis r_def : r = standard_parity_bits_of m.
Hypothesis n_def : n = m + r + 1.

Lemma m_nonneg : 0 <= m.
Proof. rewrite m_def. apply len_nonneg. Qed.

Lemma r_spec : 0 <= r /\ n <= 2 ^ r /\ (0 < r -> 2 ^ (r - 1) < n - 1).
Proof.
  pose proof m_nonneg as Hm.
  destruct (standard_parity_bits_spec m Hm) as (H1 & H2 & H3).
  rewrite <- r_def in *. rewrite n_def.
  split; [done|]. split; [lia|]. intros Hr. specialize (H3 Hr). lia.
Qed.

Lemma n_pos : 1 <= n.
Proof. pose proof m_nonneg. pose proof r_spec. lia. Qed.

(** The [r] parity positions [2^0 .. 2^(r-1)] all lie below [n - 1]. *)
Lemma parity_position_below b : 0 <= b < r -> 2 ^ b < n - 1.
Proof.
  intros Hb. destruct r_spec as (_ & _ & H3).
  assert (2 ^ b <= 2 ^ (r - 1)) by (apply Z.pow_le_mono_r; lia). lia.
Qed.

(** There are exactly [m] data indices below [n - 1]. *)
Lemma data_count : length (filter data_index (seqZ 0 (n - 1))) = Z.to_nat m.
Proof.
  pose proof m_nonneg as Hm. destruct r_spec as (Hr & Hhi & Hlo).
  pose proof (count_data_indices (Z.to_nat (n - 1))) as Hsum.
  pose proof (count_parity_positions (Z.to_nat (n - 1))) as Hpar.
  rewrite Z2Nat.id in * by lia.
  destruct (decide (Z.to_nat (n - 1) = 0%nat)) as [H0|Hn0].
  - lia.
  - assert (Z.log2 (n - 1) = r - 1); [|lia].
    assert (0 < r) by (destruct (decide (r = 0)) as [->|]; [simpl in Hhi|]; lia).
    apply Z.log2_unique; [lia|]. replace (Z.succ (r - 1)) with r by lia. lia.
Qed.

Variable c1 : list Z.
Hypothesis c1_def : c1 = Lab3.place_data_bits d n (replicate (Z.to_nat n) 0).

Lemma data_indices_split :
  filter data_index (seqZ 0 n)
  = filter data_index (seqZ 0 (n - 1)) ++ filter data_index [n - 1].
Proof.
  pose proof n_pos. rewrite (seqZ_last n) by lia. apply filter_app.
Qed.

Lemma data_indices_range i : i ∈ filter data_index (seqZ 0 n) -> 0 <= i < n.
Proof. intros [_ Hi%elem_of_seqZ]%list_elem_of_filter. lia. Qed.

Lemma c1_spec :
  len c1 = n /\
  (forall q, 0 <= q < n -> q ∉ filter data_index (seqZ 0 n) -> getitem c1 q = 0) /\
  (forall (j : nat) i, filter data_index (seqZ 0 n) !! j = Some i ->
     getitem c1 i = if Z.of_nat j <? m then getitem d (Z.of_nat j) else 0).
Proof.
  pose proof n_pos as Hn.
  assert (Hlen : len (replicate (Z.to_nat n) 0) = n) by (unfold len; rewrite length_replicate; lia).
  destruct (place_step_spec d (filter data_index (seqZ 0 n)) (replicate (Z.to_nat n) 0) 0)
    as (H1 & H2 & H3).
  { apply NoDup_filter, NoDup_seqZ. }
  { intros i Hi%data_indices_range. lia. }
  { done. }
  rewrite c1_def, place_data_bits_unfold.
  split; [lia|]. split.
  - intros q Hq Hnin. rewrite H2 by (done || lia). apply getitem_replicate. lia.
  - intros j i Hj. rewrite (H3 j i Hj), Z.add_0_l, <- m_def.
    case_match; [done|]. apply getitem_replicate.
    apply list_elem_of_lookup_2, data_indices_range in Hj. lia.
Qed.

Lemma len_c1 : len c1 = n.
Proof. apply c1_spec. Qed.

Lemma c1_bits : Forall is_bit c1.
Proof.
  rewrite c1_def, place_data_bits_unfold.
  apply place_step_bits; [done | | done].
  apply Forall_replicate. by left.
Qed.

Lemma c1_data (j : nat) i :
  filter data_index (seqZ 0 (n - 1)) !! j = Some i -> getitem c1 i = getitem d (Z.of_nat j).
Proof.
  intros Hj. destruct c1_spec as (_ & _ & H3).
  rewrite (H3 j i).
  - apply lookup_lt_Some in Hj. rewrite data_count in Hj.
    rewrite (proj2 (Z.ltb_lt _ _)); [done | lia].
  - rewrite data_indices_split. by apply lookup_app_l_Some.
Qed.

Lemma c1_last : getitem c1 (n - 1) = 0.
Proof.
  pose proof n_pos as Hn. pose proof m_nonneg as Hm.
  destruct c1_spec as (_ & H2 & H3).
  destruct (decide (data_index (n - 1))) as [Hd|Hd].
  - rewrite (H3 (Z.to_nat m) (n - 1)).
    + rewrite (proj2 (Z.ltb_ge _ _)); [done | lia].
    + rewrite data_indices_split, filter_cons_True, filter_nil by done.
      rewrite <- data_count. apply list_lookup_middle. done.
  - apply H2; [lia|]. intros [Hd' _]%list_elem_of_filter. done.
Qed.

Variable c2 : list Z.
Hypothesis c2_def : c2 = Lab3.place_parity_bits r n c1.

(** The parity loop, after its first [K] rounds. *)
Lemma parity_rounds (K : nat) :
  Z.of_nat K <= r ->
  let code := foldl (fun code i =>
                       let parity_pos_1idx := Z.shiftl 1 i in
                       if parity_pos_1idx <=? n
                       then setitem code (parity_pos_1idx - 1) (Lab3.parity_of code n i parity_pos_1idx)
                       else code) c1 (seqZ 0 (Z.of_nat K)) in
  len code = n /\
  Forall is_bit code /\
  (forall q, 0 <= q -> (forall b, 0 <= b < Z.of_nat K -> q + 1 <> 2 ^ b) -> getitem code q = getitem c1 q) /\
  (forall k, 0 <= k < Z.of_nat K -> parity_check k code n = 0).
Proof.
  induction K as [|K IH]; intros HK.
  - simpl. split; [apply len_c1|]. split; [apply c1_bits|]. split; [done|]. lia.
  - rewrite seqZ_S, foldl_snoc. cbv zeta.
    destruct IH as (IH1 & IH2 & IH3 & IH4); [lia|].
    set (code := foldl _ c1 (seqZ 0 (Z.of_nat K))) in *.
    rewrite Z.add_0_l, Z.shiftl_1_l.
    assert (Hbelow : 2 ^ Z.of_nat K < n - 1) by (apply parity_position_below; lia).
    rewrite (proj2 (Z.leb_le _ _)) by lia.
    destruct (parity_round code n (Z.of_nat K)) as (P1 & P2 & P3 & P4 & P5); [lia | lia | done |].
    split; [done|]. split; [by apply P5|]. split.
    + intros q Hq Hnot. rewrite P3; [|done|].
      * apply IH3; [done|]. intros b Hb. apply Hnot. lia.
      * specialize (Hnot (Z.of_nat K)). lia.
    + intros k Hk. destruct (decide (k = Z.of_nat K)) as [->|Hne]; [done|].
      rewrite P2 by lia. apply IH4. lia.
Qed.

Lemma c2_spec :
  len c2 = n /\
  Forall is_bit c2 /\
  (forall q, 0 <= q -> (forall b, 0 <= b < r -> q + 1 <> 2 ^ b) -> getitem c2 q = getitem c1 q) /\
  (forall k, 0 <= k < r -> parity_check k c2 n = 0).
Proof.
  destruct r_spec as (Hr & _ & _).
  pose proof (parity_rounds (Z.to_nat r)) as H. rewrite Z2Nat.id in H by done.
  rewrite c2_def. unfold Lab3.place_parity_bits, range. rewrite Z.sub_0_r.
  apply H. lia.
Qed.

Lemma c2_last : getitem c2 (n - 1) = 0.
Proof.
  pose proof n_pos. destruct c2_spec as (_ & _ & H3 & _).
  rewrite H3; [apply c1_last | lia |].
  intros b Hb. pose proof (parity_position_below b Hb). lia.
Qed.

Lemma syndrome_c2_prefix :
  xor_sum ((fun i => if negb (getitem c2 i =? 0) then i + 1 else 0) <$> seqZ 0 (n - 1)) = 0.
Proof.
  pose proof n_pos as Hn. destruct r_spec as (Hr & Hhi & _).
  destruct c2_spec as (Hlen & Hbits & _ & Hchk).
  assert (Hfull : xor_sum ((fun i => if negb (getitem c2 i =? 0) then i + 1 else 0) <$> seqZ 0 n) = 0).
  { apply Z.bits_inj_0. intros k.
    destruct (decide (0 <= k)) as [Hk|Hk]; [|by rewrite Z.testbit_neg_r by lia].
    rewrite syndrome_testbit.
    2:{ apply Forall_seqZ. intros i Hi. apply getitem_bit; [done | lia]. }
    fold (parity_check k c2 n).
    destruct (decide (k < r)) as [Hlt|Hge]; [by rewrite Hchk by lia|].
    unfold parity_check. rewrite xor_sum_zeros; [done|].
    apply Forall_fmap, Forall_seqZ. intros i Hi. simpl.
    destruct (decide (i = n - 1)) as [->|Hne]; [rewrite c2_last; by case_match|].
    rewrite testbit_small; [done|].
    assert (2 ^ r <= 2 ^ k) by (apply Z.pow_le_mono_r; lia). lia. }
  rewrite (seqZ_last n), fmap_app, xor_sum_app in Hfull by lia.
  rewrite fmap_cons, fmap_nil, xor_sum_singleton, c2_last in Hfull.
  simpl in Hfull. by rewrite Z.lxor_0_r in Hfull.
Qed.

Variable c : list Z.
Hypothesis c_def : c = setitem c2 (n - 1) (Lab3.overall_parity_of c2 n).

Lemma len_c : len c = n.
Proof. rewrite c_def, len_setitem. apply c2_spec. Qed.

Lemma c_prefix q : 0 <= q < n - 1 -> getitem c q = getitem c2 q.
Proof. intros Hq. rewrite c_def. apply getitem_setitem_ne; lia. Qed.

Lemma c_last : getitem c (n - 1) = Lab3.overall_parity_of c2 n.
Proof.
  pose proof n_pos. rewrite c_def. apply getitem_setitem_eq.
  destruct c2_spec as (-> & _). lia.
Qed.

Lemma c_bits : Forall is_bit c.
Proof.
  destruct c2_spec as (Hlen & Hbits & _).
  rewrite c_def. apply setitem_bits; [done|].
  rewrite overall_parity_of_unfold. apply xor_sum_bit.
  apply Forall_fmap, Forall_seqZ. intros i Hi. apply getitem_bit; [done | lia].
Qed.

(** The whole codeword has even parity. *)
Lemma total_parity_c : Lab3.total_parity_of c = 0.
Proof.
  pose proof n_pos as Hn.
  rewrite total_parity_of_unfold. rewrite <- (fmap_getitem_range c), len_c.
  rewrite (seqZ_last n), fmap_app, xor_sum_app by lia.
  rewrite fmap_cons, fmap_nil, xor_sum_singleton, c_last, overall_parity_of_unfold.
  assert ((fun i => getitem c i) <$> seqZ 0 (n - 1) = (fun i => getitem c2 i) <$> seqZ 0 (n - 1)) as ->.
  { apply list_fmap_ext. intros j i [-> Hi]%lookup_seqZ. apply c_prefix. lia. }
  apply Z.lxor_nilpotent.
Qed.

(** The syndrome of the codeword is [n] when the overall parity bit is
    set, and 0 otherwise. *)
Lemma syndrome_c : Lab3.syndrome_of c = if getitem c (n - 1) =? 0 then 0 else n.
Proof.
  pose proof n_pos as Hn.
  rewrite syndrome_of_unfold, len_c.
  rewrite (seqZ_last n), fmap_app, xor_sum_app by lia.
  assert ((fun i => if negb (getitem c i =? 0) then i + 1 else 0) <$> seqZ 0 (n - 1)
          = (fun i => if negb (getitem c2 i =? 0) then i + 1 else 0) <$> seqZ 0 (n - 1)) as ->.
  { apply list_fmap_ext. intros j i [-> Hi]%lookup_seqZ. simpl. by rewrite c_prefix by lia. }
  rewrite syndrome_c2_prefix, Z.lxor_0_l, fmap_cons, fmap_nil, xor_sum_singleton.
  destruct (getitem c (n - 1) =? 0); simpl; [done | lia].
Qed.

(** Reading the data positions of any word that agrees with the codeword
    there gives back the data. *)
Lemma extract_data (c' : list Z) :
  (forall q, 0 <= q < n - 1 -> data_index q -> getitem c' q = getitem c q) ->
  Lab3.extract_data_bits c' n = d.
Proof.
  intros Hagree. pose proof n_pos as Hn. pose proof m_nonneg as Hm.
  rewrite extract_data_bits_unfold.
  rewrite data_indices_but_last by done.
  apply list_eq. intros j. rewrite list_lookup_fmap.
  destruct (filter data_index (seqZ 0 (n - 1)) !! j) as [i|] eqn:Hj; simpl.
  - pose proof (lookup_lt_Some _ _ _ Hj) as Hlt. rewrite data_count in Hlt.
    assert (Hi : 0 <= i < n - 1 /\ data_index i).
    { apply list_elem_of_lookup_2, list_elem_of_filter in Hj as [? ?%elem_of_seqZ]. split; [lia | done]. }
    destruct Hi as [Hi Hdi].
    destruct c2_spec as (_ & _ & H3 & _).
    rewrite Hagree by (done || lia). rewrite c_prefix by lia. rewrite H3; [|lia|].
    + rewrite (c1_data j i Hj). symmetry. unfold getitem. rewrite Nat2Z.id.
      apply list_lookup_lookup_total_lt. rewrite m_def in Hlt. unfold len in Hlt. lia.
    + intros b Hb Heq. apply Hdi. unfold data_index. rewrite Heq.
      apply pow2_is_parity_position. lia.
  - symmetry. apply lookup_ge_None_2. apply lookup_ge_None_1 in Hj.
    rewrite data_count in Hj. rewrite m_def in Hj. unfold len in Hj. lia.
Qed.

End Encoder.

(** ** Flipped bits *)

Lemma xor_sum_insert (l : list Z) (i : nat) (v : Z) :
  (i < length l)%nat ->
  xor_sum (<[i := v]> l) = Z.lxor (xor_sum l) (Z.lxor (l !!! i) v).
Proof.
  revert i. induction l as [|x l IH]; intros i Hi; [simpl in Hi; lia|].
  destruct i as [|i].
  - change (<[0%nat := v]> (x :: l)) with (v :: l).
    change ((x :: l) !!! 0%nat) with x. rewrite !xor_sum_cons.
    rewrite (Z.lxor_comm x (xor_sum l)), Z.lxor_assoc, <- (Z.lxor_assoc x x v).
    by rewrite Z.lxor_nilpotent, Z.lxor_0_l, Z.lxor_comm.
  - change (<[S i := v]> (x :: l)) with (x :: <[i := v]> l).
    change ((x :: l) !!! S i) with (l !!! i).
    rewrite !xor_sum_cons, IH by (simpl in Hi; lia). by rewrite Z.lxor_assoc.
Qed.

Lemma flip_at_length i l : length (flip_at i l) = length l.
Proof. unfold flip_at. apply length_insert. Qed.

Lemma flip_at_bits i l : Forall is_bit l -> (i < length l)%nat -> Forall is_bit (flip_at i l).
Proof.
  intros Hl Hi. unfold flip_at. apply Forall_insert; [done|].
  apply is_bit_lxor; [|by right].
  eapply Forall_lookup_1; [done|]. by apply list_lookup_lookup_total_lt.
Qed.

Lemma flip_at_twice i l : (i < length l)%nat -> flip_at i (flip_at i l) = l.
Proof.
  intros Hi. unfold flip_at. rewrite list_insert_insert_eq.
  rewrite list_lookup_total_insert_eq by done.
  rewrite Z.lxor_assoc, Z.lxor_nilpotent, Z.lxor_0_r.
  apply list_insert_id. by apply list_lookup_lookup_total_lt.
Qed.

Lemma total_parity_flip i l :
  (i < length l)%nat ->
  Lab3.total_parity_of (flip_at i l) = Z.lxor (Lab3.total_parity_of l) 1.
Proof.
  intros Hi. rewrite !total_parity_of_unfold. unfold flip_at.
  rewrite xor_sum_insert by done. f_equal.
  by rewrite <- Z.lxor_assoc, Z.lxor_nilpotent, Z.lxor_0_l.
Qed.

Lemma syndrome_flip i l :
  Forall is_bit l -> (i < length l)%nat ->
  Lab3.syndrome_of (flip_at i l) = Z.lxor (Lab3.syndrome_of l) (Z.of_nat i + 1).
Proof.
  intros Hl Hi. rewrite !syndrome_of_unfold. unfold len. rewrite flip_at_length.
  assert (Hin : Z.of_nat i ∈ seqZ 0 (Z.of_nat (length l))) by (apply elem_of_seqZ; lia).
  rewrite (xor_sum_take_out _ (Z.of_nat i) _ (NoDup_seqZ _ _) Hin).
  rewrite (xor_sum_take_out (fun i0 => if negb (getitem l i0 =? 0) then i0 + 1 else 0)
             (Z.of_nat i) _ (NoDup_seqZ _ _) Hin).
  assert ((fun x => if decide (x = Z.of_nat i) then 0
                    else if negb (getitem (flip_at i l) x =? 0) then x + 1 else 0)
            <$> seqZ 0 (Z.of_nat (length l))
          = (fun x => if decide (x = Z.of_nat i) then 0
                      else if negb (getitem l x =? 0) then x + 1 else 0)
            <$> seqZ 0 (Z.of_nat (length l))) as ->.
  { apply list_fmap_ext. intros j x [-> Hj]%lookup_seqZ. case_decide; [done|].
    unfold getitem, flip_at. rewrite list_lookup_total_insert_ne by lia. done. }
  set (rest := xor_sum _).
  assert (Hat : getitem (flip_at i l) (Z.of_nat i) = Z.lxor (getitem l (Z.of_nat i)) 1).
  { unfold getitem, flip_at. rewrite Nat2Z.id. by rewrite list_lookup_total_insert_eq. }
  rewrite Hat.
  assert (Hbit : is_bit (getitem l (Z.of_nat i))) by (apply getitem_bit; [done | unfold len; lia]).
  destruct Hbit as [-> | ->]; simpl.
  - by rewrite Z.lxor_0_l, Z.lxor_comm.
  - by rewrite Z.lxor_0_l, (Z.lxor_comm _ rest), Z.lxor_assoc, Z.lxor_nilpotent, Z.lxor_0_r.
Qed.

(** ** The decoder on codewords *)

Lemma hamming_encode_unfold d :
  let n := code_length d in
  let c2 := Lab3.place_parity_bits (standard_parity_bits_of (len d)) n
              (Lab3.place_data_bits d n (replicate (Z.to_nat n) 0)) in
  Lab3.hamming_encode d = setitem c2 (n - 1) (Lab3.overall_parity_of c2 n).
Proof.
  unfold Lab3.hamming_encode, Lab3.calculate_hamming_parity_bits, code_length. cbv zeta.
  by replace (len d + (standard_parity_bits_of (len d) + 1))
    with (len d + standard_parity_bits_of (len d) + 1) by lia.
Qed.

(** What the encoder guarantees, for a word of bits. *)
Lemma hamming_encode_spec d :
  Forall is_bit d ->
  let c := Lab3.hamming_encode d in
  let n := code_length d in
  len c = n /\ 1 <= n /\
  Forall is_bit c /\
  Lab3.total_parity_of c = 0 /\
  Lab3.syndrome_of c = (if overall_parity_bit d =? 0 then 0 else n) /\
  Lab3.extract_data_bits c n = d.
Proof.
  intros Hd c n. pose proof (hamming_encode_unfold d) as Hc. cbv zeta in Hc.
  fold n c in Hc. unfold overall_parity_bit. fold n c.
  set (c1 := Lab3.place_data_bits d n (replicate (Z.to_nat n) 0)) in *.
  set (c2 := Lab3.place_parity_bits (standard_parity_bits_of (len d)) n c1) in *.
  split; [by eapply (len_c d Hd (len d) _ n)|].
  split; [by eapply (n_pos d (len d) _ n)|].
  split; [by eapply (c_bits d Hd (len d) _ n)|].
  split; [by eapply (total_parity_c d Hd (len d) _ n)|].
  split; [by eapply (syndrome_c d Hd (len d) _ n)|].
  by eapply (extract_data d Hd (len d) _ n).
Qed.

(** The round trip, in full: the data always comes back and no
    correction is reported, and a double error is reported exactly when
    the overall parity bit of the codeword is 1. *)
Theorem hamming_round_trip d :
  Forall is_bit d ->
  Lab3.hamming_decode (Lab3.hamming_encode d)
  = (d, false, negb (overall_parity_bit d =? 0)).
Proof.
  intros Hd. destruct (hamming_encode_spec d Hd) as (Hlen & Hn & Hbits & Hpar & Hsyn & Hext).
  unfold Lab3.hamming_decode, Lab3.classify. rewrite Hlen, Hpar, Hsyn.
  destruct (overall_parity_bit d =? 0); simpl.
  - by rewrite Hext.
  - assert ((code_length d =? 0) = false) as -> by (apply Z.eqb_neq; lia).
    simpl. by rewrite Hext.
Qed.

(** With overall parity bit 0, any single flipped bit is corrected. *)
Theorem hamming_single_flip d (i : nat) :
  Forall is_bit d ->
  overall_parity_bit d = 0 ->
  (i < length (Lab3.hamming_encode d))%nat ->
  Lab3.hamming_decode (flip_at i (Lab3.hamming_encode d)) = (d, true, false).
Proof.
  intros Hd Hp Hi. destruct (hamming_encode_spec d Hd) as (Hlen & Hn & Hbits & Hpar & Hsyn & Hext).
  rewrite Hp in Hsyn. simpl in Hsyn.
  unfold Lab3.hamming_decode, Lab3.classify.
  rewrite total_parity_flip, syndrome_flip, Hpar, Hsyn by done.
  rewrite Z.lxor_0_l. change (Z.lxor 0 1) with 1.
  assert (len (flip_at i (Lab3.hamming_encode d)) = code_length d) as ->
    by (unfold len in *; by rewrite flip_at_length).
  assert ((Z.of_nat i + 1 =? 0) = false) as -> by (apply Z.eqb_neq; lia).
  assert ((Z.of_nat i + 1 <=? code_length d) = true) as -> by (apply Z.leb_le; unfold len in *; lia).
  simpl.
  assert (setitem (flip_at i (Lab3.hamming_encode d)) (Z.of_nat i + 1 - 1)
            (Z.lxor (getitem (flip_at i (Lab3.hamming_encode d)) (Z.of_nat i + 1 - 1)) 1)
          = Lab3.hamming_encode d) as ->.
  { unfold setitem, getitem. replace (Z.to_nat (Z.of_nat i + 1 - 1)) with i by lia.
    fold (flip_at i (flip_at i (Lab3.hamming_encode d))). by apply flip_at_twice. }
  by rewrite Hext.
Qed.

(** With overall parity bit 0, any two flipped bits are reported as a
    double error. *)
Theorem hamming_double_flip d (i j : nat) :
  Forall is_bit d ->
  overall_parity_bit d = 0 ->
  (i < length (Lab3.hamming_encode d))%nat ->
  (j < length (Lab3.hamming_encode d))%nat ->
  i <> j ->
  exists data,
    Lab3.hamming_decode (flip_at j (flip_at i (Lab3.hamming_encode d))) = (data, false, true).
Proof.
  intros Hd Hp Hi Hj Hij.
  destruct (hamming_encode_spec d Hd) as (Hlen & Hn & Hbits & Hpar & Hsyn & Hext).
  rewrite Hp in Hsyn. simpl in Hsyn.
  unfold Lab3.hamming_decode, Lab3.classify.
  rewrite (total_parity_flip j) by (by rewrite flip_at_length).
  rewrite (total_parity_flip i) by done.
  rewrite (syndrome_flip j); [|by apply flip_at_bits|by rewrite flip_at_length].
  rewrite (syndrome_flip i), Hpar, Hsyn by done.
  rewrite Z.lxor_0_l. change (Z.lxor (Z.lxor 0 1) 1) with 0.
  assert ((Z.lxor (Z.of_nat i + 1) (Z.of_nat j + 1) =? 0) = false) as ->.
  { apply Z.eqb_neq. intros Heq%Z.lxor_eq. lia. }
  simpl. by eexists.
Qed.

Corollary hamming_round_trip_clean d :
  Forall is_bit d -> overall_parity_bit d = 0 ->
  Lab3.hamming_decode (Lab3.hamming_encode d) = (d, false, false).
Proof. intros Hd Hp. by rewrite hamming_round_trip, Hp. Qed.

Corollary hamming_round_trip_flagged d :
  Forall is_bit d -> overall_parity_bit d <> 0 ->
  Lab3.hamming_decode (Lab3.hamming_encode d) = (d, false, true).
Proof.
  intros Hd Hp. rewrite hamming_round_trip by done.
  by rewrite (proj2 (Z.eqb_neq _ _) Hp).
Qed.

(** The theorems at the first two vectors of test_hamming.py, whose
    codewords have overall parity bit 0, and at the word [1], whose
    codeword has overall parity bit 1. *)
Example hamming_round_trip_at_test_vector :
  Lab3.hamming_decode (Lab3.hamming_encode [1; 0; 1; 1; 0; 0; 1; 0])
  = ([1; 0; 1; 1; 0; 0; 1; 0], false, false).
Proof.
  apply hamming_round_trip_clean; [|reflexivity].
  repeat (constructor; [unfold is_bit; lia|]). constructor.
Qed.

Example hamming_round_trip_at_one :
  Lab3.hamming_decode (Lab3.hamming_encode [1]) = ([1], false, true).
Proof.
  apply hamming_round_trip_flagged; [|discriminate].
  repeat (constructor; [unfold is_bit; lia|]). constructor.
Qed.

Example hamming_single_flip_at_test_vector :
  Lab3.hamming_decode (flip_at 5 (Lab3.hamming_encode [1; 1; 0; 0; 1; 1; 0; 0]))
  = ([1; 1; 0; 0; 1; 1; 0; 0], true, false).
Proof.
  apply hamming_single_flip; [|reflexivity|vm_compute; lia].
  repeat (constructor; [unfold is_bit; lia|]). constructor.
Qed.

Example hamming_double_flip_at_test_vector :
  exists data,
    Lab3.hamming_decode (flip_at 7 (flip_at 2 (Lab3.hamming_encode [1; 1; 0; 0; 1; 1; 0; 0])))
    = (data, false, true).
Proof.
  apply hamming_double_flip; [|reflexivity|vm_compute; lia|vm_compute; lia|lia].
  repeat (constructor; [unfold is_bit; lia|]). constructor.
Qed.

(** ** The two decoders *)

Lemma extract_data_bits_4_unfold code n :
  Lab4H.extract_data_bits code n
  = (fun i => getitem code i) <$> filter data_index (seqZ 0 n).
Proof.
  unfold Lab4H.extract_data_bits, range. rewrite Z.sub_0_r.
  rewrite (foldl_snoc_filter data_index); [done|].
  intros i. unfold data_index, parity_position. replace (i + 1 - 1) with i by lia.
  by rewrite negb_true_iff, Z.eqb_neq.
Qed.

(** hamming_functions.py returns what 3_LAB returns, followed by the last
    bit of the word unless the length of the word passes the parity
    test. *)
Lemma extract_data_bits_4_vs_3 code n :
  1 <= n ->
  Lab4H.extract_data_bits code n
  = Lab3.extract_data_bits code n
    ++ (if decide (parity_position n) then [] else [getitem code (n - 1)]).
Proof.
  intros Hn. rewrite extract_data_bits_4_unfold, extract_data_bits_unfold.
  rewrite data_indices_but_last by done.
  rewrite (seqZ_last n), filter_app, fmap_app by lia. f_equal.
  assert (Hiff : data_index (n - 1) <-> ~ parity_position n)
    by (unfold data_index; by replace (n - 1 + 1) with n by lia).
  case_decide as Hp.
  - by rewrite filter_cons_False by (rewrite Hiff; by intros ?).
  - by rewrite filter_cons_True by (by rewrite Hiff).
Qed.

(** The two decoders return the same triple exactly on the words whose
    length passes the parity test (0, 1, 2, 4, 8, ...). *)
Theorem decoders_agree_iff bits :
  Lab4H.hamming_decode bits = Lab3.hamming_decode bits <-> parity_position (len bits).
Proof.
  unfold Lab4H.hamming_decode, Lab3.hamming_decode.
  destruct (Lab3.classify bits) as [[e corrected] double_error].
  destruct (decide (len bits = 0)) as [H0|H0].
  - rewrite H0. split; [done|]. intros _. reflexivity.
  - pose proof (len_nonneg bits).
    rewrite extract_data_bits_4_vs_3 by lia. case_decide as Hp.
    + rewrite app_nil_r. done.
    + split; [|done]. intros [= Heq].
      apply (f_equal length) in Heq. rewrite length_app in Heq. simpl in Heq. lia.
Qed.

(** ** Hamming SEC-DED: where the code leaves the contract *)

(** The encoder writes the overall parity at the last position [n], and
    the decoder's syndrome loop runs over all [n] positions, so an overall
    parity bit of 1 adds [n] to the syndrome of an intact codeword. *)

(** C1 at the data word [1]: the codeword is [1; 1; 1; 1], its syndrome
    is 4 and its total parity 0, and the decoder reports a double error
    where (d, false, false) is claimed. *)
Theorem decode_encode_reports_double_error :
  Lab3.hamming_encode [1] = [1; 1; 1; 1] /\
  Lab3.syndrome_of (Lab3.hamming_encode [1]) = 4 /\
  Lab3.total_parity_of (Lab3.hamming_encode [1]) = 0 /\
  Lab3.hamming_decode (Lab3.hamming_encode [1]) = ([1], false, true).
Proof. vm_compute. repeat split. Qed.

(** The four cases of test_hamming.py pass. *)
Lemma test_hamming_cases :
  Lab3.hamming_decode (Lab3.hamming_encode [1; 0; 1; 1; 0; 0; 1; 0])
    = ([1; 0; 1; 1; 0; 0; 1; 0], false, false) /\
  Lab3.hamming_decode (flip_at 5 (Lab3.hamming_encode [1; 1; 0; 0; 1; 1; 0; 0]))
    = ([1; 1; 0; 0; 1; 1; 0; 0], true, false) /\
  (Lab3.hamming_decode (flip_at 7 (flip_at 2 (Lab3.hamming_encode [1; 0; 1; 0; 1; 0; 1; 0])))).2 = true /\
  Lab3.get_sec_ded_hamming_params 80 = (8, 88).
Proof. vm_compute. repeat split. Qed.

(** C3 at the data word [1]: with the bit at index 2 flipped the decoder
    returns the wrong data ([0], true, false); with the bit at index 3
    flipped it reports a double error and no correction. *)
Theorem single_flip_not_corrected :
  Lab3.hamming_decode (flip_at 2 (Lab3.hamming_encode [1])) = ([0], true, false) /\
  Lab3.hamming_decode (flip_at 3 (Lab3.hamming_encode [1])) = ([1], false, true).
Proof. vm_compute. repeat split. Qed.

(** C4 at the data word [1; 0]: the codeword is [1; 1; 1; 0; 0; 1]; with
    the bits at indices 1 and 3 flipped the syndrome is 0 and the total
    parity 0, and the decoder reports no error at all. *)
Theorem double_flip_not_detected :
  Lab3.hamming_encode [1; 0] = [1; 1; 1; 0; 0; 1] /\
  Lab3.hamming_decode (flip_at 3 (flip_at 1 (Lab3.hamming_encode [1; 0]))) = ([1; 0], false, false).
Proof. vm_compute. repeat split. Qed.

(** C10 at the codeword of the first case of test_hamming.py (13 bits):
    3_LAB returns the 8 data bits, hamming_functions.py returns 9 bits,
    the last one being the overall parity bit. *)
Theorem decoders_differ :
  let codeword := Lab3.hamming_encode [1; 0; 1; 1; 0; 0; 1; 0] in
  Lab3.hamming_decode codeword = ([1; 0; 1; 1; 0; 0; 1; 0], false, false) /\
  Lab4H.hamming_decode codeword = ([1; 0; 1; 1; 0; 0; 1; 0; 0], false, false) /\
  Lab3.hamming_decode codeword <> Lab4H.hamming_decode codeword.
Proof. vm_compute. repeat split. discriminate. Qed.

(** The two encoders are the same function, and the two decoders always
    agree on the flags. *)
Lemma encoders_agree d : Lab4H.hamming_encode d = Lab3.hamming_encode d.
Proof. reflexivity. Qed.

Lemma decoders_agree_on_flags bits :
  (Lab4H.hamming_decode bits).1.2 = (Lab3.hamming_decode bits).1.2 /\
  (Lab4H.hamming_decode bits).2 = (Lab3.hamming_decode bits).2.
Proof.
  unfold Lab4H.hamming_decode, Lab3.hamming_decode.
  by destruct (Lab3.classify bits) as [[? ?] ?].
Qed.

(** ** Frames *)

(** C2 at the payload HelloWorld from port 5, with no corruption drawn:
    the frame carries a one-byte FCS (the first eight bits of the
    codeword), and the receive path delivers the payload with its ninth
    byte changed from 108 to 236, flagged as corrected; the same whether
    the frame reaches the handler in one piece or byte by byte. *)
Theorem frame_round_trip_alters_payload :
  let frame := [64; 105; 5; 0; 72; 101; 108; 108; 111; 87; 111; 114; 108; 100; 201] in
  let delivered := {| Lab3F.source_addr := [5];
                      Lab3F.corrected_data := [72; 101; 108; 108; 111; 87; 111; 114; 236; 100];
                      Lab3F.corrected := true;
                      Lab3F.double_error := false |} in
  Lab3F.FCS_LENGTH = 1 /\
  Lab3F.prepare_data [no_corruption] hello_world 5 = Some [frame] /\
  Lab3F.on_data_received_1 [] frame = Some ([], [delivered]) /\
  Lab3F.serial_worker_run frame = Some ([], [delivered]).
Proof. vm_compute. repeat split. Qed.

(** The all-zero payload does make the round trip. *)
Lemma frame_round_trip_zero_payload :
  let frame := [64; 105; 5; 0; 0; 0; 0; 0; 0; 0; 0; 0; 0; 0; 0] in
  Lab3F.prepare_data [no_corruption] (replicate 10 0) 5 = Some [frame] /\
  Lab3F.on_data_received_1 [] frame
    = Some ([], [{| Lab3F.source_addr := [5]; Lab3F.corrected_data := replicate 10 0;
                    Lab3F.corrected := false; Lab3F.double_error := false |}]).
Proof. vm_compute. repeat split. Qed.

(** ** The receive loop *)

Lemma bytes_find_from_bounds buf sub i :
  bytes_find_from buf sub i = -1 \/ i <= bytes_find_from buf sub i <= i + len buf.
Proof.
  revert i. induction buf as [|b buf IH]; intros i.
  - cbn [bytes_find_from]. case_decide; [right | by left]. unfold len. simpl. lia.
  - cbn [bytes_find_from]. case_decide.
    + right. unfold len. simpl. lia.
    + destruct (IH (i + 1)) as [->|Hb]; [by left|]. right.
      unfold len in *. simpl length. lia.
Qed.

Lemma bytes_find_nil : bytes_find [] FLAG = -1.
Proof. reflexivity. Qed.

(** Where the loop cuts the buffer after a parse: at its very end. *)
Lemma next_frame_start_is_end (rx_buffer : list Z) (min_frame_size : Z) :
  let start_index := bytes_find rx_buffer FLAG in
  (start_index =? -1) = false ->
  4 <= min_frame_size ->
  (len rx_buffer - start_index <? min_frame_size) = false ->
  start_index + (4 + len (drop 4 (drop (Z.to_nat start_index) rx_buffer))) = len rx_buffer.
Proof.
  intros start_index Hfound Hmin Hsize.
  apply Z.eqb_neq in Hfound. apply Z.ltb_ge in Hsize.
  destruct (bytes_find_from_bounds rx_buffer FLAG 0) as [?|Hb]; [done|].
  fold (bytes_find rx_buffer FLAG) in Hb. fold start_index in Hb.
  unfold len in *. rewrite !length_drop. lia.
Qed.

(** In 4_LAB: a call of the loop delivers nothing, or delivers one frame
    and leaves the buffer empty. *)
Lemma receive_loop_4_at_most_one fuel rx_buffer delivered rx_buffer' delivered' :
  Lab4F.receive_loop fuel rx_buffer delivered = Some (rx_buffer', delivered') ->
  delivered' = delivered \/
  (exists d, delivered' = delivered ++ [d]) /\ rx_buffer' = [].
Proof.
  destruct fuel as [|fuel]; [done|]. cbn [Lab4F.receive_loop]. cbv zeta.
  destruct (bytes_find rx_buffer FLAG =? -1) eqn:Hfound.
  { case_match; intros [= <- <-]; by left. }
  destruct (len rx_buffer - bytes_find rx_buffer FLAG <? 4 + DATA_LENGTH) eqn:Hsize.
  { intros [= <- <-]; by left. }
  case_match; [intros [= <- <-]; by left|].
  rewrite (next_frame_start_is_end rx_buffer (4 + DATA_LENGTH) Hfound) by done.
  rewrite Z.leb_refl. unfold len. rewrite Nat2Z.id, drop_all.
  destruct fuel as [|fuel]; [done|]. cbn [Lab4F.receive_loop]. cbv zeta.
  rewrite bytes_find_nil. simpl. intros [= <- <-]. right. split; [by eexists | done].
Qed.

(** In 3_LAB: the same. *)
Lemma receive_loop_3_at_most_one fuel rx_buffer delivered rx_buffer' delivered' :
  Lab3F.receive_loop fuel rx_buffer delivered = Some (rx_buffer', delivered') ->
  delivered' = delivered \/
  (exists d, delivered' = delivered ++ [d]) /\ rx_buffer' = [].
Proof.
  destruct fuel as [|fuel]; [done|]. cbn [Lab3F.receive_loop]. cbv zeta.
  destruct (bytes_find rx_buffer FLAG =? -1) eqn:Hfound.
  { case_match; intros [= <- <-]; by left. }
  destruct (len rx_buffer - bytes_find rx_buffer FLAG <? 4 + DATA_LENGTH + Lab3F.FCS_LENGTH) eqn:Hsize.
  { intros [= <- <-]; by left. }
  case_match; [intros [= <- <-]; by left|].
  destruct (Lab3F.verify_fcs _ _) as [[corrected_data corrected] double_error].
  rewrite (next_frame_start_is_end rx_buffer (4 + DATA_LENGTH + Lab3F.FCS_LENGTH) Hfound) by done.
  rewrite Z.leb_refl. unfold len. rewrite Nat2Z.id, drop_all.
  destruct fuel as [|fuel]; [done|]. cbn [Lab3F.receive_loop]. cbv zeta.
  rewrite bytes_find_nil. simpl. intros [= <- <-]. right. split; [by eexists | done].
Qed.

(** The handlers return: two rounds of the loop are always enough. *)
Lemma receive_loop_4_returns fuel rx_buffer delivered :
  is_Some (Lab4F.receive_loop (S (S fuel)) rx_buffer delivered).
Proof.
  cbn [Lab4F.receive_loop]. cbv zeta.
  destruct (bytes_find rx_buffer FLAG =? -1) eqn:Hfound; [by case_match|].
  destruct (len rx_buffer - bytes_find rx_buffer FLAG <? 4 + DATA_LENGTH) eqn:Hsize; [done|].
  case_match; [done|].
  rewrite (next_frame_start_is_end rx_buffer (4 + DATA_LENGTH) Hfound) by done.
  rewrite Z.leb_refl. unfold len. rewrite Nat2Z.id, drop_all.
  rewrite bytes_find_nil. done.
Qed.

Lemma receive_loop_3_returns fuel rx_buffer delivered :
  is_Some (Lab3F.receive_loop (S (S fuel)) rx_buffer delivered).
Proof.
  cbn [Lab3F.receive_loop]. cbv zeta.
  destruct (bytes_find rx_buffer FLAG =? -1) eqn:Hfound; [by case_match|].
  destruct (len rx_buffer - bytes_find rx_buffer FLAG <? 4 + DATA_LENGTH + Lab3F.FCS_LENGTH) eqn:Hsize; [done|].
  case_match; [done|].
  destruct (Lab3F.verify_fcs _ _) as [[corrected_data corrected] double_error].
  rewrite (next_frame_start_is_end rx_buffer (4 + DATA_LENGTH + Lab3F.FCS_LENGTH) Hfound) by done.
  rewrite Z.leb_refl. unfold len. rewrite Nat2Z.id, drop_all.
  rewrite bytes_find_nil. done.
Qed.

Lemma on_data_received_1_lab4_returns rx_buffer data_bytes :
  is_Some (Lab4F.on_data_received_1 rx_buffer data_bytes).
Proof.
  unfold Lab4F.on_data_received_1. destruct (rx_buffer ++ data_bytes) as [|b buf]; [done|].
  replace (length (b :: buf) + 1)%nat with (S (S (length buf))) by (simpl; lia).
  apply receive_loop_4_returns.
Qed.

Lemma on_data_received_1_lab3_returns rx_buffer data_bytes :
  is_Some (Lab3F.on_data_received_1 rx_buffer data_bytes).
Proof.
  unfold Lab3F.on_data_received_1. destruct (rx_buffer ++ data_bytes) as [|b buf]; [done|].
  replace (length (b :: buf) + 1)%nat with (S (S (length buf))) by (simpl; lia).
  apply receive_loop_3_returns.
Qed.

(** So no call of either handler delivers a second frame. *)
Lemma on_data_received_1_lab4_at_most_one rx_buffer data_bytes rx_buffer' delivered :
  Lab4F.on_data_received_1 rx_buffer data_bytes = Some (rx_buffer', delivered) ->
  (length delivered <= 1)%nat /\ (length delivered = 1%nat -> rx_buffer' = []).
Proof.
  intros [->|[[d ->] ->]]%receive_loop_4_at_most_one; simpl; [lia | done].
Qed.

Lemma on_data_received_1_lab3_at_most_one rx_buffer data_bytes rx_buffer' delivered :
  Lab3F.on_data_received_1 rx_buffer data_bytes = Some (rx_buffer', delivered) ->
  (length delivered <= 1)%nat /\ (length delivered = 1%nat -> rx_buffer' = []).
Proof.
  intros [->|[[d ->] ->]]%receive_loop_3_at_most_one; simpl; [lia | done].
Qed.


(** Read one byte at a time, as SerialWorker emits them, each frame is
    parsed as soon as it is complete, and both frames are delivered. *)
Lemma both_frames_delivered_bytewise :
  let frame4 := [64; 105; 5; 0; 72; 101; 108; 108; 111; 87; 111; 114; 108; 100] in
  Lab4F.serial_worker_run (frame4 ++ frame4)
    = Some ([], [{| Lab4F.source_addr := [5]; Lab4F.received_data := hello_world |};
                 {| Lab4F.source_addr := [5]; Lab4F.received_data := hello_world |}]).
Proof. vm_compute. reflexivity. Qed.

(** The handler of 2_LAB cuts the buffer after the 15 bytes of its frame
    and does deliver a second frame that came in the same call. *)
Lemma fixed_length_handler_delivers_both :
  let frame2 := Lab2F.prepare_frame [5] hello_world in
  frame2 = [64; 105; 5; 0; 72; 101; 108; 108; 111; 87; 111; 114; 108; 100; 0] /\
  Lab2F.on_data_received_1 [] (frame2 ++ frame2)
    = Some ([], [{| Lab2F.source_addr := [5]; Lab2F.unstuffed_data := hello_world |};
                 {| Lab2F.source_addr := [5]; Lab2F.unstuffed_data := hello_world |}]).
Proof. vm_compute. repeat split. Qed.

(** * Further properties *)

(** ** Code parameters *)

Lemma parity_loop_tested fuel m r r0 :
  r <= r0 < parity_loop fuel m r -> 2 ^ r0 < m + r0 + 1.
Proof.
  revert r. induction fuel as [|fuel IH]; intros r Hr0; simpl in Hr0; [lia|].
  destruct (2 ^ r <? m + r + 1) eqn:Hlt; [|lia].
  apply Z.ltb_lt in Hlt. destruct (decide (r0 = r)) as [->|Hne]; [done|].
  apply (IH (r + 1)). lia.
Qed.

(** X1. For [m >= 0] data bits get_sec_ded_hamming_params returns
    [(r + 1, m + r + 1)] where [r] is the least non-negative integer
    with [2^r >= m + r + 1]. *)
Theorem hamming_params_least (m : Z) :
  0 <= m ->
  exists r,
    Lab3.get_sec_ded_hamming_params m = (r + 1, m + r + 1) /\
    0 <= r /\
    m + r + 1 <= 2 ^ r /\
    (forall r0, 0 <= r0 < r -> 2 ^ r0 < m + r0 + 1).
Proof.
  intros Hm. exists (standard_parity_bits_of m).
  destruct (standard_parity_bits_spec m Hm) as (H1 & H2 & _).
  split; [|split; [done|split; [done|]]].
  - unfold Lab3.get_sec_ded_hamming_params. f_equal. lia.
  - intros r0 Hr0. by apply (parity_loop_tested (Z.to_nat m + 2) m 0).
Qed.

Lemma hamming_params_least_witness :
  exists r,
    Lab3.get_sec_ded_hamming_params 80 = (r + 1, 80 + r + 1) /\
    0 <= r /\
    80 + r + 1 <= 2 ^ r /\
    (forall r0, 0 <= r0 < r -> 2 ^ r0 < 80 + r0 + 1).
Proof. apply (hamming_params_least 80). lia. Defined.

(** ** Length of the codeword *)

Lemma place_step_length data idxs st :
  length (foldl (place_step data) st idxs).1 = length st.1.
Proof.
  revert st. induction idxs as [|i idxs IH]; intros st; [done|].
  cbn [foldl]. rewrite IH. unfold place_step. case_match; [|done].
  cbn [fst]. unfold setitem. apply length_insert.
Qed.

Lemma place_data_bits_length data n code :
  length (Lab3.place_data_bits data n code) = length code.
Proof. rewrite place_data_bits_unfold. apply place_step_length. Qed.

Lemma place_parity_bits_length r n code :
  length (Lab3.place_parity_bits r n code) = length code.
Proof.
  unfold Lab3.place_parity_bits. generalize (range 0 r). intros l.
  revert code. induction l as [|i l IH]; intros code; [done|].
  cbn [foldl]. rewrite IH. cbv zeta. case_match; [|done].
  unfold setitem. apply length_insert.
Qed.

Lemma len_hamming_encode (d : list Z) : len (Lab3.hamming_encode d) = code_length d.
Proof.
  unfold Lab3.hamming_encode, Lab3.calculate_hamming_parity_bits, code_length. cbv zeta.
  unfold len, setitem.
  rewrite length_insert, place_parity_bits_length, place_data_bits_length, length_replicate.
  destruct (standard_parity_bits_spec (len d) (len_nonneg d)) as (H1 & _).
  unfold len in *. lia.
Qed.

(** X2. For every list [d], whatever its elements, hamming_encode returns
    a list whose length is the code length get_sec_ded_hamming_params
    gives for [len d] data bits; the encoder of hamming_functions.py
    returns the same list. *)
Theorem hamming_encode_length (d : list Z) :
  len (Lab3.hamming_encode d) = (Lab3.get_sec_ded_hamming_params (len d)).2 /\
  Lab4H.hamming_encode d = Lab3.hamming_encode d.
Proof.
  split; [|reflexivity]. rewrite len_hamming_encode.
  unfold Lab3.get_sec_ded_hamming_params, code_length. cbn [snd]. lia.
Qed.

(** ** The codeword and the decoder *)

(** X3. For every list of bits [d] the codeword hamming_encode returns
    consists of bits, has even overall parity (XOR of all its bits is 0),
    and its syndrome, as hamming_decode computes it, is 0 when its last
    bit is 0 and the code length [n] when its last bit is 1. *)
Theorem hamming_encode_invariants (d : list Z) :
  Forall is_bit d ->
  let c := Lab3.hamming_encode d in
  Forall is_bit c /\
  Lab3.total_parity_of c = 0 /\
  Lab3.syndrome_of c = (if getitem c (len c - 1) =? 0 then 0 else len c).
Proof.
  intros Hd c. destruct (hamming_encode_spec d Hd) as (Hlen & _ & Hbits & Hpar & Hsyn & _).
  fold c in Hlen, Hbits, Hpar, Hsyn. unfold overall_parity_bit in Hsyn. fold c in Hsyn.
  by rewrite Hlen.
Qed.

Lemma hamming_encode_invariants_witness :
  let c := Lab3.hamming_encode [1; 0; 1] in
  Forall is_bit c /\
  Lab3.total_parity_of c = 0 /\
  Lab3.syndrome_of c = (if getitem c (len c - 1) =? 0 then 0 else len c).
Proof. apply (hamming_encode_invariants [1; 0; 1]). all_bits. Defined.

(** X4. For every list of bits [d], hamming_decode of hamming_encode of
    [d] returns the data [d] unchanged, reports no correction, and
    reports a double error exactly when the last (overall parity) bit of
    the codeword is 1. *)
Theorem decode_encode_characterised (d : list Z) :
  Forall is_bit d ->
  Lab3.hamming_decode (Lab3.hamming_encode d)
  = (d, false, negb (getitem (Lab3.hamming_encode d) (len (Lab3.hamming_encode d) - 1) =? 0)).
Proof.
  intros Hd. rewrite hamming_round_trip by done.
  destruct (hamming_encode_spec d Hd) as (-> & _). done.
Qed.

Lemma decode_encode_characterised_witness :
  Lab3.hamming_decode (Lab3.hamming_encode [1; 0; 1; 1])
  = ([1; 0; 1; 1], false,
     negb (getitem (Lab3.hamming_encode [1; 0; 1; 1]) (len (Lab3.hamming_encode [1; 0; 1; 1]) - 1) =? 0)).
Proof. apply (decode_encode_characterised [1; 0; 1; 1]). all_bits. Defined.

(** X5. For every list of bits [d] whose codeword ends in overall parity
    bit 0, and every index [i] into the codeword, hamming_decode of the
    codeword with the bit at [i] inverted returns [(d, true, false)]. *)
Theorem single_error_corrected (d : list Z) (i : nat) :
  Forall is_bit d ->
  getitem (Lab3.hamming_encode d) (len (Lab3.hamming_encode d) - 1) = 0 ->
  (i < length (Lab3.hamming_encode d))%nat ->
  Lab3.hamming_decode (flip_at i (Lab3.hamming_encode d)) = (d, true, false).
Proof.
  intros Hd Hp Hi. apply hamming_single_flip; [done| |done].
  unfold overall_parity_bit. destruct (hamming_encode_spec d Hd) as (Hlen & _).
  by rewrite <- Hlen.
Qed.

Lemma single_error_corrected_witness :
  Lab3.hamming_decode (flip_at 4 (Lab3.hamming_encode [1; 1; 0; 0; 1; 1; 0; 0]))
  = ([1; 1; 0; 0; 1; 1; 0; 0], true, false).
Proof.
  apply (single_error_corrected [1; 1; 0; 0; 1; 1; 0; 0] 4);
    [all_bits | reflexivity | vm_compute; lia].
Defined.

(** X6. For every list of bits [d] whose codeword ends in overall parity
    bit 0, and every two different indices into the codeword,
    hamming_decode of the codeword with both bits inverted reports a
    double error and no correction. *)
Theorem double_error_detected (d : list Z) (i j : nat) :
  Forall is_bit d ->
  getitem (Lab3.hamming_encode d) (len (Lab3.hamming_encode d) - 1) = 0 ->
  (i < length (Lab3.hamming_encode d))%nat ->
  (j < length (Lab3.hamming_encode d))%nat ->
  i <> j ->
  (Lab3.hamming_decode (flip_at j (flip_at i (Lab3.hamming_encode d)))).1.2 = false /\
  (Lab3.hamming_decode (flip_at j (flip_at i (Lab3.hamming_encode d)))).2 = true.
Proof.
  intros Hd Hp Hi Hj Hij.
  destruct (hamming_double_flip d i j) as (data & ->); [done| |done..|done].
  unfold overall_parity_bit. destruct (hamming_encode_spec d Hd) as (Hlen & _).
  by rewrite <- Hlen.
Qed.

Lemma double_error_detected_witness :
  (Lab3.hamming_decode (flip_at 9 (flip_at 0 (Lab3.hamming_encode [1; 1; 0; 0; 1; 1; 0; 0])))).1.2 = false /\
  (Lab3.hamming_decode (flip_at 9 (flip_at 0 (Lab3.hamming_encode [1; 1; 0; 0; 1; 1; 0; 0])))).2 = true.
Proof.
  apply (double_error_detected [1; 1; 0; 0; 1; 1; 0; 0] 0 9);
    [all_bits | reflexivity | vm_compute; lia | vm_compute; lia | lia].
Defined.

Lemma classify_length w : length (Lab3.classify w).1.1 = length w.
Proof.
  unfold Lab3.classify. cbv zeta.
  repeat case_match; cbn [fst]; try done. unfold setitem. apply length_insert.
Qed.

Lemma hamming_decode_data_length (m : Z) (w : list Z) :
  0 <= m ->
  len w = m + standard_parity_bits_of m + 1 ->
  len (Lab3.hamming_decode w).1.1 = m.
Proof.
  intros Hm Hlen. unfold Lab3.hamming_decode.
  destruct (Lab3.classify w) as [[e corrected] double_error]. cbn [fst].
  rewrite extract_data_bits_unfold, Hlen.
  destruct (standard_parity_bits_spec m Hm) as (Hr & _).
  rewrite data_indices_but_last by lia.
  unfold len. rewrite length_fmap.
  rewrite (data_count (replicate (Z.to_nat m) 0) m (standard_parity_bits_of m));
    [lia | unfold len; rewrite length_replicate; lia | done | done].
Qed.

(** X7. Whatever the received word holds (any integers, any number of
    corrupted positions), as long as its length is the code length for
    [m] data bits, hamming_decode returns exactly [m] data bits. *)
Theorem decode_returns_m_bits (m : Z) (w : list Z) :
  0 <= m ->
  len w = (Lab3.get_sec_ded_hamming_params m).2 ->
  len (Lab3.hamming_decode w).1.1 = m.
Proof.
  intros Hm Hlen. apply hamming_decode_data_length; [done|].
  rewrite Hlen. unfold Lab3.get_sec_ded_hamming_params. cbn [snd]. lia.
Qed.

Lemma decode_returns_m_bits_witness :
  len (Lab3.hamming_decode [7; 0; 1; 1; -3; 1]).1.1 = 2.
Proof. apply (decode_returns_m_bits 2 [7; 0; 1; 1; -3; 1]); [lia | reflexivity]. Defined.

(** X8. hamming_decode of hamming_functions.py and hamming_decode of
    3_LAB return the same flags on every word; they return the same data
    bits exactly on the words whose length [n] satisfies
    [n & (n - 1) == 0], and on every other word hamming_functions.py
    returns the data bits of 3_LAB followed by one more bit. *)
Theorem lab4_decoder_against_lab3 (bits : list Z) :
  (Lab4H.hamming_decode bits).1.2 = (Lab3.hamming_decode bits).1.2 /\
  (Lab4H.hamming_decode bits).2 = (Lab3.hamming_decode bits).2 /\
  (Z.land (len bits) (len bits - 1) = 0 ->
     (Lab4H.hamming_decode bits).1.1 = (Lab3.hamming_decode bits).1.1) /\
  (Z.land (len bits) (len bits - 1) <> 0 ->
     exists b, (Lab4H.hamming_decode bits).1.1 = (Lab3.hamming_decode bits).1.1 ++ [b]).
Proof.
  unfold Lab4H.hamming_decode, Lab3.hamming_decode.
  destruct (Lab3.classify bits) as [[e corrected] double_error]. cbn [fst snd].
  split; [done|]. split; [done|].
  destruct (decide (len bits = 0)) as [H0|H0].
  - rewrite H0. split; [done|]. intros H. by exfalso.
  - pose proof (len_nonneg bits).
    rewrite extract_data_bits_4_vs_3 by lia. fold (parity_position (len bits)).
    case_decide as Hp; split; try done.
    + intros _. by rewrite app_nil_r.
    + intros _. by eexists.
Qed.

Lemma classify_even_parity w :
  Lab3.total_parity_of w = 0 -> (Lab3.classify w).1.1 = w.
Proof.
  intros H. unfold Lab3.classify. cbv zeta. rewrite H.
  change (0 =? 1) with false. rewrite andb_false_r.
  by repeat case_match.
Qed.

(** X9. For every list of bits [d], the round trip through
    hamming_functions.py returns [d] followed by the overall parity bit
    of the codeword, unless the code length [n] satisfies
    [n & (n - 1) == 0], in which case it returns [d]; it reports no
    correction, and a double error exactly when the overall parity bit
    is 1. *)
Theorem lab4_decode_encode (d : list Z) :
  Forall is_bit d ->
  let c := Lab4H.hamming_encode d in
  Lab4H.hamming_decode c
  = (d ++ (if decide (Z.land (len c) (len c - 1) = 0) then [] else [getitem c (len c - 1)]),
     false, negb (getitem c (len c - 1) =? 0)).
Proof.
  intros Hd c. assert (Hc : c = Lab3.hamming_encode d) by reflexivity.
  pose proof (hamming_round_trip d Hd) as Hrt.
  destruct (hamming_encode_spec d Hd) as (Hlen & Hn & _ & Hpar & _).
  rewrite <- Hc in Hrt, Hlen, Hpar. unfold overall_parity_bit in Hrt. rewrite <- Hc, <- Hlen in Hrt.
  pose proof (classify_even_parity c Hpar) as He.
  unfold Lab4H.hamming_decode. unfold Lab3.hamming_decode in Hrt.
  destruct (Lab3.classify c) as [[e corrected] double_error]. cbn [fst] in He. subst e.
  injection Hrt as Hdata -> ->.
  rewrite extract_data_bits_4_vs_3 by lia. rewrite Hdata.
  unfold parity_position. by case_decide.
Qed.

Lemma lab4_decode_encode_witness :
  let c := Lab4H.hamming_encode [1; 0; 1; 1] in
  Lab4H.hamming_decode c
  = ([1; 0; 1; 1] ++ (if decide (Z.land (len c) (len c - 1) = 0) then [] else [getitem c (len c - 1)]),
     false, negb (getitem c (len c - 1) =? 0)).
Proof. apply (lab4_decode_encode [1; 0; 1; 1]). all_bits. Defined.

(** ** Stuffed data *)

Lemma len_app {A} (x y : list A) : len (x ++ y) = len x + len y.
Proof. unfold len. rewrite length_app. lia. Qed.

Lemma len_cons {A} (a : A) (x : list A) : len (a :: x) = 1 + len x.
Proof. unfold len. simpl length. lia. Qed.

Lemma stuff_length x : len (stuff x) = len x + len (filter reserved x).
Proof.
  induction x as [|b x IH]; [done|].
  rewrite stuff_cons, len_app, IH, filter_cons, len_cons.
  repeat case_decide; try done; rewrite ?len_cons; unfold len; simpl length; lia.
Qed.

(** X10. The stuffing loop of prepare_data lengthens the data by one
    byte for every reserved byte (FLAG_START, FLAG_END, ESC) in it and by
    nothing else: the stuffed length is the length plus the number of
    reserved bytes, hence between the length and twice the length. *)
Theorem stuffed_length (x : list Z) :
  len (stuff x) = len x + len (filter reserved x) /\
  len x <= len (stuff x) <= 2 * len x.
Proof.
  split; [apply stuff_length|]. rewrite stuff_length.
  pose proof (length_filter reserved x). unfold len. lia.
Qed.

Lemma flag_prefix_cons a buf : FLAG `prefix_of` a :: buf <-> a = 64 /\ head buf = Some 105.
Proof.
  change FLAG with [64; 105]. split.
  - intros [k Hk]. simpl in Hk. injection Hk as -> ->. done.
  - intros [-> Hb]. destruct buf as [|b buf]; [done|]. injection Hb as ->.
    by exists buf.
Qed.

Lemma flag_prefix_nil : ~ FLAG `prefix_of` ([] : list Z).
Proof. intros [k Hk]. done. Qed.

Lemma head_stuff x : head (stuff x) <> Some 105.
Proof.
  destruct x as [|b x]; [done|]. rewrite stuff_cons.
  case_decide as Hb; simpl; [done|]. intros [= ->]. apply Hb. unfold reserved. auto.
Qed.

Lemma bytes_find_from_stuff x i : bytes_find_from (stuff x) FLAG i = -1.
Proof.
  revert i. induction x as [|b x IH]; intros i.
  - cbn. rewrite decide_False; [done | apply flag_prefix_nil].
  - rewrite stuff_cons. pose proof (head_stuff x) as Hh.
    case_decide as Hb; cbn [app bytes_find_from].
    + rewrite decide_False by (rewrite flag_prefix_cons; intros [? _]; done).
      rewrite decide_False by (rewrite flag_prefix_cons; intros [_ ?]; done).
      apply IH.
    + rewrite decide_False; [apply IH|].
      rewrite flag_prefix_cons. intros [-> _]. apply Hb. unfold reserved. auto.
Qed.

(** X11. Stuffed data never holds the two-byte flag: [find(FLAG)]
    on it is -1; and in a frame (flag, any source address byte,
    destination address, stuffed data) the flag occurs nowhere after the
    first byte: the only flag of a frame is the one it starts with. *)
Theorem stuffed_data_holds_no_flag (x : list Z) :
  bytes_find (stuff x) FLAG = -1 /\
  (forall a, bytes_find (drop 1 (FLAG ++ [a] ++ DEST_ADDR ++ stuff x)) FLAG = -1).
Proof.
  split; [apply bytes_find_from_stuff|]. intros a. unfold bytes_find.
  change (drop 1 (FLAG ++ [a] ++ DEST_ADDR ++ stuff x)) with (105 :: a :: 0 :: stuff x).
  cbn [bytes_find_from].
  rewrite decide_False by (rewrite flag_prefix_cons; intros [? _]; done).
  rewrite decide_False by (rewrite flag_prefix_cons; intros [_ ?]; done).
  rewrite decide_False by (rewrite flag_prefix_cons; intros [? _]; done).
  apply bytes_find_from_stuff.
Qed.

Lemma destuff_stuff_app x rest : destuff (stuff x ++ rest) = x ++ destuff rest.
Proof.
  induction x as [|b x IH]; [done|].
  rewrite stuff_cons. case_decide as Hres; cbn [app].
  - by rewrite destuff_cons_escaped, IH.
  - rewrite destuff_cons_plain, IH; [done|].
    intros ->. apply Hres. unfold reserved. auto.
Qed.

(** X12. The unstuffing loop applied to stuffed data followed by any
    bytes returns the data followed by what it returns on those bytes;
    and stuffing a concatenation is concatenating the stuffed parts. *)
Theorem unstuff_stuffed_prefix (x rest : list Z) :
  unstuff (stuff x ++ rest) = x ++ unstuff rest /\
  stuff (x ++ rest) = stuff x ++ stuff rest.
Proof.
  split; [|apply stuff_app]. rewrite !unstuff_destuff. apply destuff_stuff_app.
Qed.

Lemma destuff_cons_cons a b rest :
  destuff (a :: b :: rest)
  = match UNSTUFF_MAP !! [a; b] with
    | Some original => original ++ destuff rest
    | None => a :: destuff (b :: rest)
    end.
Proof. reflexivity. Qed.

Lemma destuff_length_aux (k : nat) : forall raw,
  (length raw <= k)%nat ->
  len (destuff raw) <= len raw <= 2 * len (destuff raw) /\
  (27 ∉ raw -> destuff raw = raw).
Proof.
  induction k as [|k IH]; intros raw Hk.
  - destruct raw; [|simpl in Hk; lia]. done.
  - destruct raw as [|a [|b rest]]; [done | |].
    + split; [done|]. done.
    + rewrite destuff_cons_cons, UNSTUFF_MAP_lookup. simpl in Hk.
      case_decide as Hd.
      * destruct (IH rest) as [Hl _]; [lia|]. split.
        -- unfold len in *. rewrite length_app. simpl length. lia.
        -- intros Hn. destruct Hd as [-> _]. exfalso. apply Hn. by left.
      * destruct (IH (b :: rest)) as [Hl He]; [simpl; lia|]. split.
        -- unfold len in *. simpl length in *. lia.
        -- intros Hn. rewrite He; [done|]. intros ?. apply Hn. by right.
Qed.

(** X13. The unstuffing loop never returns more bytes than it is
    given and never fewer than half of them; input that holds no ESC byte
    is returned unchanged. *)
Theorem unstuff_length_bounds (raw : list Z) :
  len (unstuff raw) <= len raw <= 2 * len (unstuff raw) /\
  (27 ∉ raw -> unstuff raw = raw).
Proof. rewrite unstuff_destuff. by apply (destuff_length_aux (length raw)). Qed.

(** ** Frames of 4_LAB *)

Lemma bytes_find_flag_front rest : bytes_find (FLAG ++ rest) FLAG = 0.
Proof.
  unfold bytes_find. change (FLAG ++ rest) with (64 :: 105 :: rest).
  cbn [bytes_find_from]. rewrite decide_True; [done|]. by apply flag_prefix_cons.
Qed.

Lemma zero_padded_length chunk : len chunk <= DATA_LENGTH -> len (zero_padded chunk) = DATA_LENGTH.
Proof.
  intros Hc. unfold zero_padded. destruct (len chunk <? DATA_LENGTH) eqn:Hlt.
  - rewrite len_app. unfold len at 2. rewrite length_replicate. pose proof (len_nonneg chunk). lia.
  - apply Z.ltb_ge in Hlt. lia.
Qed.

Lemma slice_prefix {A} (x y : list A) : slice (x ++ y) 0 (len x) = x.
Proof.
  unfold slice, len. change (Z.to_nat 0) with 0%nat. rewrite drop_0, Nat.sub_0_r, Nat2Z.id.
  by rewrite take_app_length.
Qed.

Lemma unstuff_length raw : len (unstuff raw) <= len raw.
Proof. rewrite unstuff_destuff. by apply (destuff_length_aux (length raw)). Qed.

(** A buffer that starts with a header and holds at least a payload. *)
Lemma frame_parsed_raw_lab4 (a : Z) (raw : list Z) (delivered : list Lab4F.delivery) (fuel : nat) :
  DATA_LENGTH <= len (unstuff raw) ->
  Lab4F.receive_loop (S (S fuel)) (FLAG ++ [a] ++ DEST_ADDR ++ raw) delivered
  = Some ([], delivered ++ [{| Lab4F.source_addr := [a];
                               Lab4F.received_data := slice (unstuff raw) 0 DATA_LENGTH |}]).
Proof.
  intros Hlen. pose proof (unstuff_length raw) as Hraw.
  set (rx := FLAG ++ [a] ++ DEST_ADDR ++ raw).
  assert (Hrx : len rx = 4 + len raw) by (unfold rx, len; simpl length; lia).
  cbn [Lab4F.receive_loop]. cbv zeta.
  assert (Hfind : bytes_find rx FLAG = 0) by apply bytes_find_flag_front.
  rewrite Hfind. change (0 =? -1) with false. cbv iota.
  assert (Hmin : (len rx - 0 <? 4 + DATA_LENGTH) = false) by (apply Z.ltb_ge; lia).
  rewrite Hmin. change (Z.to_nat 0) with 0%nat. rewrite drop_0.
  change (drop 4 rx) with raw. change (slice rx 2 3) with [a].
  assert (Hge : (len (unstuff raw) <? DATA_LENGTH) = false) by (apply Z.ltb_ge; lia).
  rewrite Hge.
  assert (Hnext : (0 + (4 + len raw) <=? len rx) = true) by (apply Z.leb_le; lia).
  rewrite Hnext.
  replace (Z.to_nat (0 + (4 + len raw))) with (length rx) by (unfold len in *; lia).
  rewrite drop_all. by rewrite bytes_find_nil.
Qed.

Lemma frame_parsed_lab4 (a : Z) (payload rest : list Z) (delivered : list Lab4F.delivery) (fuel : nat) :
  len payload = DATA_LENGTH ->
  Lab4F.receive_loop (S (S fuel)) (FLAG ++ [a] ++ DEST_ADDR ++ stuff payload ++ rest) delivered
  = Some ([], delivered ++ [{| Lab4F.source_addr := [a]; Lab4F.received_data := payload |}]).
Proof.
  intros Hlen.
  assert (Hun : unstuff (stuff payload ++ rest) = payload ++ unstuff rest).
  { rewrite !unstuff_destuff. apply destuff_stuff_app. }
  rewrite frame_parsed_raw_lab4.
  - rewrite Hun. rewrite <- Hlen. by rewrite slice_prefix.
  - rewrite Hun, len_app. pose proof (len_nonneg (unstuff rest)). lia.
Qed.

(** X14. 4_LAB: the frame prepare_data builds for a chunk of at most
    DATA_LENGTH bytes and any source address byte, handed to
    on_data_received_1 with an empty buffer and followed by any bytes in
    the same call, is delivered as one frame with that source address
    and the chunk padded with zeros to DATA_LENGTH bytes; the buffer is
    left empty, so the bytes that followed the frame are dropped. *)
Theorem frame_round_trip_lab4 (a : Z) (chunk rest : list Z) :
  len chunk <= DATA_LENGTH ->
  Lab4F.on_data_received_1 [] (Lab4F.prepare_frame [a] chunk ++ rest)
  = Some ([], [{| Lab4F.source_addr := [a]; Lab4F.received_data := zero_padded chunk |}]).
Proof.
  intros Hc. unfold Lab4F.on_data_received_1, Lab4F.prepare_frame. cbv zeta.
  fold (zero_padded chunk). rewrite app_nil_l.
  rewrite <- !(assoc_L (++)).
  replace (length (FLAG ++ [a] ++ DEST_ADDR ++ stuff (zero_padded chunk) ++ rest) + 1)%nat
    with (S (S (length ([a] ++ DEST_ADDR ++ stuff (zero_padded chunk) ++ rest) + 1)))
    by (simpl length; lia).
  rewrite frame_parsed_lab4 by (by apply zero_padded_length). done.
Qed.

Lemma frame_round_trip_lab4_witness :
  Lab4F.on_data_received_1 [] (Lab4F.prepare_frame [5] [64; 27; 105] ++ [1; 2; 3])
  = Some ([], [{| Lab4F.source_addr := [5]; Lab4F.received_data := zero_padded [64; 27; 105] |}]).
Proof. apply (frame_round_trip_lab4 5 [64; 27; 105] [1; 2; 3]). vm_compute. discriminate. Defined.

(** ** Chunks *)

Lemma chunks_of_unfold data :
  chunks_of data
  = (fun k => take 10 (drop (10 * Z.to_nat k)%nat data)) <$> seqZ 0 ((len data + 9) `div` 10).
Proof.
  unfold chunks_of, range_step. change DATA_LENGTH with 10.
  replace (len data + 10 - 1) with (len data + 9) by lia.
  rewrite <- list_fmap_compose. apply list_fmap_ext.
  intros i k [-> Hk]%lookup_seqZ. simpl. unfold slice.
  f_equal; [lia | f_equal; lia].
Qed.

Lemma chunks_upto (data : list Z) (k : nat) :
  concat ((fun k => take 10 (drop (10 * Z.to_nat k)%nat data)) <$> seqZ 0 (Z.of_nat k))
  = take (10 * k)%nat data.
Proof.
  induction k as [|k IH]; [done|].
  rewrite Nat2Z.inj_succ, <- Z.add_1_r.
  rewrite seqZ_app by lia. rewrite fmap_app, concat_app, IH.
  change (seqZ (0 + Z.of_nat k) 1) with [0 + Z.of_nat k]. rewrite fmap_cons, fmap_nil.
  simpl concat. rewrite app_nil_r. rewrite Z.add_0_l, Nat2Z.id.
  rewrite take_take_drop. f_equal. lia.
Qed.

Lemma concat_chunks_of data : concat (chunks_of data) = data.
Proof.
  rewrite chunks_of_unfold.
  pose proof (len_nonneg data) as Hn.
  assert (Hk : 0 <= (len data + 9) `div` 10) by (apply Z.div_pos; lia).
  rewrite <- (Z2Nat.id _ Hk). rewrite chunks_upto.
  apply take_ge. unfold len in *.
  pose proof (Z.mul_div_le (Z.of_nat (length data) + 9) 10 ltac:(lia)).
  pose proof (Z.mod_pos_bound (Z.of_nat (length data) + 9) 10 ltac:(lia)).
  pose proof (Z.div_mod (Z.of_nat (length data) + 9) 10 ltac:(lia)).
  lia.
Qed.

Lemma chunks_of_length data : len (chunks_of data) = (len data + 9) `div` 10.
Proof.
  rewrite chunks_of_unfold. unfold len. rewrite length_fmap, length_seqZ.
  apply Z2Nat.id, Z.div_pos; lia.
Qed.

Lemma chunks_of_lookup data (i : nat) c :
  chunks_of data !! i = Some c ->
  c = take 10 (drop (10 * i)%nat data) /\ (10 * i < length data)%nat.
Proof.
  rewrite chunks_of_unfold, list_lookup_fmap.
  destruct (seqZ 0 ((len data + 9) `div` 10) !! i) as [k|] eqn:Hk; [|done].
  apply lookup_seqZ in Hk as [-> Hi]. simpl. intros [= <-].
  rewrite Z.add_0_l, Nat2Z.id. split; [done|].
  unfold len in Hi.
  pose proof (Z.mul_div_le (Z.of_nat (length data) + 9) 10 ltac:(lia)). lia.
Qed.

Lemma chunks_of_chunk_length data (i : nat) c :
  chunks_of data !! i = Some c ->
  1 <= len c <= DATA_LENGTH /\ (S i < length (chunks_of data) -> len c = DATA_LENGTH)%nat.
Proof.
  intros Hc. pose proof (chunks_of_length data) as Hlen.
  apply chunks_of_lookup in Hc as [-> Hi]. change DATA_LENGTH with 10.
  unfold len in *. rewrite length_take, length_drop. split; [lia|].
  intros Hnext.
  pose proof (Z.mul_div_le (Z.of_nat (length data) + 9) 10 ltac:(lia)).
  pose proof (Z.mod_pos_bound (Z.of_nat (length data) + 9) 10 ltac:(lia)).
  pose proof (Z.div_mod (Z.of_nat (length data) + 9) 10 ltac:(lia)).
  lia.
Qed.

(** X15. prepare_data of 4_LAB builds one frame for each chunk of
    the data, with the source address of the port number; the chunks
    concatenated are the data; there are ceil(len(data) / DATA_LENGTH)
    of them, each of 1 to DATA_LENGTH bytes, and all but the last of
    exactly DATA_LENGTH bytes. *)
Theorem prepare_data_lab4_frames (data : list Z) (source_port_num : Z) :
  exists chunks,
    Lab4F.prepare_data data source_port_num
      = Lab4F.prepare_frame (Lab4F.source_addr_of source_port_num) <$> chunks /\
    concat chunks = data /\
    len chunks = (len data + DATA_LENGTH - 1) `div` DATA_LENGTH /\
    (forall (i : nat) c, chunks !! i = Some c ->
       1 <= len c <= DATA_LENGTH /\ (S i < length chunks -> len c = DATA_LENGTH)%nat).
Proof.
  exists (chunks_of data). split; [done|]. split; [apply concat_chunks_of|].
  split; [|apply chunks_of_chunk_length].
  rewrite chunks_of_length. change DATA_LENGTH with 10. f_equal. lia.
Qed.

(** ** Outcomes of one call of the handler *)

Lemma receive_loop_outcomes_lab4 (fuel : nat) (buf : list Z) :
  Lab4F.receive_loop (S (S fuel)) buf [] = Some (buf, []) \/
  (bytes_find buf FLAG = -1 /\ 100 < len buf /\
   Lab4F.receive_loop (S (S fuel)) buf [] = Some (drop (length buf - 50) buf, [])) \/
  (bytes_find buf FLAG <> -1 /\
   exists d, Lab4F.receive_loop (S (S fuel)) buf [] = Some ([], [d])).
Proof.
  cbn [Lab4F.receive_loop]. cbv zeta.
  destruct (bytes_find buf FLAG =? -1) eqn:Hfound.
  { apply Z.eqb_eq in Hfound. destruct (100 <? len buf) eqn:Hlong; [|by left].
    apply Z.ltb_lt in Hlong. right. left. done. }
  destruct (len buf - bytes_find buf FLAG <? 4 + DATA_LENGTH) eqn:Hsize; [by left|].
  case_match; [by left|].
  rewrite (next_frame_start_is_end buf (4 + DATA_LENGTH) Hfound) by done.
  rewrite Z.leb_refl. unfold len. rewrite Nat2Z.id, drop_all.
  rewrite bytes_find_nil. right. right. apply Z.eqb_neq in Hfound.
  split; [done|]. by eexists.
Qed.

Lemma receive_loop_outcomes_lab3 (fuel : nat) (buf : list Z) :
  Lab3F.receive_loop (S (S fuel)) buf [] = Some (buf, []) \/
  (bytes_find buf FLAG = -1 /\ 100 < len buf /\
   Lab3F.receive_loop (S (S fuel)) buf [] = Some (drop (length buf - 50) buf, [])) \/
  (bytes_find buf FLAG <> -1 /\
   exists d, Lab3F.receive_loop (S (S fuel)) buf [] = Some ([], [d])).
Proof.
  cbn [Lab3F.receive_loop]. cbv zeta.
  destruct (bytes_find buf FLAG =? -1) eqn:Hfound.
  { apply Z.eqb_eq in Hfound. destruct (100 <? len buf) eqn:Hlong; [|by left].
    apply Z.ltb_lt in Hlong. right. left. done. }
  destruct (len buf - bytes_find buf FLAG <? 4 + DATA_LENGTH + Lab3F.FCS_LENGTH) eqn:Hsize; [by left|].
  case_match; [by left|].
  destruct (Lab3F.verify_fcs _ _) as [[corrected_data corrected] double_error].
  rewrite (next_frame_start_is_end buf (4 + DATA_LENGTH + Lab3F.FCS_LENGTH) Hfound) by done.
  rewrite Z.leb_refl. unfold len. rewrite Nat2Z.id, drop_all.
  rewrite bytes_find_nil. right. right. apply Z.eqb_neq in Hfound.
  split; [done|]. by eexists.
Qed.

(** X16. A call of on_data_received_1 (4_LAB and 3_LAB alike) always
    returns, and in one of three ways: it leaves the buffer as extended
    by the bytes of the call and delivers nothing; or the buffer holds no
    flag and more than 100 bytes, and it keeps the last 50 bytes and
    delivers nothing; or the buffer holds a flag, and it delivers exactly
    one frame and leaves the buffer empty. *)
Theorem handler_outcomes (rx_buffer data_bytes : list Z) :
  let buf := rx_buffer ++ data_bytes in
  (Lab4F.on_data_received_1 rx_buffer data_bytes = Some (buf, []) \/
   (bytes_find buf FLAG = -1 /\ 100 < len buf /\
    Lab4F.on_data_received_1 rx_buffer data_bytes = Some (drop (length buf - 50) buf, [])) \/
   (bytes_find buf FLAG <> -1 /\
    exists d, Lab4F.on_data_received_1 rx_buffer data_bytes = Some ([], [d]))) /\
  (Lab3F.on_data_received_1 rx_buffer data_bytes = Some (buf, []) \/
   (bytes_find buf FLAG = -1 /\ 100 < len buf /\
    Lab3F.on_data_received_1 rx_buffer data_bytes = Some (drop (length buf - 50) buf, [])) \/
   (bytes_find buf FLAG <> -1 /\
    exists d, Lab3F.on_data_received_1 rx_buffer data_bytes = Some ([], [d]))).
Proof.
  intros buf. unfold Lab4F.on_data_received_1, Lab3F.on_data_received_1. cbv zeta. fold buf.
  destruct buf as [|b buf'] eqn:Hbuf.
  - split; by left.
  - rewrite <- Hbuf. replace (length buf + 1)%nat with (S (S (length buf'))) by (rewrite Hbuf; simpl; lia).
    split; [apply receive_loop_outcomes_lab4 | apply receive_loop_outcomes_lab3].
Qed.

(** ** Frames read byte by byte *)

Lemma serial_worker_run_lab4_unfold port_bytes :
  Lab4F.serial_worker_run port_bytes = foldl worker_step_lab4 (Some ([], [])) port_bytes.
Proof. reflexivity. Qed.

(** A stuffed payload cut short unstuffs to fewer bytes than the payload,
    provided the payload does not end in a reserved byte. *)
Lemma destuff_proper_prefix (c : list Z) (z : Z) (k : nat) :
  last c = Some z -> ~ reserved z -> (k < length (stuff c))%nat ->
  len (destuff (take k (stuff c))) < len c.
Proof.
  intros Hlast Hz. revert k. induction c as [|b c IH]; intros k Hk; [done|].
  rewrite stuff_cons in Hk |- *. rewrite len_cons.
  destruct c as [|b' c'].
  - (* the last byte *)
    injection Hlast as ->. rewrite decide_False in Hk |- * by done.
    rewrite stuff_nil in Hk |- *. simpl in Hk.
    assert (k = 0%nat) as -> by lia. done.
  - assert (Hlast' : last (b' :: c') = Some z) by done.
    specialize (IH Hlast').
    case_decide as Hb; cbn [app] in Hk |- *.
    + destruct k as [|[|k]]; [done | |].
      * change (len (destuff (take 1 (27 :: b :: stuff (b' :: c'))))) with 1.
        rewrite len_cons. pose proof (len_nonneg c'). lia.
      * cbn [take]. rewrite destuff_cons_escaped by done. rewrite len_cons.
        simpl in Hk. specialize (IH k ltac:(lia)). lia.
    + destruct k as [|k]; [simpl; pose proof (len_nonneg (b' :: c')); unfold len; simpl length; lia|].
      cbn [take]. rewrite destuff_cons_plain.
      2:{ intros ->. apply Hb. unfold reserved. auto. }
      rewrite len_cons. simpl in Hk. specialize (IH k ltac:(lia)). lia.
Qed.

(** A buffer that starts with a header, or with part of one, and holds
    less than a payload is left as it is. *)
Lemma partial_frame_kept_lab4 (a : Z) (raw : list Z) (k fuel : nat) (delivered : list Lab4F.delivery) :
  ((4 <= k)%nat -> len (unstuff (take (k - 4) raw)) < DATA_LENGTH) ->
  Lab4F.receive_loop (S fuel) (take k (FLAG ++ [a] ++ DEST_ADDR ++ raw)) delivered
  = Some (take k (FLAG ++ [a] ++ DEST_ADDR ++ raw), delivered).
Proof.
  intros Hshort.
  destruct k as [|[|k]]; [done | done |].
  change (take (S (S k)) (FLAG ++ [a] ++ DEST_ADDR ++ raw))
    with (FLAG ++ take k ([a] ++ DEST_ADDR ++ raw)).
  set (rx := FLAG ++ take k ([a] ++ DEST_ADDR ++ raw)).
  cbn [Lab4F.receive_loop]. cbv zeta.
  assert (Hfind : bytes_find rx FLAG = 0) by apply bytes_find_flag_front.
  rewrite Hfind. change (0 =? -1) with false. cbv iota.
  destruct (len rx - 0 <? 4 + DATA_LENGTH) eqn:Hmin; [done|].
  apply Z.ltb_ge in Hmin. change DATA_LENGTH with 10 in *.
  assert (Hk12 : (12 <= k)%nat).
  { unfold rx, len in Hmin. rewrite length_app, length_take in Hmin.
    change (length FLAG) with 2%nat in Hmin. lia. }
  destruct k as [|[|k]]; [lia | lia |].
  change (Z.to_nat 0) with 0%nat. rewrite drop_0.
  change (drop 4 rx) with (take k raw).
  specialize (Hshort ltac:(lia)). cbn [Nat.sub] in Hshort. rewrite Nat.sub_0_r in Hshort.
  apply Z.ltb_lt in Hshort. by rewrite Hshort.
Qed.

(** A frame that comes in byte by byte: nothing is delivered before the
    unstuffed bytes after the header reach the length of a payload, and
    the call that brings them there delivers and empties the buffer. *)
Lemma worker_frame_raw_lab4 (a : Z) (raw : list Z) (delivered : list Lab4F.delivery) :
  255 ∉ FLAG ++ [a] ++ DEST_ADDR ++ raw ->
  (forall k, (k < length raw)%nat -> len (unstuff (take k raw)) < DATA_LENGTH) ->
  DATA_LENGTH <= len (unstuff raw) ->
  foldl worker_step_lab4 (Some ([], delivered)) (FLAG ++ [a] ++ DEST_ADDR ++ raw)
  = Some ([], delivered ++ [{| Lab4F.source_addr := [a];
                               Lab4F.received_data := slice (unstuff raw) 0 DATA_LENGTH |}]).
Proof.
  intros Hjam Hshort Hfull.
  set (F := FLAG ++ [a] ++ DEST_ADDR ++ raw) in *.
  assert (HF : length F = (4 + length raw)%nat) by (unfold F; simpl length; lia).
  assert (Hprefix : forall k, (k < length F)%nat ->
            foldl worker_step_lab4 (Some ([], delivered)) (take k F) = Some (take k F, delivered)).
  { induction k as [|k IH]; intros Hk; [done|].
    destruct (lookup_lt_is_Some_2 F k ltac:(lia)) as [x Hx].
    rewrite (take_S_r _ _ _ Hx), foldl_app, IH by lia.
    cbn [foldl worker_step_lab4].
    assert (Hx255 : (x =? 255) = false).
    { apply Z.eqb_neq. intros ->. apply Hjam. by eapply list_elem_of_lookup_2. }
    rewrite Hx255. unfold Lab4F.on_data_received_1.
    rewrite <- (take_S_r _ _ _ Hx). rewrite Nat.add_1_r.
    unfold F. rewrite partial_frame_kept_lab4; [by rewrite app_nil_r|].
    intros ?. apply Hshort. lia. }
  destruct (lookup_lt_is_Some_2 F (length F - 1) ltac:(lia)) as [x Hx].
  assert (Hsplit : F = take (length F - 1) F ++ [x]).
  { rewrite <- (take_S_r _ _ _ Hx). rewrite take_ge; [done | lia]. }
  rewrite Hsplit at 1. rewrite foldl_app, Hprefix by lia.
  cbn [foldl worker_step_lab4].
  assert (Hx255 : (x =? 255) = false).
  { apply Z.eqb_neq. intros ->. apply Hjam. by eapply list_elem_of_lookup_2. }
  rewrite Hx255. unfold Lab4F.on_data_received_1. rewrite <- Hsplit.
  replace (length F + 1)%nat with (S (S (length F - 1))) by lia.
  unfold F. rewrite frame_parsed_raw_lab4 by done. done.
Qed.

Lemma worker_frame_lab4 (a : Z) (payload : list Z) (z : Z) (delivered : list Lab4F.delivery) :
  len payload = DATA_LENGTH -> last payload = Some z -> ~ reserved z ->
  255 ∉ FLAG ++ [a] ++ DEST_ADDR ++ stuff payload ->
  foldl worker_step_lab4 (Some ([], delivered)) (FLAG ++ [a] ++ DEST_ADDR ++ stuff payload)
  = Some ([], delivered ++ [{| Lab4F.source_addr := [a]; Lab4F.received_data := payload |}]).
Proof.
  intros Hlen Hlast Hz Hjam.
  assert (Hun : unstuff (stuff payload) = payload)
    by (rewrite unstuff_destuff; apply destuff_stuff).
  rewrite worker_frame_raw_lab4; [| done | | rewrite Hun; lia].
  - rewrite Hun, <- Hlen. rewrite <- (app_nil_r payload) at 1. by rewrite slice_prefix.
  - intros k Hk. rewrite unstuff_destuff, <- Hlen. by apply (destuff_proper_prefix payload z).
Qed.

Lemma elem_of_stuff x p : x ∈ stuff p -> x = 27 \/ x ∈ p.
Proof.
  induction p as [|b p IH]; [rewrite stuff_nil; by intros ?%elem_of_nil|].
  rewrite stuff_cons. intros [Hx|Hx]%elem_of_app.
  - case_decide.
    + apply elem_of_cons in Hx as [->|Hx]; [by left|].
      apply list_elem_of_singleton in Hx as ->. right. by left.
    + apply list_elem_of_singleton in Hx as ->. right. by left.
  - destruct (IH Hx) as [->|?]; [by left|]. right. by right.
Qed.

Lemma worker_frames_lab4 (a : Z) (payloads : list (list Z)) (delivered : list Lab4F.delivery) :
  a <> 255 ->
  Forall crosses_bytewise payloads ->
  foldl worker_step_lab4 (Some ([], delivered))
    (concat ((fun p => FLAG ++ [a] ++ DEST_ADDR ++ stuff p) <$> payloads))
  = Some ([], delivered
              ++ ((fun p => {| Lab4F.source_addr := [a]; Lab4F.received_data := p |}) <$> payloads)).
Proof.
  intros Ha Hall. revert delivered.
  induction Hall as [|p payloads (Hlen & Hjam & z & Hlast & Hz) _ IH]; intros delivered.
  - by rewrite app_nil_r.
  - rewrite fmap_cons. cbn [concat]. rewrite foldl_app.
    rewrite (worker_frame_lab4 a p z); [| done | done | done |].
    + rewrite IH, fmap_cons. by rewrite <- (assoc_L (++)).
    + change (FLAG ++ [a] ++ DEST_ADDR ++ stuff p) with (64 :: 105 :: a :: 0 :: stuff p).
      rewrite !elem_of_cons. intros [?|[?|[?|[?|Hin]]]]; try done.
      apply elem_of_stuff in Hin as [?|?]; done.
Qed.

Lemma zero_padded_full c : len c = DATA_LENGTH -> zero_padded c = c.
Proof. intros Hc. unfold zero_padded. by rewrite Hc, Z.ltb_irrefl. Qed.

Lemma padded_chunk_crosses (data : list Z) (i : nat) (c : list Z) :
  255 ∉ data ->
  (forall k, 0 <= k -> 10 * k + 9 < len data -> ~ reserved (getitem data (10 * k + 9))) ->
  chunks_of data !! i = Some c ->
  crosses_bytewise (zero_padded c).
Proof.
  intros Hjam Hend Hc.
  destruct (chunks_of_chunk_length data i c Hc) as [Hlen _].
  apply chunks_of_lookup in Hc as [Hc Hi].
  assert (Hsub : forall x, x ∈ c -> x ∈ data).
  { intros x Hx. rewrite Hc in Hx. apply elem_of_take in Hx as (j & Hj & _).
    rewrite lookup_drop in Hj. by eapply list_elem_of_lookup_2. }
  split; [apply zero_padded_length; lia|].
  unfold zero_padded. destruct (len c <? DATA_LENGTH) eqn:Hlt.
  - apply Z.ltb_lt in Hlt. split.
    + intros [Hx|Hx]%elem_of_app; [by apply Hjam, Hsub|].
      by apply elem_of_replicate in Hx as [? _].
    + exists 0. split; [|unfold reserved; lia].
      destruct (Z.to_nat (DATA_LENGTH - len c)) as [|n] eqn:Hn; [lia|].
      rewrite replicate_S_end, (assoc_L (++)). apply last_snoc.
  - apply Z.ltb_ge in Hlt. split; [intros Hx; by apply Hjam, Hsub|].
    change DATA_LENGTH with 10 in *.
    assert (Hc10 : length c = 10%nat) by (unfold len in *; lia).
    assert (Hdata : (10 * i + 10 <= length data)%nat).
    { rewrite Hc, length_take, length_drop in Hc10. lia. }
    exists (getitem data (10 * Z.of_nat i + 9)). split.
    + rewrite last_lookup, Hc10. change (Nat.pred 10) with 9%nat.
      rewrite Hc, lookup_take_lt, lookup_drop by lia.
      unfold getitem. rewrite <- list_lookup_lookup_total_lt by lia.
      f_equal. lia.
    + apply Hend; [lia|]. unfold len. lia.
Qed.

Lemma concat_zero_padded (cs : list (list Z)) :
  (forall (i : nat) c, cs !! i = Some c ->
     1 <= len c <= DATA_LENGTH /\ (S i < length cs -> len c = DATA_LENGTH)%nat) ->
  concat (zero_padded <$> cs)
  = concat cs ++ replicate (Z.to_nat (DATA_LENGTH * len cs - len (concat cs))) 0.
Proof.
  induction cs as [|c cs IH]; intros Hcs; [done|].
  rewrite fmap_cons. cbn [concat].
  destruct (Hcs 0%nat c eq_refl) as [Hc Hfull].
  destruct cs as [|c' cs'].
  - cbn [fmap list_fmap concat]. rewrite !app_nil_r. unfold zero_padded.
    change (len [c]) with 1. rewrite Z.mul_1_r.
    destruct (len c <? DATA_LENGTH) eqn:Hlt; [done|].
    apply Z.ltb_ge in Hlt. replace (DATA_LENGTH - len c) with 0 by lia.
    by rewrite app_nil_r.
  - rewrite zero_padded_full by (apply Hfull; simpl; lia).
    rewrite IH.
    2:{ intros i x Hx. destruct (Hcs (S i) x Hx) as [? Hn]. split; [done|].
        intros ?. apply Hn. simpl in *. lia. }
    rewrite <- (assoc_L (++)). do 3 f_equal.
    rewrite (len_cons c (c' :: cs')), (len_app c). rewrite (Hfull ltac:(simpl; lia)). lia.
Qed.

Lemma padding_amount (n : Z) : 0 <= n -> 10 * ((n + 9) `div` 10) - n = (- n) `mod` 10.
Proof.
  intros Hn.
  pose proof (Z.div_mod (n + 9) 10 ltac:(lia)).
  pose proof (Z.mod_pos_bound (n + 9) 10 ltac:(lia)).
  apply (Z.mod_unique_pos _ _ (- ((n + 9) `div` 10))); lia.
Qed.

Lemma serial_worker_run_prepare_data (data : list Z) (source_port_num : Z) :
  source_port_num <> 255 ->
  255 ∉ data ->
  (forall k, 0 <= k -> 10 * k + 9 < len data -> ~ reserved (getitem data (10 * k + 9))) ->
  exists deliveries,
    Lab4F.serial_worker_run (concat (Lab4F.prepare_data data source_port_num))
      = Some ([], deliveries) /\
    Forall (fun d => Lab4F.source_addr d = Lab4F.source_addr_of source_port_num) deliveries /\
    concat (Lab4F.received_data <$> deliveries)
      = data ++ replicate (Z.to_nat ((- len data) `mod` DATA_LENGTH)) 0.
Proof.
  intros Hport Hjam Hend.
  assert (Hsrc : exists a, Lab4F.source_addr_of source_port_num = [a] /\ a <> 255).
  { unfold Lab4F.source_addr_of. case_match; [by exists source_port_num | by exists 0]. }
  destruct Hsrc as (a & Hsrc & Ha).
  exists ((fun p => {| Lab4F.source_addr := [a]; Lab4F.received_data := p |})
            <$> (zero_padded <$> chunks_of data)).
  split; [|split].
  - rewrite serial_worker_run_lab4_unfold.
    unfold Lab4F.prepare_data. cbv zeta. fold (chunks_of data). rewrite Hsrc.
    replace (Lab4F.prepare_frame [a] <$> chunks_of data)
      with ((fun p => FLAG ++ [a] ++ DEST_ADDR ++ stuff p) <$> (zero_padded <$> chunks_of data))
      by (by rewrite <- list_fmap_compose).
    rewrite worker_frames_lab4; [done | done |].
    apply Forall_fmap, Forall_lookup. intros i c Hc.
    by apply (padded_chunk_crosses data i c).
  - rewrite Hsrc. apply Forall_fmap, Forall_fmap, Forall_true. done.
  - rewrite <- list_fmap_compose.
    replace (Lab4F.received_data ∘ _ <$> (zero_padded <$> chunks_of data))
      with (zero_padded <$> chunks_of data)
      by (by rewrite <- (list_fmap_id (zero_padded <$> chunks_of data)) at 1).
    rewrite concat_zero_padded by apply chunks_of_chunk_length.
    rewrite concat_chunks_of, chunks_of_length. change DATA_LENGTH with 10.
    rewrite padding_amount by apply len_nonneg. done.
Qed.

(** X17. 4_LAB end to end on the receive side: when the frames
    prepare_data builds reach SerialWorker.run one after the other, byte
    by byte, then, provided the port number is not 255, the data holds no
    byte 0xFF (which the worker takes for a jam signal) and no chunk of
    DATA_LENGTH bytes ends in a reserved byte, the worker ends with an
    empty buffer, every delivered frame carries the source address, and
    the delivered payloads concatenated are the data followed by the
    zeros that pad the last chunk. *)
Theorem bytewise_transfer_lab4 (data : list Z) (source_port_num : Z) :
  source_port_num <> 255 ->
  255 ∉ data ->
  (forall k, 0 <= k -> 10 * k + 9 < len data -> ~ reserved (getitem data (10 * k + 9))) ->
  exists deliveries,
    Lab4F.serial_worker_run (concat (Lab4F.prepare_data data source_port_num))
      = Some ([], deliveries) /\
    Forall (fun d => Lab4F.source_addr d = Lab4F.source_addr_of source_port_num) deliveries /\
    concat (Lab4F.received_data <$> deliveries)
      = data ++ replicate (Z.to_nat ((- len data) `mod` DATA_LENGTH)) 0.
Proof. apply serial_worker_run_prepare_data. Qed.

Lemma bytewise_transfer_lab4_witness :
  exists deliveries,
    Lab4F.serial_worker_run (concat (Lab4F.prepare_data (hello_world ++ [64; 27; 105]) 5))
      = Some ([], deliveries) /\
    Forall (fun d => Lab4F.source_addr d = Lab4F.source_addr_of 5) deliveries /\
    concat (Lab4F.received_data <$> deliveries)
      = (hello_world ++ [64; 27; 105])
          ++ replicate (Z.to_nat ((- len (hello_world ++ [64; 27; 105])) `mod` DATA_LENGTH)) 0.
Proof.
  apply (bytewise_transfer_lab4 (hello_world ++ [64; 27; 105]) 5).
  - lia.
  - apply (bool_decide_unpack _). vm_compute. exact I.
  - intros k Hk0 Hk. change (len (hello_world ++ [64; 27; 105])) with 13 in Hk.
    assert (k = 0) as -> by lia. vm_compute. lia.
Defined.

(** ** A payload that ends in a reserved byte, read byte by byte *)

Lemma destuff_prefix_le (c : list Z) (k : nat) :
  len (destuff (take k (stuff c))) <= len c.
Proof.
  revert k. induction c as [|b c IH]; intros k.
  - rewrite stuff_nil, take_nil. done.
  - rewrite stuff_cons, len_cons. case_decide as Hb; cbn [app].
    + destruct k as [|[|k]].
      * pose proof (len_nonneg c). change (len (destuff (take 0 (27 :: b :: stuff c)))) with 0. lia.
      * pose proof (len_nonneg c). change (len (destuff (take 1 (27 :: b :: stuff c)))) with 1. lia.
      * cbn [take]. rewrite destuff_cons_escaped by done. rewrite len_cons.
        specialize (IH k). lia.
    + destruct k as [|k].
      * pose proof (len_nonneg c). change (len (destuff (take 0 (b :: stuff c)))) with 0. lia.
      * cbn [take]. rewrite destuff_cons_plain.
        2:{ intros ->. apply Hb. unfold reserved. auto. }
        rewrite len_cons. specialize (IH k). lia.
Qed.

(** X18. 4_LAB, the case X17 excludes: a frame whose payload of
    DATA_LENGTH bytes ends in a reserved byte [z], read byte by byte, is
    delivered one byte early, as soon as the ESC that precedes [z] has
    arrived: the delivered payload ends in ESC (0x1B) instead of [z], and
    [z] is left alone in the receive buffer. *)
Theorem trailing_reserved_byte_lab4 (a : Z) (c : list Z) (z : Z) :
  len c = DATA_LENGTH - 1 -> reserved z -> a <> 255 -> 255 ∉ c ->
  Lab4F.serial_worker_run (Lab4F.prepare_frame [a] (c ++ [z]))
  = Some ([z], [{| Lab4F.source_addr := [a]; Lab4F.received_data := c ++ [27] |}]).
Proof.
  intros Hc Hz Ha Hjam.
  assert (Hlen : len (c ++ [z]) = DATA_LENGTH).
  { rewrite len_app. change (len [z]) with 1. lia. }
  unfold Lab4F.prepare_frame. cbv zeta. rewrite Hlen, Z.ltb_irrefl.
  rewrite stuff_app, stuff_reserved_byte by done.
  rewrite serial_worker_run_lab4_unfold.
  replace (FLAG ++ [a] ++ DEST_ADDR ++ stuff c ++ [27; z])
    with ((FLAG ++ [a] ++ DEST_ADDR ++ (stuff c ++ [27])) ++ [z])
    by (by rewrite <- !(assoc_L (++))).
  rewrite foldl_app.
  assert (Hun : unstuff (stuff c ++ [27]) = c ++ [27]).
  { rewrite unstuff_destuff. apply destuff_stuff_app. }
  rewrite worker_frame_raw_lab4.
  - rewrite Hun. cbn [foldl worker_step_lab4].
    assert ((z =? 255) = false) as -> by (apply Z.eqb_neq; unfold reserved in Hz; lia).
    assert (Hkeep : Lab4F.on_data_received_1 [] [z] = Some ([z], [])).
    { unfold Lab4F.on_data_received_1. cbn [app length Nat.add Lab4F.receive_loop]. cbv zeta.
      assert (bytes_find [z] FLAG = -1) as ->.
      { unfold bytes_find. cbn [bytes_find_from].
        rewrite decide_False by (rewrite flag_prefix_cons; intros [_ ?]; done).
        rewrite decide_False by apply flag_prefix_nil. done. }
      done. }
    rewrite Hkeep. rewrite app_nil_r.
    replace DATA_LENGTH with (len (c ++ [27])) by (rewrite len_app; change (len [27]) with 1; lia).
    rewrite <- (app_nil_r (c ++ [27])) at 1. by rewrite slice_prefix.
  - change (FLAG ++ [a] ++ DEST_ADDR ++ stuff c ++ [27]) with (64 :: 105 :: a :: 0 :: stuff c ++ [27]).
    rewrite !elem_of_cons, elem_of_app. intros [?|[?|[?|[?|[Hin|Hin]]]]]; try done.
    + apply elem_of_stuff in Hin as [?|?]; done.
    + by apply list_elem_of_singleton in Hin.
  - intros k Hk. rewrite length_app in Hk. simpl in Hk.
    rewrite take_app_le by lia. rewrite unstuff_destuff.
    pose proof (destuff_prefix_le c k). lia.
  - rewrite Hun, len_app. change (len [27]) with 1. lia.
Qed.

Lemma trailing_reserved_byte_lab4_witness :
  Lab4F.serial_worker_run (Lab4F.prepare_frame [5] ([49; 50; 51; 52; 53; 54; 55; 56; 57] ++ [64]))
  = Some ([64], [{| Lab4F.source_addr := [5];
                    Lab4F.received_data := [49; 50; 51; 52; 53; 54; 55; 56; 57] ++ [27] |}]).
Proof.
  apply (trailing_reserved_byte_lab4 5 [49; 50; 51; 52; 53; 54; 55; 56; 57] 64).
  - reflexivity.
  - unfold reserved. lia.
  - lia.
  - apply (bool_decide_unpack _). vm_compute. exact I.
Defined.

(** ** Where the flag is found *)

Lemma bytes_find_from_shift buf i :
  bytes_find_from buf FLAG i
  = if bytes_find buf FLAG =? -1 then -1 else bytes_find buf FLAG + i.
Proof.
  assert (Hgen : forall i j,
            bytes_find_from buf FLAG i = -1 /\ bytes_find_from buf FLAG j = -1 \/
            exists k, 0 <= k /\ bytes_find_from buf FLAG i = i + k /\ bytes_find_from buf FLAG j = j + k).
  { induction buf as [|b buf IH]; intros i' j.
    - left. cbn [bytes_find_from]. by rewrite decide_False by apply flag_prefix_nil.
    - cbn [bytes_find_from]. case_decide.
      + right. exists 0. split; [done|]. split; lia.
      + destruct (IH (i' + 1) (j + 1)) as [?|(k & Hk & -> & ->)]; [by left|].
        right. exists (k + 1). split; [lia|]. split; lia. }
  unfold bytes_find. destruct (Hgen i 0) as [[-> ->]|(k & Hk & -> & ->)]; [done|].
  assert ((0 + k =? -1) = false) as -> by (apply Z.eqb_neq; lia). lia.
Qed.

Lemma bytes_find_cons b buf :
  bytes_find (b :: buf) FLAG
  = if decide (b = 64 /\ head buf = Some 105) then 0
    else if bytes_find buf FLAG =? -1 then -1 else bytes_find buf FLAG + 1.
Proof.
  unfold bytes_find at 1. cbn [bytes_find_from].
  destruct (decide (FLAG `prefix_of` b :: buf)) as [Hp|Hp].
  - rewrite decide_True; [done|]. by apply flag_prefix_cons.
  - rewrite decide_False; [|by rewrite <- flag_prefix_cons].
    by rewrite bytes_find_from_shift.
Qed.

Lemma bytes_find_range buf : bytes_find buf FLAG = -1 \/ 0 <= bytes_find buf FLAG <= len buf - 2.
Proof.
  induction buf as [|b buf IH]; [by left|].
  rewrite bytes_find_cons, len_cons. case_decide as Hp.
  - right. destruct Hp as [_ Hh]. destruct buf; [done|]. rewrite len_cons.
    pose proof (len_nonneg buf). lia.
  - destruct IH as [->|IH]; [by left|]. right.
    assert ((bytes_find buf FLAG =? -1) = false) as -> by (apply Z.eqb_neq; lia). lia.
Qed.

(** The first flag stays where it is when bytes are appended. *)
Lemma bytes_find_app buf y :
  bytes_find buf FLAG <> -1 -> bytes_find (buf ++ y) FLAG = bytes_find buf FLAG.
Proof.
  induction buf as [|b buf IH]; [done|].
  rewrite <- app_comm_cons, !bytes_find_cons.
  destruct (decide (b = 64 /\ head buf = Some 105)) as [Hp|Hp].
  - intros _. rewrite decide_True; [done|]. destruct Hp as [-> Hh].
    split; [done|]. by destruct buf.
  - destruct (bytes_find buf FLAG =? -1) eqn:Hf; [done|]. intros _.
    apply Z.eqb_neq in Hf. rewrite (IH Hf).
    assert ((bytes_find buf FLAG =? -1) = false) as -> by (by apply Z.eqb_neq).
    rewrite decide_False; [done|]. intros [-> Hh]. apply Hp. split; [done|].
    destruct buf; [done|]. done.
Qed.

(** A byte appended to a buffer without flag: the flag, if there is one
    now, is made of the last two bytes. *)
Lemma bytes_find_snoc buf x :
  bytes_find buf FLAG = -1 ->
  bytes_find (buf ++ [x]) FLAG = -1 \/ bytes_find (buf ++ [x]) FLAG = len buf - 1.
Proof.
  induction buf as [|b buf IH]; [intros _; left|].
  - change ([] ++ [x]) with [x]. rewrite bytes_find_cons.
    by rewrite decide_False by (by intros [_ ?]).
  - rewrite <- app_comm_cons, !bytes_find_cons, len_cons.
    destruct (decide (b = 64 /\ head buf = Some 105)) as [Hp|Hp]; [done|].
    destruct (bytes_find buf FLAG =? -1) eqn:Hf.
    2:{ apply Z.eqb_neq in Hf. destruct (bytes_find_range buf); [done | lia]. }
    apply Z.eqb_eq in Hf. intros _.
    destruct (decide (b = 64 /\ head (buf ++ [x]) = Some 105)) as [[-> Hh]|Hq].
    + right. destruct buf as [|b' buf]; [done|]. exfalso. apply Hp. done.
    + destruct (IH Hf) as [->|Hlast]; [by left|].
      destruct (decide (bytes_find (buf ++ [x]) FLAG = -1)) as [->|Hne]; [by left|].
      right. apply Z.eqb_neq in Hne. rewrite Hne. lia.
Qed.

(** Cutting the front of a buffer without flag leaves no flag. *)
Lemma bytes_find_drop buf (k : nat) :
  bytes_find buf FLAG = -1 -> bytes_find (drop k buf) FLAG = -1.
Proof.
  revert k. induction buf as [|b buf IH]; intros k; [by rewrite drop_nil|].
  destruct k as [|k]; [done|]. rewrite bytes_find_cons.
  case_decide; [done|]. destruct (bytes_find buf FLAG =? -1) eqn:Hf.
  - intros _. apply IH. by apply Z.eqb_eq.
  - destruct (bytes_find_range buf); [apply Z.eqb_neq in Hf; lia | lia].
Qed.

Lemma unstuff_at_least_half raw : len raw <= 2 * len (unstuff raw).
Proof. rewrite unstuff_destuff. by apply (destuff_length_aux (length raw)). Qed.

Lemma on_data_received_1_lab4_in_bounds (buf : list Z) (x : Z) :
  buffer_in_bounds buf ->
  exists buf' delivered,
    Lab4F.on_data_received_1 buf [x] = Some (buf', delivered) /\ buffer_in_bounds buf'.
Proof.
  intros Hinv. unfold Lab4F.on_data_received_1. cbv zeta.
  set (B := buf ++ [x]).
  assert (HB : len B = len buf + 1) by (unfold B; rewrite len_app; done).
  replace (length B + 1)%nat with (S (S (length buf))) by (unfold len in HB; lia).
  cbn [Lab4F.receive_loop]. cbv zeta.
  destruct (bytes_find B FLAG =? -1) eqn:Hfound.
  { apply Z.eqb_eq in Hfound. destruct (100 <? len B) eqn:Hlong.
    - apply Z.ltb_lt in Hlong. eexists _, _. split; [done|]. left.
      split; [by apply bytes_find_drop|]. unfold len in *. rewrite length_drop. lia.
    - apply Z.ltb_ge in Hlong. eexists _, _. split; [done|]. left. split; [done | lia]. }
  assert (Hs : 0 <= bytes_find B FLAG <= 99).
  { apply Z.eqb_neq in Hfound.
    destruct (bytes_find_range B) as [?|Hr]; [done|]. split; [lia|].
    destruct Hinv as [[Hnone Hlen]|[Hflag _]].
    - destruct (bytes_find_snoc buf x Hnone) as [?|Hlast]; [done|]. fold B in Hlast. lia.
    - unfold B. rewrite bytes_find_app by lia. lia. }
  destruct (len B - bytes_find B FLAG <? 4 + DATA_LENGTH) eqn:Hsize.
  { apply Z.ltb_lt in Hsize. eexists _, _. split; [done|]. right.
    change DATA_LENGTH with 10 in *. lia. }
  destruct (len (unstuff (drop 4 (drop (Z.to_nat (bytes_find B FLAG)) B))) <? DATA_LENGTH) eqn:Hshort.
  { apply Z.ltb_lt in Hshort. eexists _, _. split; [done|]. right. split; [done|].
    pose proof (unstuff_at_least_half (drop 4 (drop (Z.to_nat (bytes_find B FLAG)) B))) as Hhalf.
    apply Z.ltb_ge in Hsize. change DATA_LENGTH with 10 in *.
    unfold len in Hhalf at 1. rewrite !length_drop in Hhalf. unfold len in *. lia. }
  rewrite (next_frame_start_is_end B (4 + DATA_LENGTH) Hfound) by done.
  rewrite Z.leb_refl. unfold len. rewrite Nat2Z.id, drop_all.
  rewrite bytes_find_nil. eexists _, _. split; [reflexivity|]. by left.
Qed.

Lemma worker_in_bounds_lab4 (port_bytes : list Z) (buf : list Z) (delivered : list Lab4F.delivery) :
  buffer_in_bounds buf ->
  exists buf' delivered',
    foldl worker_step_lab4 (Some (buf, delivered)) port_bytes = Some (buf', delivered') /\
    buffer_in_bounds buf'.
Proof.
  revert buf delivered. induction port_bytes as [|x port_bytes IH]; intros buf delivered Hinv.
  - by exists buf, delivered.
  - cbn [foldl worker_step_lab4]. destruct (x =? 255); [by apply IH|].
    destruct (on_data_received_1_lab4_in_bounds buf x Hinv) as (buf' & d & -> & Hinv').
    by apply IH.
Qed.

(** X19. 4_LAB: whatever bytes arrive, SerialWorker.run wired to
    on_data_received_1 handles all of them (every call returns), and the
    receive buffer it leaves holds at most 121 bytes. *)
Theorem receive_buffer_bounded_lab4 (port_bytes : list Z) :
  exists rx_buffer delivered,
    Lab4F.serial_worker_run port_bytes = Some (rx_buffer, delivered) /\
    len rx_buffer <= 121.
Proof.
  rewrite serial_worker_run_lab4_unfold.
  destruct (worker_in_bounds_lab4 port_bytes [] []) as (buf & del & Hrun & Hinv); [by left|].
  exists buf, del. split; [done|].
  destruct Hinv as [[_ ?]|[? Hlen]]; [lia|]. change DATA_LENGTH with 10 in Hlen. lia.
Qed.

(** ** Bits and bytes *)

Lemma foldl_snoc_fmap {A B} (h : A -> B) (acc : list B) (l : list A) :
  foldl (fun out x => out ++ [h x]) acc l = acc ++ (h <$> l).
Proof.
  revert acc. induction l as [|x l IH]; intros acc; simpl.
  - by rewrite app_nil_r.
  - by rewrite IH, <- (assoc_L (++)).
Qed.

Lemma bytes_to_bits_unfold bs : bytes_to_bits bs = concat (byte_bits <$> bs).
Proof.
  unfold bytes_to_bits.
  rewrite (foldl_ext_in _ (fun bits byte => bits ++ byte_bits byte)).
  2:{ intros bits byte _. rewrite foldl_snoc_fmap. reflexivity. }
  induction bs as [|b bs IH]; [done|].
  cbn [foldl]. rewrite foldl_app_acc, IH, fmap_cons. done.
Qed.

Lemma bytes_to_bits_length bs : len (bytes_to_bits bs) = 8 * len bs.
Proof.
  rewrite bytes_to_bits_unfold. induction bs as [|b bs IH]; [done|].
  rewrite fmap_cons. cbn [concat]. rewrite len_app, IH, len_cons.
  change (len (byte_bits b)) with 8. lia.
Qed.

Lemma bits_to_bytes_unfold bits :
  bits_to_bytes bits = pack_byte bits <$> range_step (len bits) 8.
Proof. unfold bits_to_bytes. by rewrite (foldl_snoc_fmap (pack_byte bits)). Qed.

Lemma range_step_8_length n : 0 <= n -> len (range_step n 8) = (n + 7) `div` 8.
Proof.
  intros Hn. unfold range_step, len. rewrite length_fmap, length_seqZ.
  replace (n + 8 - 1) with (n + 7) by lia. apply Z2Nat.id, Z.div_pos; lia.
Qed.

Lemma bits_to_bytes_length bits : len (bits_to_bytes bits) = (len bits + 7) `div` 8.
Proof. rewrite bits_to_bytes_unfold. unfold len at 1. rewrite length_fmap. apply range_step_8_length, len_nonneg. Qed.

Lemma range_step_whole n : 0 <= n -> range_step (8 * n) 8 = (fun k => 8 * k) <$> seqZ 0 n.
Proof.
  intros Hn. unfold range_step.
  replace ((8 * n + 8 - 1) `div` 8) with n.
  2:{ apply (Z.div_unique_pos _ _ _ 7); lia. }
  apply list_fmap_ext. intros; lia.
Qed.

Lemma getitem_concat_byte_bits (bs : list Z) (k : nat) (j : nat) :
  (k < length bs)%nat -> (j < 8)%nat ->
  concat (byte_bits <$> bs) !!! (8 * k + j)%nat = byte_bits (bs !!! k) !!! j.
Proof.
  revert k. induction bs as [|b bs IH]; intros k Hk Hj; [simpl in Hk; lia|].
  rewrite fmap_cons. cbn [concat]. destruct k as [|k].
  - rewrite lookup_total_app_l by (simpl; lia). done.
  - rewrite lookup_total_app_r by (simpl; lia).
    replace (8 * S k + j - length (byte_bits b))%nat with (8 * k + j)%nat by (simpl; lia).
    rewrite IH by (simpl in Hk; lia). done.
Qed.

Lemma pack_byte_bits_all :
  forallb (fun b =>
    foldl (fun byte_val j => Z.lor byte_val (Z.shiftl (byte_bits b !!! Z.to_nat j) (7 - j)))
          0 [0; 1; 2; 3; 4; 5; 6; 7] =? b) (seqZ 0 256) = true.
Proof. vm_compute. reflexivity. Qed.

Lemma pack_byte_bits b :
  is_byte b ->
  foldl (fun byte_val j => Z.lor byte_val (Z.shiftl (byte_bits b !!! Z.to_nat j) (7 - j)))
        0 [0; 1; 2; 3; 4; 5; 6; 7] = b.
Proof.
  intros Hb. pose proof pack_byte_bits_all as Hall.
  rewrite forallb_forall in Hall. apply Z.eqb_eq, Hall.
  apply list_elem_of_In, elem_of_seqZ. unfold is_byte in Hb. lia.
Qed.

Lemma pack_byte_of_bytes (bs : list Z) (k : Z) :
  Forall is_byte bs -> 0 <= k < len bs ->
  pack_byte (bytes_to_bits bs) (8 * k) = getitem bs k.
Proof.
  intros Hbs Hk. unfold pack_byte. rewrite bytes_to_bits_length.
  replace (Z.min 8 (8 * len bs - 8 * k)) with 8 by lia.
  change (range 0 8) with [0; 1; 2; 3; 4; 5; 6; 7].
  rewrite <- (pack_byte_bits (getitem bs k)).
  2:{ unfold getitem, len in *. eapply Forall_lookup_1; [done|].
      apply list_lookup_lookup_total_lt. lia. }
  apply foldl_ext_in. intros acc j Hj.
  assert (0 <= j < 8).
  { rewrite !elem_of_cons, elem_of_nil in Hj. lia. }
  assert ((8 * k + j <? 8 * len bs) = true) as -> by (apply Z.ltb_lt; lia).
  do 2 f_equal. rewrite bytes_to_bits_unfold. unfold getitem, len in *.
  replace (Z.to_nat (8 * k + j)) with (8 * Z.to_nat k + Z.to_nat j)%nat by lia.
  apply getitem_concat_byte_bits; lia.
Qed.

(** X20. The bit conversion of calculate_fcs and verify_fcs: a
    sequence of bytes (values 0..255) gives eight bits per byte, and
    packing these bits again gives the bytes back. *)
Theorem bits_to_bytes_of_bytes_to_bits (bs : list Z) :
  Forall is_byte bs ->
  len (bytes_to_bits bs) = 8 * len bs /\
  bits_to_bytes (bytes_to_bits bs) = bs.
Proof.
  intros Hbs. split; [apply bytes_to_bits_length|].
  rewrite bits_to_bytes_unfold, bytes_to_bits_length, range_step_whole by apply len_nonneg.
  rewrite <- list_fmap_compose.
  etrans; [|apply (fmap_getitem_range bs)].
  apply list_fmap_ext. intros i k [-> Hk]%lookup_seqZ. simpl.
  apply pack_byte_of_bytes; [done | lia].
Qed.

Lemma bits_to_bytes_of_bytes_to_bits_witness :
  len (bytes_to_bits [0; 64; 255]) = 8 * len [0; 64; 255] /\
  bits_to_bytes (bytes_to_bits [0; 64; 255]) = [0; 64; 255].
Proof.
  apply (bits_to_bytes_of_bytes_to_bits [0; 64; 255]).
  repeat (apply Forall_cons_2; [unfold is_byte; lia|]). apply Forall_nil_2.
Defined.

(** ** The frame check sequence *)

Lemma range_step_head n : 1 <= n -> exists rest, range_step n 8 = 0 :: rest.
Proof.
  intros Hn. unfold range_step.
  assert (1 <= (n + 8 - 1) `div` 8).
  { apply Z.div_le_lower_bound; lia. }
  rewrite seqZ_cons by lia. rewrite fmap_cons. by eexists.
Qed.

Lemma range_step_single n : 1 <= n <= 8 -> range_step n 8 = [0].
Proof.
  intros Hn. unfold range_step.
  replace ((n + 8 - 1) `div` 8) with 1; [done|].
  apply (Z.div_unique_pos _ _ _ (n - 1)); lia.
Qed.

Lemma pack_byte_take bits : pack_byte (take 8 bits) 0 = pack_byte bits 0.
Proof.
  unfold pack_byte.
  assert (Hlen : len (take 8 bits) = Z.min 8 (len bits)) by (unfold len; rewrite length_take; lia).
  rewrite Hlen. replace (Z.min 8 (Z.min 8 (len bits) - 0)) with (Z.min 8 (len bits - 0)) by lia.
  apply foldl_ext_in. intros acc j Hj.
  unfold range in Hj. apply elem_of_seqZ in Hj.
  assert ((0 + j <? Z.min 8 (len bits)) = true) as -> by (apply Z.ltb_lt; lia).
  assert ((0 + j <? len bits) = true) as -> by (apply Z.ltb_lt; lia).
  do 2 f_equal. unfold getitem. apply lookup_total_take_lt. lia.
Qed.

Lemma FCS_LENGTH_value : Lab3F.FCS_LENGTH = 1.
Proof. vm_compute. reflexivity. Qed.

Lemma calculate_fcs_unfold data_bytes :
  Lab3F.calculate_fcs data_bytes
  = [pack_byte (Lab3.hamming_encode (bytes_to_bits data_bytes)) 0].
Proof.
  unfold Lab3F.calculate_fcs. cbv zeta. rewrite FCS_LENGTH_value.
  set (c := Lab3.hamming_encode (bytes_to_bits data_bytes)).
  assert (Hc : 1 <= len c).
  { unfold c. rewrite len_hamming_encode. unfold code_length.
    pose proof (len_nonneg (bytes_to_bits data_bytes)) as Hm.
    destruct (standard_parity_bits_spec _ Hm) as (? & _). lia. }
  rewrite bits_to_bytes_unfold.
  destruct (range_step_head (len c) Hc) as [rest ->].
  rewrite fmap_cons. reflexivity.
Qed.

(** X21. calculate_fcs returns exactly FCS_LENGTH = 1 byte for every
    payload: the first eight bits of the Hamming codeword of the payload
    bits, packed into a byte; the rest of the codeword is not part of
    the FCS. *)
Theorem calculate_fcs_first_eight_bits (data_bytes : list Z) :
  Lab3F.calculate_fcs data_bytes
  = bits_to_bytes (take 8 (Lab3.hamming_encode (bytes_to_bits data_bytes))) /\
  len (Lab3F.calculate_fcs data_bytes) = Lab3F.FCS_LENGTH.
Proof.
  rewrite calculate_fcs_unfold. split; [|by rewrite FCS_LENGTH_value].
  set (c := Lab3.hamming_encode (bytes_to_bits data_bytes)).
  assert (Hc : 1 <= len c).
  { unfold c. rewrite len_hamming_encode. unfold code_length.
    pose proof (len_nonneg (bytes_to_bits data_bytes)) as Hm.
    destruct (standard_parity_bits_spec _ Hm) as (? & _). lia. }
  rewrite bits_to_bytes_unfold, range_step_single.
  - rewrite fmap_cons, fmap_nil. by rewrite pack_byte_take.
  - unfold len in *. rewrite length_take. lia.
Qed.

Lemma foldl_fst_length {B} (f : list Z * Z -> B -> list Z * Z) (l : list B) (st : list Z * Z) :
  (forall st x, length (f st x).1 = length st.1) ->
  length (foldl f st l).1 = length st.1.
Proof.
  intros Hf. revert st. induction l as [|x l IH]; intros st; [done|].
  cbn [foldl]. by rewrite IH, Hf.
Qed.

Lemma fill_data_positions_length data_bits total_length cw :
  length (Lab3F.fill_data_positions data_bits total_length cw) = length cw.
Proof.
  unfold Lab3F.fill_data_positions. rewrite foldl_fst_length; [done|].
  intros [c idx] pos. repeat case_match; try done. cbn [fst]. apply length_insert.
Qed.

Lemma fill_parity_positions_length fcs_bits total_length cw :
  length (Lab3F.fill_parity_positions fcs_bits total_length cw) = length cw.
Proof.
  unfold Lab3F.fill_parity_positions. rewrite foldl_fst_length; [done|].
  intros [c idx] pos. repeat case_match; try done. cbn [fst]. apply length_insert.
Qed.

Lemma verify_fcs_length received_data received_fcs :
  len (Lab3F.verify_fcs received_data received_fcs).1.1 = len received_data.
Proof.
  unfold Lab3F.verify_fcs. cbv zeta.
  unfold Lab3.get_sec_ded_hamming_params. cbv zeta.
  set (m := len (bytes_to_bits received_data)).
  set (w := Lab3F.fill_parity_positions _ _ _).
  assert (Hm : 0 <= m) by apply len_nonneg.
  assert (Hw : len w = m + standard_parity_bits_of m + 1).
  { unfold w, len. rewrite fill_parity_positions_length, fill_data_positions_length, length_replicate.
    destruct (standard_parity_bits_spec m Hm) as (? & _). lia. }
  pose proof (hamming_decode_data_length m w Hm Hw) as Hd.
  destruct (Lab3.hamming_decode w) as [[bits corrected] double_error].
  cbn [fst] in *. rewrite bits_to_bytes_length, Hd. unfold m.
  rewrite bytes_to_bits_length.
  symmetry. apply (Z.div_unique_pos _ _ _ 7); lia.
Qed.

(** X22. Whatever data and FCS bytes it is given (corrupted or not),
    verify_fcs returns as many payload bytes as it received data bytes,
    and it never reports a correction and a double error together. *)
Theorem verify_fcs_returns_payload_length (received_data received_fcs : list Z) :
  len (Lab3F.verify_fcs received_data received_fcs).1.1 = len received_data /\
  ((Lab3F.verify_fcs received_data received_fcs).1.2 = true ->
   (Lab3F.verify_fcs received_data received_fcs).2 = false).
Proof.
  split; [apply verify_fcs_length|].
  unfold Lab3F.verify_fcs. cbv zeta.
  destruct (Lab3.get_sec_ded_hamming_params _) as [r total_length].
  set (w := Lab3F.fill_parity_positions _ _ _).
  unfold Lab3.hamming_decode.
  destruct (Lab3.classify w) as [[e corrected] double_error] eqn:Hcl. cbn [fst snd].
  intros ->. unfold Lab3.classify in Hcl. cbv zeta in Hcl.
  repeat case_match; by simplify_eq.
Qed.

(** ** Frames of 3_LAB *)

Lemma slice_middle {A} (x y z : list A) : slice (x ++ y ++ z) (len x) (len x + len y) = y.
Proof.
  unfold slice, len. rewrite !Nat2Z.id.
  replace (Z.to_nat (Z.of_nat (length x) + Z.of_nat (length y)) - length x)%nat
    with (length y) by lia.
  rewrite drop_app_length. by rewrite take_app_length.
Qed.

Lemma frame_parsed_lab3 (a : Z) (payload fcs rest : list Z) (delivered : list Lab3F.delivery) (fuel : nat) :
  len payload = DATA_LENGTH ->
  len fcs = Lab3F.FCS_LENGTH ->
  Lab3F.receive_loop (S (S fuel)) (FLAG ++ [a] ++ DEST_ADDR ++ stuff (payload ++ fcs) ++ rest) delivered
  = Some ([], delivered ++ [{| Lab3F.source_addr := [a];
                               Lab3F.corrected_data := (Lab3F.verify_fcs payload fcs).1.1;
                               Lab3F.corrected := (Lab3F.verify_fcs payload fcs).1.2;
                               Lab3F.double_error := (Lab3F.verify_fcs payload fcs).2 |}]).
Proof.
  intros Hlen Hfcs.
  set (body := stuff (payload ++ fcs) ++ rest).
  set (rx := FLAG ++ [a] ++ DEST_ADDR ++ body).
  assert (Hrx : len rx = 4 + len body) by (unfold rx, len; simpl length; lia).
  assert (Hbody : len payload + len fcs <= len body).
  { unfold body. rewrite len_app. pose proof (stuff_length (payload ++ fcs)) as Hs.
    rewrite len_app in Hs.
    pose proof (len_nonneg (filter reserved (payload ++ fcs))). pose proof (len_nonneg rest). lia. }
  assert (Hun : unstuff body = payload ++ fcs ++ unstuff rest).
  { unfold body. rewrite !unstuff_destuff, destuff_stuff_app. by rewrite <- (assoc_L (++)). }
  cbn [Lab3F.receive_loop]. cbv zeta.
  assert (Hfind : bytes_find rx FLAG = 0) by apply bytes_find_flag_front.
  rewrite Hfind. change (0 =? -1) with false. cbv iota.
  assert (Hmin : (len rx - 0 <? 4 + DATA_LENGTH + Lab3F.FCS_LENGTH) = false) by (apply Z.ltb_ge; lia).
  rewrite Hmin. change (Z.to_nat 0) with 0%nat. rewrite drop_0.
  change (drop 4 rx) with body. change (slice rx 2 3) with [a].
  rewrite Hun.
  assert (Hge : (len (payload ++ fcs ++ unstuff rest) <? DATA_LENGTH + Lab3F.FCS_LENGTH) = false).
  { apply Z.ltb_ge. rewrite !len_app. pose proof (len_nonneg (unstuff rest)). lia. }
  rewrite Hge.
  assert (Hsl : slice (payload ++ fcs ++ unstuff rest) 0 DATA_LENGTH = payload)
    by (rewrite <- Hlen; apply slice_prefix).
  assert (Hsl2 : slice (payload ++ fcs ++ unstuff rest) DATA_LENGTH (DATA_LENGTH + Lab3F.FCS_LENGTH) = fcs)
    by (rewrite <- Hlen, <- Hfcs; apply slice_middle).
  rewrite Hsl, Hsl2.
  destruct (Lab3F.verify_fcs payload fcs) as [[corrected_data corrected] double_error].
  assert (Hnext : (0 + (4 + len body) <=? len rx) = true) by (apply Z.leb_le; lia).
  rewrite Hnext.
  replace (Z.to_nat (0 + (4 + len body))) with (length rx) by (unfold len in *; lia).
  rewrite drop_all. by rewrite bytes_find_nil.
Qed.

Lemma flip_bit_length data byte_idx bit_idx :
  length (Lab3F.flip_bit data byte_idx bit_idx) = length data.
Proof. unfold Lab3F.flip_bit, setitem. apply length_insert. Qed.

Lemma second_bit_length data byte_idx1 bit_idx1 draws data' :
  Lab3F.second_bit data byte_idx1 bit_idx1 draws = Some data' -> length data' = length data.
Proof.
  induction draws as [|[byte_idx2 bit_idx2] draws IH]; [done|].
  cbn [Lab3F.second_bit]. case_match; [|done].
  intros [= <-]. apply flip_bit_length.
Qed.

Lemma apply_bit_corruption_length src data data' :
  Lab3F.apply_bit_corruption src data = Some data' -> length data' = length data.
Proof.
  unfold Lab3F.apply_bit_corruption. cbv zeta.
  repeat case_match; try done.
  - intros [= <-]. apply flip_bit_length.
  - intros Hs%second_bit_length. by rewrite Hs, flip_bit_length.
  - by intros [= <-].
Qed.

(** X23. 3_LAB: when prepare_data's loop body builds a frame for a
    chunk of at most DATA_LENGTH bytes, the corrupted chunk has
    DATA_LENGTH bytes, and the frame, handed to on_data_received_1 with an
    empty buffer and followed by any bytes in the same call, is delivered
    as one frame: source address as sent, and data and flags as
    verify_fcs returns them for the corrupted chunk and the FCS computed
    before the corruption; the buffer is left empty. *)
Theorem frame_round_trip_lab3 (src : Lab3F.corruption_source) (a : Z) (chunk frame rest : list Z) :
  len chunk <= DATA_LENGTH ->
  Lab3F.prepare_frame src [a] chunk = Some frame ->
  exists corrupted,
    Lab3F.apply_bit_corruption src (zero_padded chunk) = Some corrupted /\
    len corrupted = DATA_LENGTH /\
    let fcs := Lab3F.calculate_fcs (zero_padded chunk) in
    Lab3F.on_data_received_1 [] (frame ++ rest)
    = Some ([], [{| Lab3F.source_addr := [a];
                    Lab3F.corrected_data := (Lab3F.verify_fcs corrupted fcs).1.1;
                    Lab3F.corrected := (Lab3F.verify_fcs corrupted fcs).1.2;
                    Lab3F.double_error := (Lab3F.verify_fcs corrupted fcs).2 |}]).
Proof.
  intros Hc. unfold Lab3F.prepare_frame. cbv zeta. fold (zero_padded chunk).
  destruct (Lab3F.apply_bit_corruption src (zero_padded chunk)) as [corrupted|] eqn:Hcor; [|done].
  intros Hframe.
  assert (frame = FLAG ++ [a] ++ DEST_ADDR ++ stuff (corrupted ++ Lab3F.calculate_fcs (zero_padded chunk)))
    as -> by congruence.
  clear Hframe. exists corrupted. split; [done|].
  assert (Hlen : len corrupted = DATA_LENGTH).
  { unfold len. rewrite (apply_bit_corruption_length _ _ _ Hcor).
    by apply zero_padded_length. }
  split; [done|]. cbv zeta.
  unfold Lab3F.on_data_received_1. rewrite app_nil_l.
  rewrite <- !(assoc_L (++)).
  set (fcs := Lab3F.calculate_fcs (zero_padded chunk)).
  replace (length (FLAG ++ [a] ++ DEST_ADDR ++ stuff (corrupted ++ fcs) ++ rest) + 1)%nat
    with (S (S (length ([a] ++ DEST_ADDR ++ stuff (corrupted ++ fcs) ++ rest) + 1)))
    by (simpl length; lia).
  rewrite frame_parsed_lab3; [done | done |].
  unfold fcs. by rewrite calculate_fcs_unfold, FCS_LENGTH_value.
Qed.

Lemma frame_round_trip_lab3_witness :
  exists corrupted,
    Lab3F.apply_bit_corruption no_corruption (zero_padded [64; 27; 105]) = Some corrupted /\
    len corrupted = DATA_LENGTH /\
    let fcs := Lab3F.calculate_fcs (zero_padded [64; 27; 105]) in
    Lab3F.on_data_received_1 []
      ([64; 105; 5; 0; 27; 64; 27; 27; 27; 105; 0; 0; 0; 0; 0; 0; 0; 217] ++ [1; 2; 3])
    = Some ([], [{| Lab3F.source_addr := [5];
                    Lab3F.corrected_data := (Lab3F.verify_fcs corrupted fcs).1.1;
                    Lab3F.corrected := (Lab3F.verify_fcs corrupted fcs).1.2;
                    Lab3F.double_error := (Lab3F.verify_fcs corrupted fcs).2 |}]).
Proof.
  apply (frame_round_trip_lab3 no_corruption 5 [64; 27; 105]
           [64; 105; 5; 0; 27; 64; 27; 27; 27; 105; 0; 0; 0; 0; 0; 0; 0; 217] [1; 2; 3]).
  - vm_compute. discriminate.
  - vm_compute. reflexivity.
Defined.

(** ** Bit corruption *)

Lemma byte_bits_flip (b k : Z) :
  0 <= k <= 7 ->
  byte_bits (Z.lxor b (Z.shiftl 1 k)) = flip_at (Z.to_nat (7 - k)) (byte_bits b).
Proof.
  intros Hk. unfold byte_bits, flip_at.
  assert (Hbit : forall i, 0 <= i ->
            Z.land (Z.shiftr (Z.lxor b (Z.shiftl 1 k)) i) 1
            = if decide (i = k) then Z.lxor (Z.land (Z.shiftr b i) 1) 1 else Z.land (Z.shiftr b i) 1).
  { intros i Hi. rewrite !land_shiftr_1 by done.
    rewrite Z.lxor_spec, Z.shiftl_1_l, Z.pow2_bits_eqb by lia.
    case_decide as Hik.
    - subst i. rewrite Z.eqb_refl. by destruct (Z.testbit b k).
    - assert ((k =? i) = false) as -> by (apply Z.eqb_neq; lia).
      by rewrite xorb_false_r. }
  cbn [fmap list_fmap]. rewrite !Hbit by lia.
  assert (k = 0 \/ k = 1 \/ k = 2 \/ k = 3 \/ k = 4 \/ k = 5 \/ k = 6 \/ k = 7)
    as [->|[->|[->|[->|[->|[->|[->| ->]]]]]]] by lia; reflexivity.
Qed.

Lemma flip_at_app_l (i : nat) (x y : list Z) :
  (i < length x)%nat -> flip_at i (x ++ y) = flip_at i x ++ y.
Proof.
  intros Hi. unfold flip_at. rewrite lookup_total_app_l by done. by apply insert_app_l.
Qed.

Lemma flip_at_app_r (i : nat) (x y : list Z) :
  flip_at (length x + i) (x ++ y) = x ++ flip_at i y.
Proof.
  unfold flip_at. rewrite lookup_total_app_r by lia.
  replace (length x + i - length x)%nat with i by lia. apply insert_app_r.
Qed.

Lemma bytes_to_bits_flip_bit (data : list Z) (byte_idx bit_idx : Z) :
  0 <= byte_idx < len data -> 0 <= bit_idx <= 7 ->
  bytes_to_bits (Lab3F.flip_bit data byte_idx bit_idx)
  = flip_at (Z.to_nat (8 * byte_idx + 7 - bit_idx)) (bytes_to_bits data).
Proof.
  intros Hi Hk. unfold Lab3F.flip_bit, setitem, getitem. rewrite !bytes_to_bits_unfold.
  replace (Z.to_nat (8 * byte_idx + 7 - bit_idx))
    with (8 * Z.to_nat byte_idx + Z.to_nat (7 - bit_idx))%nat by lia.
  assert (Hi' : (Z.to_nat byte_idx < length data)%nat) by (unfold len in Hi; lia).
  generalize dependent (Z.to_nat byte_idx). clear Hi. intros i Hi.
  revert i Hi. induction data as [|b data IH]; intros i Hi; [simpl in Hi; lia|].
  destruct i as [|i].
  - cbn [insert list_insert lookup_total list_lookup_total fmap list_fmap concat].
    rewrite byte_bits_flip by done. rewrite flip_at_app_l by (simpl; lia). done.
  - cbn [insert list_insert lookup_total list_lookup_total fmap list_fmap concat].
    fold (list_fmap _ _ byte_bits). 
    change (list_fmap Z (list Z) byte_bits) with (fmap (M:=list) byte_bits).
    change (list_insert i ?v data) with (<[i := v]> data).
    change (list_lookup_total i data) with (data !!! i).
    rewrite IH by (simpl in Hi; lia).
    replace (8 * S i + Z.to_nat (7 - bit_idx))%nat
      with (length (byte_bits b) + (8 * i + Z.to_nat (7 - bit_idx)))%nat by (simpl; lia).
    by rewrite flip_at_app_r.
Qed.

Lemma second_bit_spec data byte_idx1 bit_idx1 draws data' :
  Lab3F.second_bit data byte_idx1 bit_idx1 draws = Some data' ->
  exists byte_idx2 bit_idx2,
    (byte_idx2, bit_idx2) ∈ draws /\
    (byte_idx1, bit_idx1) <> (byte_idx2, bit_idx2) /\
    data' = Lab3F.flip_bit data byte_idx2 bit_idx2.
Proof.
  induction draws as [|[byte_idx2 bit_idx2] draws IH]; [done|].
  cbn [Lab3F.second_bit]. destruct (negb _ || negb _) eqn:Hne.
  - intros [= <-]. exists byte_idx2, bit_idx2. split; [by left|]. split; [|done].
    intros [= -> ->]. by rewrite !Z.eqb_refl in Hne.
  - intros (i & k & Hin & ? & ?)%IH. exists i, k. split; [by right | done].
Qed.

Lemma second_bit_returns data byte_idx1 bit_idx1 draws :
  (exists d', d' ∈ draws /\ d' <> (byte_idx1, bit_idx1)) ->
  is_Some (Lab3F.second_bit data byte_idx1 bit_idx1 draws).
Proof.
  intros (d' & Hin & Hne). induction draws as [|[byte_idx2 bit_idx2] draws IH].
  - by apply elem_of_nil in Hin.
  - cbn [Lab3F.second_bit]. destruct (negb _ || negb _) eqn:Hd; [done|].
    apply orb_false_iff in Hd as [H1%negb_false_iff%Z.eqb_eq H2%negb_false_iff%Z.eqb_eq].
    subst. apply elem_of_cons in Hin as [->|Hin]; [done|]. by apply IH.
Qed.

Lemma bit_position (data : list Z) (d : Z * Z) :
  draw_in_range data d ->
  (Z.to_nat (8 * d.1 + 7 - d.2) < length (bytes_to_bits data))%nat.
Proof.
  intros [Hi Hk]. pose proof (bytes_to_bits_length data) as Hl. unfold len in *. lia.
Qed.

(** X24. apply_bit_corruption, with index draws in range: it returns
    when the draws hold a first pair and, later, a pair that differs
    from it; whenever it returns, the result has the length of the data; its bits are the bits of the data with
    exactly one bit inverted when random() < 0.40, with two different bits
    inverted when 0.40 <= random() < 0.65, and the data are returned
    unchanged when random() >= 0.65. *)
Theorem apply_bit_corruption_flips (src : Lab3F.corruption_source) (data : list Z) :
  Forall (draw_in_range data) (Lab3F.index_draws src) ->
  (enough_draws (Lab3F.index_draws src) -> is_Some (Lab3F.apply_bit_corruption src data)) /\
  forall data', Lab3F.apply_bit_corruption src data = Some data' ->
    len data' = len data /\
    ((Lab3F.rand_val src < 40 # 100)%Q ->
       exists j, (j < length (bytes_to_bits data))%nat /\
         bytes_to_bits data' = flip_at j (bytes_to_bits data)) /\
    ((40 # 100 <= Lab3F.rand_val src)%Q -> (Lab3F.rand_val src < 65 # 100)%Q ->
       exists j1 j2, j1 <> j2 /\
         (j1 < length (bytes_to_bits data))%nat /\ (j2 < length (bytes_to_bits data))%nat /\
         bytes_to_bits data' = flip_at j2 (flip_at j1 (bytes_to_bits data))) /\
    ((65 # 100 <= Lab3F.rand_val src)%Q -> data' = data).
Proof.
  intros Hdraws. split.
  - unfold Lab3F.apply_bit_corruption, enough_draws. cbv zeta.
    destruct (Lab3F.index_draws src) as [|[i1 k1] rest]; [done|].
    intros Hmore. repeat case_match; try done. by apply second_bit_returns.
  - intros data' Hres. split.
    { unfold len. by rewrite (apply_bit_corruption_length _ _ _ Hres). }
    unfold Lab3F.apply_bit_corruption in Hres. cbv zeta in Hres.
    destruct (Qle_bool (40 # 100) (Lab3F.rand_val src)) eqn:H40; cbn [negb] in Hres.
    + apply Qle_bool_iff in H40.
      destruct (Qle_bool (65 # 100) (Lab3F.rand_val src)) eqn:H65; cbn [negb] in Hres.
      * apply Qle_bool_iff in H65. injection Hres as <-.
        split; [intros Hlt; exfalso; by apply (Qlt_not_le _ _ Hlt)|].
        split; [intros _ Hlt; exfalso; by apply (Qlt_not_le _ _ Hlt)|]. done.
      * assert (H65' : ~ (65 # 100 <= Lab3F.rand_val src)%Q)
          by (intros H%Qle_bool_iff; congruence).
        split; [intros Hlt; exfalso; by apply (Qlt_not_le _ _ Hlt)|].
        split; [|done]. intros _ _.
        destruct (Lab3F.index_draws src) as [|[i1 k1] rest]; [done|].
        apply Forall_cons in Hdraws as [Hd1 Hrest].
        apply second_bit_spec in Hres as (i2 & k2 & Hin & Hne & ->).
        assert (Hd2 : draw_in_range data (i2, k2)) by (by eapply Forall_forall in Hrest).
        exists (Z.to_nat (8 * i1 + 7 - k1)), (Z.to_nat (8 * i2 + 7 - k2)).
        pose proof (bit_position data _ Hd1) as Hp1.
        pose proof (bit_position data _ Hd2) as Hp2.
        destruct Hd1 as [Hi1 Hk1], Hd2 as [Hi2 Hk2]. cbn [fst snd] in *.
        split; [|split; [done|split; [done|]]].
        -- intros Heq. apply Hne. f_equal; lia.
        -- rewrite bytes_to_bits_flip_bit; [|unfold len; rewrite flip_bit_length; done | done].
           by rewrite bytes_to_bits_flip_bit.
    + assert (H40' : ~ (40 # 100 <= Lab3F.rand_val src)%Q)
        by (intros H%Qle_bool_iff; congruence).
      split; [|split; [done|]].
      * intros _. destruct (Lab3F.index_draws src) as [|[i1 k1] rest]; [done|].
        apply Forall_cons in Hdraws as [Hd1 _]. injection Hres as <-.
        exists (Z.to_nat (8 * i1 + 7 - k1)).
        split; [apply (bit_position data _ Hd1)|].
        destruct Hd1 as [Hi1 Hk1]. by apply bytes_to_bits_flip_bit.
      * intros H65. exfalso. apply H40'. eapply Qle_trans; [|exact H65]. done.
Qed.

Lemma apply_bit_corruption_flips_witness :
  (enough_draws (Lab3F.index_draws double_corruption) ->
   is_Some (Lab3F.apply_bit_corruption double_corruption hello_world)) /\
  forall data', Lab3F.apply_bit_corruption double_corruption hello_world = Some data' ->
    len data' = len hello_world /\
    ((Lab3F.rand_val double_corruption < 40 # 100)%Q ->
       exists j, (j < length (bytes_to_bits hello_world))%nat /\
         bytes_to_bits data' = flip_at j (bytes_to_bits hello_world)) /\
    ((40 # 100 <= Lab3F.rand_val double_corruption)%Q ->
     (Lab3F.rand_val double_corruption < 65 # 100)%Q ->
       exists j1 j2, j1 <> j2 /\
         (j1 < length (bytes_to_bits hello_world))%nat /\
         (j2 < length (bytes_to_bits hello_world))%nat /\
         bytes_to_bits data' = flip_at j2 (flip_at j1 (bytes_to_bits hello_world))) /\
    ((65 # 100 <= Lab3F.rand_val double_corruption)%Q -> data' = hello_world).
Proof.
  apply (apply_bit_corruption_flips double_corruption hello_world).
  repeat (apply Forall_cons_2; [unfold draw_in_range, len; simpl; lia|]). apply Forall_nil_2.
Defined.

(** ** 3_LAB: a frame read byte by byte *)

Lemma serial_worker_run_lab3_unfold port_bytes :
  Lab3F.serial_worker_run port_bytes = foldl worker_step_lab3 (Some ([], [])) port_bytes.
Proof. reflexivity. Qed.

Lemma frame_parsed_raw_lab3 (a : Z) (raw : list Z) (delivered : list Lab3F.delivery) (fuel : nat) :
  DATA_LENGTH + Lab3F.FCS_LENGTH <= len (unstuff raw) ->
  let received_data := slice (unstuff raw) 0 DATA_LENGTH in
  let received_fcs := slice (unstuff raw) DATA_LENGTH (DATA_LENGTH + Lab3F.FCS_LENGTH) in
  Lab3F.receive_loop (S (S fuel)) (FLAG ++ [a] ++ DEST_ADDR ++ raw) delivered
  = Some ([], delivered ++ [{| Lab3F.source_addr := [a];
                               Lab3F.corrected_data := (Lab3F.verify_fcs received_data received_fcs).1.1;
                               Lab3F.corrected := (Lab3F.verify_fcs received_data received_fcs).1.2;
                               Lab3F.double_error := (Lab3F.verify_fcs received_data received_fcs).2 |}]).
Proof.
  intros Hlen received_data received_fcs. pose proof (unstuff_length raw) as Hraw.
  rewrite FCS_LENGTH_value in Hlen. change DATA_LENGTH with 10 in Hlen.
  set (rx := FLAG ++ [a] ++ DEST_ADDR ++ raw).
  assert (Hrx : len rx = 4 + len raw) by (unfold rx, len; simpl length; lia).
  cbn [Lab3F.receive_loop]. cbv zeta.
  assert (Hfind : bytes_find rx FLAG = 0) by apply bytes_find_flag_front.
  rewrite Hfind. change (0 =? -1) with false. cbv iota.
  assert (Hmin : (len rx - 0 <? 4 + DATA_LENGTH + Lab3F.FCS_LENGTH) = false).
  { apply Z.ltb_ge. rewrite FCS_LENGTH_value. change DATA_LENGTH with 10. lia. }
  rewrite Hmin. change (Z.to_nat 0) with 0%nat. rewrite drop_0.
  change (drop 4 rx) with raw. change (slice rx 2 3) with [a].
  assert (Hge : (len (unstuff raw) <? DATA_LENGTH + Lab3F.FCS_LENGTH) = false).
  { apply Z.ltb_ge. rewrite FCS_LENGTH_value. change DATA_LENGTH with 10. lia. }
  rewrite Hge. fold received_data received_fcs.
  destruct (Lab3F.verify_fcs received_data received_fcs) as [[corrected_data corrected] double_error].
  assert (Hnext : (0 + (4 + len raw) <=? len rx) = true) by (apply Z.leb_le; lia).
  rewrite Hnext.
  replace (Z.to_nat (0 + (4 + len raw))) with (length rx) by (unfold len in *; lia).
  rewrite drop_all. by rewrite bytes_find_nil.
Qed.

Lemma partial_frame_kept_lab3 (a : Z) (raw : list Z) (k fuel : nat) (delivered : list Lab3F.delivery) :
  ((4 <= k)%nat -> len (unstuff (take (k - 4) raw)) < DATA_LENGTH + Lab3F.FCS_LENGTH) ->
  Lab3F.receive_loop (S fuel) (take k (FLAG ++ [a] ++ DEST_ADDR ++ raw)) delivered
  = Some (take k (FLAG ++ [a] ++ DEST_ADDR ++ raw), delivered).
Proof.
  intros Hshort.
  destruct k as [|[|k]]; [done | done |].
  change (take (S (S k)) (FLAG ++ [a] ++ DEST_ADDR ++ raw))
    with (FLAG ++ take k ([a] ++ DEST_ADDR ++ raw)).
  set (rx := FLAG ++ take k ([a] ++ DEST_ADDR ++ raw)).
  cbn [Lab3F.receive_loop]. cbv zeta.
  assert (Hfind : bytes_find rx FLAG = 0) by apply bytes_find_flag_front.
  rewrite Hfind. change (0 =? -1) with false. cbv iota.
  destruct (len rx - 0 <? 4 + DATA_LENGTH + Lab3F.FCS_LENGTH) eqn:Hmin; [done|].
  apply Z.ltb_ge in Hmin. rewrite FCS_LENGTH_value in Hmin. change DATA_LENGTH with 10 in *.
  assert (Hk13 : (13 <= k)%nat).
  { unfold rx, len in Hmin. rewrite length_app, length_take in Hmin.
    change (length FLAG) with 2%nat in Hmin. lia. }
  destruct k as [|[|k]]; [lia | lia |].
  change (Z.to_nat 0) with 0%nat. rewrite drop_0.
  change (drop 4 rx) with (take k raw).
  specialize (Hshort ltac:(lia)). cbn [Nat.sub] in Hshort. rewrite Nat.sub_0_r in Hshort.
  apply Z.ltb_lt in Hshort. by rewrite Hshort.
Qed.

Lemma worker_frame_raw_lab3 (a : Z) (raw : list Z) (delivered : list Lab3F.delivery) :
  (forall k, (k < length raw)%nat -> len (unstuff (take k raw)) < DATA_LENGTH + Lab3F.FCS_LENGTH) ->
  DATA_LENGTH + Lab3F.FCS_LENGTH <= len (unstuff raw) ->
  let received_data := slice (unstuff raw) 0 DATA_LENGTH in
  let received_fcs := slice (unstuff raw) DATA_LENGTH (DATA_LENGTH + Lab3F.FCS_LENGTH) in
  foldl worker_step_lab3 (Some ([], delivered)) (FLAG ++ [a] ++ DEST_ADDR ++ raw)
  = Some ([], delivered ++ [{| Lab3F.source_addr := [a];
                               Lab3F.corrected_data := (Lab3F.verify_fcs received_data received_fcs).1.1;
                               Lab3F.corrected := (Lab3F.verify_fcs received_data received_fcs).1.2;
                               Lab3F.double_error := (Lab3F.verify_fcs received_data received_fcs).2 |}]).
Proof.
  intros Hshort Hfull received_data received_fcs.
  set (F := FLAG ++ [a] ++ DEST_ADDR ++ raw) in *.
  assert (HF : length F = (4 + length raw)%nat) by (unfold F; simpl length; lia).
  assert (Hprefix : forall k, (k < length F)%nat ->
            foldl worker_step_lab3 (Some ([], delivered)) (take k F) = Some (take k F, delivered)).
  { induction k as [|k IH]; intros Hk; [done|].
    destruct (lookup_lt_is_Some_2 F k ltac:(lia)) as [x Hx].
    rewrite (take_S_r _ _ _ Hx), foldl_app, IH by lia.
    cbn [foldl worker_step_lab3]. unfold Lab3F.on_data_received_1.
    rewrite <- (take_S_r _ _ _ Hx). rewrite Nat.add_1_r.
    unfold F. rewrite partial_frame_kept_lab3; [by rewrite app_nil_r|].
    intros ?. apply Hshort. lia. }
  destruct (lookup_lt_is_Some_2 F (length F - 1) ltac:(lia)) as [x Hx].
  assert (Hsplit : F = take (length F - 1) F ++ [x]).
  { rewrite <- (take_S_r _ _ _ Hx). rewrite take_ge; [done | lia]. }
  rewrite Hsplit at 1. rewrite foldl_app, Hprefix by lia.
  cbn [foldl worker_step_lab3]. unfold Lab3F.on_data_received_1. rewrite <- Hsplit.
  replace (length F + 1)%nat with (S (S (length F - 1))) by lia.
  unfold F. rewrite frame_parsed_raw_lab3 by done. done.
Qed.

(** X25. 3_LAB: a frame built for a chunk of at most DATA_LENGTH bytes
    whose FCS byte is not a reserved byte, read byte by byte by
    SerialWorker.run, is delivered once, when its last byte arrives, with
    the source address as sent and the data and flags verify_fcs returns
    for the corrupted chunk and the FCS; the buffer is left empty. *)
Theorem bytewise_frame_lab3 (src : Lab3F.corruption_source) (a : Z) (chunk frame : list Z) :
  len chunk <= DATA_LENGTH ->
  Lab3F.prepare_frame src [a] chunk = Some frame ->
  Forall (fun b => ~ reserved b) (Lab3F.calculate_fcs (zero_padded chunk)) ->
  exists corrupted,
    Lab3F.apply_bit_corruption src (zero_padded chunk) = Some corrupted /\
    let fcs := Lab3F.calculate_fcs (zero_padded chunk) in
    Lab3F.serial_worker_run frame
    = Some ([], [{| Lab3F.source_addr := [a];
                    Lab3F.corrected_data := (Lab3F.verify_fcs corrupted fcs).1.1;
                    Lab3F.corrected := (Lab3F.verify_fcs corrupted fcs).1.2;
                    Lab3F.double_error := (Lab3F.verify_fcs corrupted fcs).2 |}]).
Proof.
  intros Hc. unfold Lab3F.prepare_frame. cbv zeta. fold (zero_padded chunk).
  destruct (Lab3F.apply_bit_corruption src (zero_padded chunk)) as [corrupted|] eqn:Hcor; [|done].
  intros Hframe Hfcs.
  assert (frame = FLAG ++ [a] ++ DEST_ADDR ++ stuff (corrupted ++ Lab3F.calculate_fcs (zero_padded chunk)))
    as -> by congruence.
  clear Hframe. exists corrupted. split; [done|]. cbv zeta.
  assert (Hlen : len corrupted = DATA_LENGTH).
  { unfold len. rewrite (apply_bit_corruption_length _ _ _ Hcor).
    by apply zero_padded_length. }
  rewrite calculate_fcs_unfold in Hfcs |- *.
  set (f := pack_byte _ 0) in *. apply Forall_cons in Hfcs as [Hf _].
  assert (Hun : unstuff (stuff (corrupted ++ [f])) = corrupted ++ [f])
    by (rewrite unstuff_destuff; apply destuff_stuff).
  assert (Hlen' : len (corrupted ++ [f]) = DATA_LENGTH + Lab3F.FCS_LENGTH).
  { rewrite len_app, Hlen, FCS_LENGTH_value. done. }
  rewrite serial_worker_run_lab3_unfold, worker_frame_raw_lab3.
  - rewrite Hun, app_nil_l.
    assert (slice (corrupted ++ [f]) 0 DATA_LENGTH = corrupted) as ->
      by (rewrite <- Hlen; apply slice_prefix).
    assert (slice (corrupted ++ [f]) DATA_LENGTH (DATA_LENGTH + Lab3F.FCS_LENGTH) = [f]) as ->.
    { rewrite <- Hlen, FCS_LENGTH_value. change 1 with (len [f]).
      rewrite <- (app_nil_r [f]) at 1. apply slice_middle. }
    done.
  - intros k Hk. rewrite unstuff_destuff, <- Hlen'.
    apply (destuff_proper_prefix _ f); [apply last_snoc | done | done].
  - rewrite Hun. lia.
Qed.

Lemma bytewise_frame_lab3_witness :
  exists corrupted,
    Lab3F.apply_bit_corruption no_corruption (zero_padded [64; 27; 105]) = Some corrupted /\
    let fcs := Lab3F.calculate_fcs (zero_padded [64; 27; 105]) in
    Lab3F.serial_worker_run [64; 105; 5; 0; 27; 64; 27; 27; 27; 105; 0; 0; 0; 0; 0; 0; 0; 217]
    = Some ([], [{| Lab3F.source_addr := [5];
                    Lab3F.corrected_data := (Lab3F.verify_fcs corrupted fcs).1.1;
                    Lab3F.corrected := (Lab3F.verify_fcs corrupted fcs).1.2;
                    Lab3F.double_error := (Lab3F.verify_fcs corrupted fcs).2 |}]).
Proof.
  apply (bytewise_frame_lab3 no_corruption 5 [64; 27; 105]
           [64; 105; 5; 0; 27; 64; 27; 27; 27; 105; 0; 0; 0; 0; 0; 0; 0; 217]).
  - vm_compute. discriminate.
  - vm_compute. reflexivity.
  - apply (bool_decide_unpack _). vm_compute. exact I.
Defined.

(** ** What goes out on the port *)

Lemma send_bytes_wire (md : CSMACD.medium) (data : list Z) (st : CSMACD.tx_state) :
  exists p,
    attempt_sent data p (CSMACD.send_bytes md data st).2 /\
    CSMACD.port_out (CSMACD.send_bytes md data st).1
    = CSMACD.port_out st ++ p ++ jam_at md (CSMACD.jams st) (CSMACD.send_bytes md data st).2 /\
    CSMACD.jams (CSMACD.send_bytes md data st).1
    = jams_after (CSMACD.jams st) (CSMACD.send_bytes md data st).2.
Proof.
  revert st. induction data as [|byte data IH]; intros st.
  - exists []. cbn. split; [|by rewrite app_nil_r]. split; [done|]. split; [done|].
    intros H. exfalso. by apply H.
  - cbn [CSMACD.send_bytes].
    destruct (CSMACD.detect_collision md (CSMACD.detects st)).
    { exists []. cbn. split; [|done]. split; [apply prefix_nil|]. split; [done|].
      intros _. simpl. lia. }
    destruct (CSMACD.write_raises md (CSMACD.writes st)).
    { exists []. cbn. split; [|by rewrite app_nil_r]. split; [apply prefix_nil|]. split; [done|].
      intros _. simpl. lia. }
    match goal with |- context [CSMACD.send_bytes md data ?s] =>
      destruct (IH s) as (p & (Hp & Hc & Hn) & Hout & Hjams) end.
    exists (byte :: p). split; [|split].
    + split; [by apply prefix_cons|]. split.
      * intros Ho. by rewrite (Hc Ho).
      * intros Ho. specialize (Hn Ho). simpl. lia.
    + rewrite Hout. cbn [CSMACD.port_out CSMACD.jams]. by rewrite <- !(assoc_L (++)).
    + rewrite Hjams. done.
Qed.

Lemma jams_of_snoc md k os o :
  jams_of md k (os ++ [o]) = jams_of md k os ++ [jam_at md (foldl jams_after k os) o].
Proof.
  revert k. induction os as [|o' os IH]; intros k; [done|].
  cbn [app jams_of foldl]. by rewrite IH.
Qed.

Lemma jams_of_length md k os : length (jams_of md k os) = length os.
Proof.
  revert k. induction os as [|o os IH]; intros k; [done|]. cbn [jams_of length]. by rewrite IH.
Qed.

Lemma wire_snoc md ps os p o :
  length ps = length os ->
  wire md (ps ++ [p]) (os ++ [o])
  = wire md ps os ++ p ++ jam_at md (foldl jams_after 0%nat os) o.
Proof.
  intros Hlen. unfold wire, wire_from. rewrite jams_of_snoc.
  rewrite zip_with_app by (by rewrite jams_of_length).
  rewrite concat_app. cbn. by rewrite app_nil_r.
Qed.

Lemma transmit_loop_wire (md : CSMACD.medium) (data : list Z) (fuel : nat)
    (st : CSMACD.tx_state) (res : bool) (st' : CSMACD.tx_state) :
  wire_invariant md data st ->
  CSMACD.transmit_loop fuel md data st = Some (res, st') ->
  wire_invariant md data st'.
Proof.
  revert st. induction fuel as [|fuel IH]; intros st Hinv; [done|].
  cbn [CSMACD.transmit_loop].
  destruct (CSMACD.retry_count st <? CSMACD.max_retries); [|by intros [= _ <-]].
  destruct (CSMACD.listen_channel md (CSMACD.listens st)); [by apply IH|].
  set (st1 := CSMACD.after_listen false st).
  destruct (send_bytes_wire md data st1) as (p & Hp & Hout & Hjams).
  pose proof (send_bytes_spec md data st1) as (_ & Hatt & _).
  destruct (CSMACD.send_bytes md data st1) as [st2 o]. cbn [fst snd] in *.
  assert (Hinv' : wire_invariant md data (CSMACD.record_attempt o st2)).
  { destruct Hinv as (ps & Hps & Hport & Hj). exists (ps ++ [p]).
    cbn [CSMACD.attempts CSMACD.port_out CSMACD.jams CSMACD.record_attempt].
    rewrite Hatt, Hout, Hjams. unfold st1.
    cbn [CSMACD.attempts CSMACD.port_out CSMACD.jams CSMACD.after_listen].
    split; [apply Forall2_app; [done | by constructor]|].
    rewrite wire_snoc by (by eapply Forall2_length). rewrite Hport, Hj.
    split; [done|]. by rewrite foldl_app. }
  destruct o; [by intros [= _ <-] | by apply IH..].
Qed.

Lemma filter_out_absent (x : Z) (p : list Z) :
  x ∉ p -> filter (fun b => b <> x) p = p /\ filter (eq x) p = [].
Proof.
  induction p as [|b p IH]; [done|].
  intros [Hb Hp]%not_elem_of_cons. destruct (IH Hp) as [IH1 IH2].
  rewrite filter_cons_True by done. rewrite filter_cons_False by done.
  by rewrite IH1.
Qed.

Lemma filter_jam_bytes (n : nat) :
  filter (fun b => b <> 255) (replicate n 255) = [] /\
  filter (eq 255) (replicate n 255) = replicate n 255.
Proof.
  induction n as [|n [IH1 IH2]]; [done|]. cbn [replicate].
  rewrite filter_cons_False by (intros H; by apply H).
  rewrite filter_cons_True by done. by rewrite IH2.
Qed.

Lemma wire_jam_count (md : CSMACD.medium) (data : list Z) (k : nat) ps os :
  255 ∉ data ->
  Forall2 (attempt_sent data) ps os ->
  filter (fun b => b <> 255) (wire_from md k ps os) = concat ps /\
  len (filter (eq 255) (wire_from md k ps os)) <= 4 * len (filter (eq CSMACD.Collided) os) /\
  ((forall i, (4 <= CSMACD.jam_written md i)%nat) ->
   len (filter (eq 255) (wire_from md k ps os)) = 4 * len (filter (eq CSMACD.Collided) os)).
Proof.
  intros Hjam Hall. unfold wire_from. revert k.
  induction Hall as [|p o ps os (Hp & _ & _) _ IH]; intros k; [done|].
  destruct (IH (jams_after k o)) as (IH1 & IH2 & IH3).
  cbn [jams_of zip_with concat]. rewrite !filter_app, IH1, !len_app.
  assert (Hp255 : 255 ∉ p).
  { intros Hin. apply Hjam. destruct Hp as [q ->]. apply elem_of_app. by left. }
  destruct (filter_out_absent 255 p Hp255) as [-> ->].
  change (len []) with 0. rewrite filter_cons.
  destruct o; cbn [jam_at].
  - rewrite decide_False by done. cbn [filter list_filter]. rewrite app_nil_r.
    change (len []) with 0. split; [done|]. split; [lia|]. intros Hfull. rewrite IH3 by done. lia.
  - unfold CSMACD.send_jam_signal.
    destruct (filter_jam_bytes (Nat.min 4 (CSMACD.jam_written md k))) as [-> ->].
    rewrite decide_True by done. rewrite len_cons.
    assert (Hr : forall n : nat, len (replicate n 255) = Z.of_nat n)
      by (intros n; unfold len; by rewrite length_replicate).
    rewrite !Hr.
    split; [by rewrite app_nil_r|]. split; [lia|]. intros Hfull. rewrite IH3 by done.
    specialize (Hfull k). lia.
  - rewrite decide_False by done. cbn [filter list_filter]. rewrite app_nil_r.
    change (len []) with 0. split; [done|]. split; [lia|]. intros Hfull. rewrite IH3 by done. lia.
Qed.

(** X26. What transmit_with_csma_cd writes to the port, on a medium
    sensed busy at most [B] times in a row: for every attempt a prefix
    of the frame, the whole frame when the attempt completed and a
    shorter prefix otherwise, followed, when the attempt ended in a
    collision, by what that call of send_jam_signal got onto the port
    (the four jam bytes 0xFF, fewer when its write failed, none when the
    port was closed), and nothing else.  For a frame without byte 0xFF,
    the port output without its 0xFF bytes is the concatenation of these
    prefixes, and the number of 0xFF bytes is at most four times
    collision_count, and exactly that when every jam write is complete. *)
Theorem port_output_of_transmission (md : CSMACD.medium) (data : list Z) (B : nat) :
  (forall k, exists j, (j <= B)%nat /\ CSMACD.listen_channel md (k + j) = false) ->
  exists res st ps,
    CSMACD.transmit_with_csma_cd (16 * (B + 1) + 1) md data = Some (res, st) /\
    Forall2 (attempt_sent data) ps (CSMACD.attempts st) /\
    CSMACD.port_out st = wire md ps (CSMACD.attempts st) /\
    (255 ∉ data ->
       filter (fun b => b <> 255) (CSMACD.port_out st) = concat ps /\
       len (filter (eq 255) (CSMACD.port_out st)) <= 4 * CSMACD.collision_count st /\
       ((forall i, (4 <= CSMACD.jam_written md i)%nat) ->
        len (filter (eq 255) (CSMACD.port_out st)) = 4 * CSMACD.collision_count st)).
Proof.
  intros Hbusy.
  destruct (transmit_loop_returns md data B Hbusy 16 CSMACD.initial)
    as (fuel & res & st & Hfuel & Hrun & _ & _ & _ & _ & Hcc).
  { unfold between_rounds. simpl. split; [done|]. split; [|done]. by intros ?%elem_of_nil. }
  { done. }
  assert (Hinv : wire_invariant md data st).
  { apply (transmit_loop_wire md data fuel CSMACD.initial res st); [|done].
    exists []. split; [constructor | done]. }
  destruct Hinv as (ps & Hps & Hport & _).
  exists res, st, ps. split.
  { unfold CSMACD.transmit_with_csma_cd.
    replace (16 * (B + 1) + 1)%nat with (fuel + (16 * (B + 1) + 1 - fuel))%nat by lia.
    by apply transmit_loop_more. }
  split; [done|]. split; [done|]. intros Hjam.
  rewrite Hport, Hcc. by apply (wire_jam_count md data).
Qed.

Lemma port_output_of_transmission_witness :
  exists res st ps,
    CSMACD.transmit_with_csma_cd (16 * (0 + 1) + 1) always_colliding [64; 105; 1; 0] = Some (res, st) /\
    Forall2 (attempt_sent [64; 105; 1; 0]) ps (CSMACD.attempts st) /\
    CSMACD.port_out st = wire always_colliding ps (CSMACD.attempts st) /\
    (255 ∉ [64; 105; 1; 0] ->
       filter (fun b => b <> 255) (CSMACD.port_out st) = concat ps /\
       len (filter (eq 255) (CSMACD.port_out st)) <= 4 * CSMACD.collision_count st /\
       ((forall i, (4 <= CSMACD.jam_written always_colliding i)%nat) ->
        len (filter (eq 255) (CSMACD.port_out st)) = 4 * CSMACD.collision_count st)).
Proof.
  apply (port_output_of_transmission always_colliding [64; 105; 1; 0] 0).
  intros k. exists 0%nat. split; [lia | reflexivity].
Defined.

(** ** A clear medium *)

Lemma send_bytes_clear (md : CSMACD.medium) (data : list Z) (st : CSMACD.tx_state) :
  (forall k, (k < length data)%nat ->
     CSMACD.detect_collision md (CSMACD.detects st + k) = false /\
     CSMACD.write_raises md (CSMACD.writes st + k) = false) ->
  CSMACD.send_bytes md data st
  = ({| CSMACD.collision_count := CSMACD.collision_count st;
        CSMACD.retry_count := CSMACD.retry_count st;
        CSMACD.listens := CSMACD.listens st;
        CSMACD.detects := CSMACD.detects st + length data;
        CSMACD.draws := CSMACD.draws st;
        CSMACD.writes := CSMACD.writes st + length data;
        CSMACD.jams := CSMACD.jams st;
        CSMACD.port_out := CSMACD.port_out st ++ data;
        CSMACD.sleeps := CSMACD.sleeps st ++ replicate (length data) 1;
        CSMACD.attempts := CSMACD.attempts st |}, CSMACD.Completed).
Proof.
  revert st. induction data as [|byte data IH]; intros st Hclear.
  - cbn. rewrite !Nat.add_0_r, !app_nil_r. by destruct st.
  - cbn [CSMACD.send_bytes].
    destruct (Hclear 0%nat ltac:(simpl; lia)) as [Hd Hw]. rewrite !Nat.add_0_r in Hd, Hw.
    rewrite Hd, Hw. rewrite IH.
    + cbn. f_equal. f_equal; try lia; by rewrite <- (assoc_L (++)).
    + intros k Hk. cbn. destruct (Hclear (S k) ltac:(simpl; lia)) as [Hd' Hw'].
      by rewrite !Nat.add_succ_r in Hd', Hw'.
Qed.

(** X27. When the first carrier sense finds the channel free and no
    collision or write error occurs during the first len(data) bytes,
    transmit_with_csma_cd returns True after a single attempt, having
    written exactly the frame to the port, with no retry, no collision
    and one carrier sense, and with one collision check and one pause of
    1 ms for every byte. *)
Theorem clear_medium_sends_at_once (md : CSMACD.medium) (data : list Z) (fuel : nat) :
  CSMACD.listen_channel md 0 = false ->
  (forall k, (k < length data)%nat ->
     CSMACD.detect_collision md k = false /\ CSMACD.write_raises md k = false) ->
  exists st,
    CSMACD.transmit_with_csma_cd (S fuel) md data = Some (true, st) /\
    CSMACD.port_out st = data /\
    CSMACD.attempts st = [CSMACD.Completed] /\
    CSMACD.retry_count st = 0 /\ CSMACD.collision_count st = 0 /\
    CSMACD.listens st = 1%nat /\ CSMACD.detects st = length data /\
    CSMACD.sleeps st = replicate (length data) 1.
Proof.
  intros Hlisten Hclear. unfold CSMACD.transmit_with_csma_cd.
  cbn [CSMACD.transmit_loop]. change (CSMACD.retry_count CSMACD.initial <? CSMACD.max_retries) with true.
  cbn [CSMACD.listens CSMACD.initial]. rewrite Hlisten. cbv iota.
  rewrite send_bytes_clear by done. eexists. split; [done|]. done.
Qed.

Lemma clear_medium_sends_at_once_witness :
  exists st,
    CSMACD.transmit_with_csma_cd 1 always_clear [64; 105; 1; 0] = Some (true, st) /\
    CSMACD.port_out st = [64; 105; 1; 0] /\
    CSMACD.attempts st = [CSMACD.Completed] /\
    CSMACD.retry_count st = 0 /\ CSMACD.collision_count st = 0 /\
    CSMACD.listens st = 1%nat /\ CSMACD.detects st = length [64; 105; 1; 0] /\
    CSMACD.sleeps st = replicate (length [64; 105; 1; 0]) 1.
Proof.
  apply (clear_medium_sends_at_once always_clear [64; 105; 1; 0] 0); [reflexivity|].
  intros k _. split; reflexivity.
Defined.

(** ** send_data_1 on a clear medium *)

Lemma transmit_with_csma_cd_is_transmit_next fuel md data :
  CSMACD.transmit_with_csma_cd fuel md data = Lab4S.transmit_next fuel md data CSMACD.initial.
Proof. reflexivity. Qed.

Lemma preview_collisions_clear md frame detects occ :
  clear_medium md ->
  Lab4S.preview_collisions md frame detects occ = ((detects + length frame)%nat, occ).
Proof.
  intros Hclear. revert detects. induction frame as [|b frame IH]; intros detects.
  - cbn. by rewrite Nat.add_0_r.
  - cbn [Lab4S.preview_collisions]. destruct (Hclear detects) as (_ & -> & _).
    rewrite IH. f_equal. simpl. lia.
Qed.

Lemma transmit_next_clear md data (w : CSMACD.tx_state) (fuel : nat) :
  clear_medium md ->
  exists w',
    Lab4S.transmit_next (S fuel) md data w = Some (true, w') /\
    CSMACD.port_out w' = CSMACD.port_out w ++ data.
Proof.
  intros Hclear. unfold Lab4S.transmit_next. cbn [CSMACD.transmit_loop].
  change (CSMACD.retry_count _ <? CSMACD.max_retries) with true. cbv iota.
  cbn [CSMACD.listens]. destruct (Hclear (CSMACD.listens w)) as (-> & _ & _).
  rewrite send_bytes_clear.
  - eexists. split; [reflexivity|]. done.
  - intros k _. split; apply Hclear.
Qed.

Lemma send_frames_clear md frames (st : Lab4S.send_state) (fuel : nat) :
  clear_medium md ->
  exists st',
    Lab4S.send_frames (S fuel) md frames st = Some st' /\
    CSMACD.port_out (Lab4S.world st') = CSMACD.port_out (Lab4S.world st) ++ concat frames /\
    Lab4S.total_bytes_sent st' = Lab4S.total_bytes_sent st + len (concat frames) /\
    Lab4S.collision_occurrences st' = Lab4S.collision_occurrences st.
Proof.
  intros Hclear. revert st. induction frames as [|frame frames IH]; intros st.
  - exists st. cbn [Lab4S.send_frames concat]. rewrite app_nil_r.
    change (len []) with 0. split; [done|]. split; [done|]. split; [lia | done].
  - cbn [Lab4S.send_frames]. rewrite preview_collisions_clear by done.
    match goal with |- context [Lab4S.transmit_next _ _ _ ?w] =>
      destruct (transmit_next_clear md frame w fuel Hclear) as (w' & -> & Hout) end.
    cbn [CSMACD.port_out] in Hout.
    match goal with |- context [Lab4S.send_frames _ _ _ ?s] =>
      destruct (IH s) as (st' & -> & H1 & H2 & H3) end.
    cbn [Lab4S.world Lab4S.total_bytes_sent Lab4S.collision_occurrences] in *.
    exists st'. split; [done|]. cbn [concat]. rewrite H1, Hout, H2, len_app.
    split; [by rewrite <- (assoc_L (++))|]. split; [lia | done].
Qed.

(** X28. 4_LAB end to end: on a medium that is always sensed free and
    never collides or fails, send_data_1 writes the frames of the data to
    the port one after the other and nothing else, counts all their
    bytes as sent and no collision; and, when the port number is not 255,
    the data holds no byte 0xFF and no chunk of DATA_LENGTH bytes ends in
    a reserved byte, SerialWorker.run on the bytes written delivers
    payloads that concatenate to the data followed by the zeros that pad
    the last chunk, and leaves the receive buffer empty. *)
Theorem send_data_1_arrives (md : CSMACD.medium) (data : list Z) (port_num : Z) (fuel : nat) :
  clear_medium md ->
  port_num <> 255 ->
  255 ∉ data ->
  (forall k, 0 <= k -> 10 * k + 9 < len data -> ~ reserved (getitem data (10 * k + 9))) ->
  exists st deliveries,
    Lab4S.send_data_1 (S fuel) md data port_num = Some st /\
    CSMACD.port_out (Lab4S.world st) = concat (Lab4F.prepare_data data port_num) /\
    Lab4S.total_bytes_sent st = len (CSMACD.port_out (Lab4S.world st)) /\
    Lab4S.collision_occurrences st = 0 /\
    Lab4F.serial_worker_run (CSMACD.port_out (Lab4S.world st)) = Some ([], deliveries) /\
    concat (Lab4F.received_data <$> deliveries)
      = data ++ replicate (Z.to_nat ((- len data) `mod` DATA_LENGTH)) 0.
Proof.
  intros Hclear Hport Hjam Hend. unfold Lab4S.send_data_1.
  match goal with |- context [Lab4S.send_frames _ _ _ ?s] =>
    destruct (send_frames_clear md (Lab4F.prepare_data data port_num) s fuel Hclear)
      as (st & Hrun & Hout & Htotal & Hocc) end.
  cbn [Lab4S.world Lab4S.total_bytes_sent Lab4S.collision_occurrences CSMACD.port_out CSMACD.initial]
    in Hout, Htotal, Hocc. rewrite app_nil_l in Hout.
  destruct (serial_worker_run_prepare_data data port_num Hport Hjam Hend)
    as (deliveries & Hrx & _ & Hdata).
  exists st, deliveries. rewrite Hout. split; [done|]. split; [done|].
  split; [lia|]. split; [done|]. done.
Qed.

Lemma send_data_1_arrives_witness :
  exists st deliveries,
    Lab4S.send_data_1 1 always_clear (hello_world ++ [64; 27; 105]) 5 = Some st /\
    CSMACD.port_out (Lab4S.world st) = concat (Lab4F.prepare_data (hello_world ++ [64; 27; 105]) 5) /\
    Lab4S.total_bytes_sent st = len (CSMACD.port_out (Lab4S.world st)) /\
    Lab4S.collision_occurrences st = 0 /\
    Lab4F.serial_worker_run (CSMACD.port_out (Lab4S.world st)) = Some ([], deliveries) /\
    concat (Lab4F.received_data <$> deliveries)
      = (hello_world ++ [64; 27; 105])
          ++ replicate (Z.to_nat ((- len (hello_world ++ [64; 27; 105])) `mod` DATA_LENGTH)) 0.
Proof.
  apply (send_data_1_arrives always_clear (hello_world ++ [64; 27; 105]) 5 0).
  - intros k. repeat split.
  - lia.
  - apply (bool_decide_unpack _). vm_compute. exact I.
  - intros k Hk0 Hk. change (len (hello_world ++ [64; 27; 105])) with 13 in Hk.
    assert (k = 0) as -> by lia. vm_compute. lia.
Defined.

(** ** 2_LAB: frames of fixed length *)

Lemma stuff_plain (p : list Z) : Forall (fun b => ~ reserved b) p -> stuff p = p.
Proof.
  induction 1 as [|b p Hb _ IH]; [done|].
  rewrite stuff_cons, decide_False by done. by rewrite IH.
Qed.

Lemma unstuff_plain (p : list Z) : Forall (fun b => ~ reserved b) p -> unstuff p = p.
Proof.
  intros Hp. rewrite unstuff_destuff.
  apply (destuff_length_aux (length p)); [done|].
  intros Hin. rewrite Forall_forall in Hp. apply (Hp _ Hin). unfold reserved. auto.
Qed.

Lemma zero_padded_plain (c : list Z) :
  Forall (fun b => ~ reserved b) c -> Forall (fun b => ~ reserved b) (zero_padded c).
Proof.
  intros Hc. unfold zero_padded. case_match; [|done].
  apply Forall_app. split; [done|]. apply Forall_replicate. unfold reserved. lia.
Qed.

Lemma frame_parsed_lab2 (a : Z) (payload rest : list Z) (delivered : list Lab2F.delivery) (fuel : nat) :
  len payload = DATA_LENGTH ->
  Lab2F.receive_loop (S fuel) (FLAG ++ [a] ++ DEST_ADDR ++ payload ++ Lab2F.FCS ++ rest) delivered
  = Lab2F.receive_loop fuel rest
      (delivered ++ [{| Lab2F.source_addr := [a]; Lab2F.unstuffed_data := unstuff payload |}]).
Proof.
  intros Hlen. change DATA_LENGTH with 10 in Hlen.
  set (rx := FLAG ++ [a] ++ DEST_ADDR ++ payload ++ Lab2F.FCS ++ rest).
  assert (Hrx : len rx = 15 + len rest).
  { unfold rx, len in *. rewrite !length_app. simpl length. lia. }
  pose proof (len_nonneg rest) as Hrest.
  cbn [Lab2F.receive_loop]. cbv zeta.
  assert (Hfind : bytes_find rx FLAG = 0) by apply bytes_find_flag_front.
  rewrite Hfind. change (0 =? -1) with false. cbv iota.
  assert (Hmin : (len rx - 0 <? 15) = false) by (apply Z.ltb_ge; lia).
  rewrite Hmin.
  assert (Hpl : length payload = 10%nat) by (unfold len in Hlen; lia).
  assert (Hframe : slice rx 0 (0 + 15) = FLAG ++ [a] ++ DEST_ADDR ++ payload ++ Lab2F.FCS).
  { unfold slice, rx. change (Z.to_nat (0 + 15) - Z.to_nat 0)%nat with 15%nat.
    change (Z.to_nat 0) with 0%nat. rewrite drop_0.
    replace (FLAG ++ [a] ++ DEST_ADDR ++ payload ++ Lab2F.FCS ++ rest)
      with ((FLAG ++ [a] ++ DEST_ADDR ++ payload ++ Lab2F.FCS) ++ rest)
      by (by rewrite <- !(assoc_L (++))).
    apply take_app_length'. rewrite !length_app. simpl length. lia. }
  rewrite Hframe.
  change (slice (FLAG ++ [a] ++ DEST_ADDR ++ payload ++ Lab2F.FCS) 2 3) with [a].
  assert (Hraw : slice (FLAG ++ [a] ++ DEST_ADDR ++ payload ++ Lab2F.FCS) 4 14 = payload).
  { unfold slice. change (Z.to_nat 14 - Z.to_nat 4)%nat with 10%nat.
    change (drop (Z.to_nat 4) (FLAG ++ [a] ++ DEST_ADDR ++ payload ++ Lab2F.FCS))
      with (payload ++ Lab2F.FCS).
    by apply take_app_length'. }
  rewrite Hraw.
  assert (Hnext : (0 + 15 <=? len rx) = true) by (apply Z.leb_le; lia).
  rewrite Hnext.
  assert (Hdrop : drop (Z.to_nat (0 + 15)) rx = rest).
  { unfold rx. change (Z.to_nat (0 + 15)) with 15%nat.
    replace (FLAG ++ [a] ++ DEST_ADDR ++ payload ++ Lab2F.FCS ++ rest)
      with ((FLAG ++ [a] ++ DEST_ADDR ++ payload ++ Lab2F.FCS) ++ rest)
      by (by rewrite <- !(assoc_L (++))).
    apply drop_app_length'. rewrite !length_app. simpl length. lia. }
  by rewrite Hdrop.
Qed.

Lemma frames_parsed_lab2 (a : Z) (chunks : list (list Z)) (delivered : list Lab2F.delivery) (fuel : nat) :
  Forall (fun c => len c <= DATA_LENGTH /\ Forall (fun b => ~ reserved b) c) chunks ->
  (length chunks < fuel)%nat ->
  Lab2F.receive_loop fuel (concat (Lab2F.prepare_frame [a] <$> chunks)) delivered
  = Some ([], delivered ++ ((fun c => {| Lab2F.source_addr := [a];
                                         Lab2F.unstuffed_data := zero_padded c |}) <$> chunks)).
Proof.
  intros Hall. revert delivered fuel.
  induction Hall as [|c chunks [Hlen Hplain] _ IH]; intros delivered fuel Hfuel.
  - destruct fuel as [|fuel]; [simpl in Hfuel; lia|]. by rewrite app_nil_r.
  - destruct fuel as [|fuel]; [simpl in Hfuel; lia|].
    rewrite fmap_cons. cbn [concat]. unfold Lab2F.prepare_frame at 1. cbv zeta.
    fold (zero_padded c). rewrite stuff_plain by (by apply zero_padded_plain).
    rewrite <- !(assoc_L (++)).
    rewrite frame_parsed_lab2 by (by apply zero_padded_length).
    rewrite unstuff_plain by (by apply zero_padded_plain).
    rewrite IH by (simpl in Hfuel; lia).
    rewrite fmap_cons. by rewrite <- (assoc_L (++)).
Qed.

(** X29. 2_LAB: for chunks of at most DATA_LENGTH bytes that hold no
    reserved byte, the frames of prepare_data have 15 bytes each, and
    on_data_received_1, given all of them in one call with an empty
    buffer, delivers every one of them, in order, with the source address
    and the zero-padded chunk, and leaves the buffer empty. *)
Theorem fixed_length_frames_all_delivered (a : Z) (chunks : list (list Z)) :
  Forall (fun c => len c <= DATA_LENGTH /\ Forall (fun b => ~ reserved b) c) chunks ->
  Lab2F.on_data_received_1 [] (concat (Lab2F.prepare_frame [a] <$> chunks))
  = Some ([], (fun c => {| Lab2F.source_addr := [a];
                           Lab2F.unstuffed_data := zero_padded c |}) <$> chunks).
Proof.
  intros Hall. unfold Lab2F.on_data_received_1. rewrite app_nil_l.
  rewrite frames_parsed_lab2; [done | done |].
  clear Hall. induction chunks as [|c chunks IH]; [simpl; lia|].
  rewrite fmap_cons. cbn [concat]. rewrite length_app.
  assert (4 <= length (Lab2F.prepare_frame [a] c))%nat.
  { unfold Lab2F.prepare_frame. cbv zeta. simpl length. lia. }
  simpl length. lia.
Qed.

Lemma fixed_length_frames_all_delivered_witness :
  Lab2F.on_data_received_1 [] (concat (Lab2F.prepare_frame [5] <$> [hello_world; [72; 101]]))
  = Some ([], (fun c => {| Lab2F.source_addr := [5];
                           Lab2F.unstuffed_data := zero_padded c |}) <$> [hello_world; [72; 101]]).
Proof.
  apply (fixed_length_frames_all_delivered 5 [hello_world; [72; 101]]).
  repeat (apply Forall_cons_2;
          [split; [vm_compute; discriminate
                  | repeat (apply Forall_cons_2; [unfold reserved; lia|]); apply Forall_nil_2]|]).
  apply Forall_nil_2.
Defined.

(** ** Frames parsed as they arrive *)






